(** * screeps-pluggable: cost-matrix codec, Atlas cache, Cartographer, Navigator

    A shallow embedding of the JavaScript module that holds [Navigator],
    [Cartographer], [Atlas] and the [PathFinder.CostMatrix] prototype
    extensions ([update], [pack], [unpack]), with the properties of the
    specification stated over it.

    Conventions of the embedding.
    - A JavaScript string is the list of its UTF-16 code units.
    - The numbers the code handles are integers and are embedded in [Z];
      the places where the code can produce [NaN] use [number].
    - A [Uint8Array] is a list of cells; a write outside of it is dropped,
      as typed arrays do, and every written value is reduced modulo 256.
    - Module level variables ([PACKED_COSTS], [COSTS_ROOM], [COSTS_CREEP],
      [TERRAIN], [OFFSETS], [Atlas.lastReset]) are the fields of [State],
      which every function threads.  [CostMatrix] instances live in an
      object store and are named by their reference, so that two names of
      one instance are told apart from two equal instances.
    - The game ([Game], [PathFinder.search], room queries) is a record of
      answers, quantified over in the theorems. *)

From Stdlib Require Import ZArith Lia String Ascii QArith.
From stdpp Require Import base decidable option list numbers gmap fin_maps pretty.

Open Scope Z_scope.

(** ** JavaScript values used by the module *)

Abbreviation jsstring := (list Z) (only parsing).

Inductive number :=
  | Num (z : Z)
  | NaN.

Module JS.

Definition ToUint16 (n : Z) : Z := n mod 65536.
Definition ToUint8 (n : Z) : Z := n mod 256.

(** [String.fromCharCode(...codes)] *)
Definition fromCharCode (codes : list Z) : jsstring := ToUint16 <$> codes.

(** [s.charCodeAt(i)]; [None] is [NaN], the answer past the end. *)
Definition charCodeAt (s : jsstring) (i : nat) : option Z := s !! i.

(** [s.substring(i)] *)
Definition substring (s : jsstring) (i : nat) : jsstring := drop i s.

(** A string literal of the source, as code units. *)
Definition str (s : string) : jsstring :=
  (fun a => Z.of_nat (nat_of_ascii a)) <$> list_ascii_of_string s.

(** [array.indexOf(c)]: the first index holding [c], or [-1]. *)
Fixpoint indexOf_from (l : list Z) (c : Z) (i : Z) : Z :=
  match l with
  | [] => -1
  | a :: l' => if decide (a = c) then i else indexOf_from l' c (i + 1)
  end.
Definition indexOf (l : list Z) (c : Z) : Z := indexOf_from l c 0.

(** [array.includes(s)] on an array of strings. *)
Definition includes (l : list (list Z)) (s : jsstring) : bool :=
  bool_decide (s ∈ l).

(** [typed[index] = v] on a [Uint8Array]. *)
Definition typed_set (bits : list Z) (index v : Z) : list Z :=
  if decide (0 ≤ index) then <[Z.to_nat index := ToUint8 v]> bits else bits.

(** [array[index]] read for storing in a [Uint8Array]: a missing element
    ([undefined]) and [NaN] are both stored as 0. *)
Definition element_or_0 (codec : list (option Z)) (index : Z) : Z :=
  if decide (0 ≤ index)
  then match codec !! Z.to_nat index with
       | Some (Some c) => c
       | _ => 0
       end
  else 0.

(** [parseInt(s[i], 10)] of one character of a string. *)
Definition parseInt_char (c : option Z) : number :=
  match c with
  | Some d => if decide (48 ≤ d ≤ 57) then Num (d - 48) else NaN
  | None => NaN
  end.

(** White space that [ToNumber] trims (WhiteSpace and LineTerminator). *)
Definition is_white (c : Z) : bool :=
  bool_decide (c ∈ [9; 10; 11; 12; 13; 32; 160; 5760; 8232; 8233; 8239;
                    8287; 12288; 65279])
  || bool_decide (8192 ≤ c ≤ 8202).

(** [+s[0]]: the unary plus of the first character of a string. *)
Definition plus_first (s : jsstring) : number :=
  match s with
  | [] => NaN
  | c :: _ =>
      if decide (48 ≤ c ≤ 57) then Num (c - 48)
      else if is_white c then Num 0 else NaN
  end.

(** [array[n]] for a number [n]: [None] is [undefined]. *)
Definition at_number (l : list Z) (n : number) : option Z :=
  match n with
  | Num i => if decide (0 ≤ i) then l !! Z.to_nat i else None
  | NaN => None
  end.

(** [n - k], [++n], and the comparisons, which [NaN] fails. *)
Definition minus (n : number) (k : Z) : number :=
  match n with Num z => Num (z - k) | NaN => NaN end.
Definition incr (n : number) : number :=
  match n with Num z => Num (z + 1) | NaN => NaN end.
Definition lt (n : number) (k : Z) : bool :=
  match n with Num z => bool_decide (z < k) | NaN => false end.
Definition gt (n : number) (k : Z) : bool :=
  match n with Num z => bool_decide (z > k) | NaN => false end.

(** [a === b] where [a] may be [undefined] and [b] is a number. *)
Definition strict_eq (a : option Z) (b : number) : bool :=
  match a, b with
  | Some a, Num b => bool_decide (a = b)
  | _, _ => false
  end.

End JS.

(** ** PathFinder.CostMatrix and its prototype extensions *)

Definition SPACER : Z := 22.

(** [TRIGGER] is read by [unpack].  The text of the module that holds
    [Navigator] leaves the name without a declaration; the declaration
    taken here is the one Atlas.js and the other copies of [unpack] carry,
    [const TRIGGER = String.fromCharCode(65355)], held as its code unit. *)
Definition TRIGGER : Z := 65355.

Record CostMatrix := mkCostMatrix {
  _bits : list Z;
  _costMap : list Z
}.

Module CostMatrix.

(** [new PathFinder.CostMatrix()] *)
Definition new : CostMatrix :=
  {| _bits := replicate 2500 0; _costMap := [] |}.

(** [matrix.get(x, y)]; [None] is [undefined]. *)
Definition get (m : CostMatrix) (x y : Z) : option Z :=
  if decide (0 ≤ x * 50 + y) then _bits m !! Z.to_nat (x * 50 + y) else None.

(** [matrix.set(x, y, cost)] *)
Definition set (m : CostMatrix) (x y cost : Z) : CostMatrix :=
  {| _bits := JS.typed_set (_bits m) (x * 50 + y) (Z.min (Z.max 0 cost) 255);
     _costMap := _costMap m |}.

(** [matrix.clone()]: a new instance with a copy of the cells. *)
Definition clone (m : CostMatrix) : CostMatrix :=
  {| _bits := _bits m; _costMap := [] |}.

(** The block shared by [update] and [pack]:
    [let offset = OFFSETS.indexOf(cost);
     if (offset === -1) { offset = OFFSETS.push(cost) - 1; }] *)
Definition offset_of (OFFSETS : list Z) (cost : Z) : Z * list Z :=
  let offset := JS.indexOf OFFSETS cost in
  if decide (offset = -1)
  then (Z.of_nat (length (OFFSETS ++ [cost])) - 1, OFFSETS ++ [cost])
  else (offset, OFFSETS).

Definition update (m : CostMatrix) (x y cost : Z) (OFFSETS : list Z)
  : CostMatrix * list Z :=
  let index := x * 50 + y in
  let bits := JS.typed_set (_bits m) index (Z.min (Z.max 0 cost) 255) in
  let '(offset, OFFSETS) := offset_of OFFSETS cost in
  ({| _bits := bits; _costMap := _costMap m ++ [index * SPACER + offset] |},
   OFFSETS).

(** The [for] loop of [pack], from cell [i] on. *)
Fixpoint pack_loop (bits : list Z) (i : Z) (costMap OFFSETS : list Z)
  : list Z * list Z :=
  match bits with
  | [] => (costMap, OFFSETS)
  | cost :: bits =>
      if decide (cost = 0) then pack_loop bits (i + 1) costMap OFFSETS
      else
        let '(offset, OFFSETS) := offset_of OFFSETS cost in
        pack_loop bits (i + 1) (costMap ++ [i * SPACER + offset]) OFFSETS
  end.

(** [matrix.pack()] returns the string; the instance keeps the filled
    [costMap] and [OFFSETS] keeps what was pushed. *)
Definition pack (m : CostMatrix) (OFFSETS : list Z)
  : jsstring * CostMatrix * list Z :=
  if decide (0 < Z.of_nat (length (_costMap m)))
  then (JS.fromCharCode (_costMap m), m, OFFSETS)
  else
    let '(costMap, OFFSETS) := pack_loop (_bits m) 0 (_costMap m) OFFSETS in
    (JS.fromCharCode costMap,
     {| _bits := _bits m; _costMap := costMap |}, OFFSETS).

(** The header of a frozen string: [codec] and [start]. *)
Definition unpack_header (packed : jsstring) (OFFSETS : list Z)
  : list (option Z) * nat :=
  if decide (packed !! 0%nat = Some TRIGGER)
  then
    let codec :=
      match JS.parseInt_char (packed !! 1%nat) with
      | Num n => (fun i => JS.charCodeAt packed i) <$> seq 2 (Z.to_nat n)
      | NaN => []
      end in
    (codec, (0 + length codec + 2)%nat)
  else (Some <$> OFFSETS, 0%nat).

(** The decoding loop over the code units from [start] on. *)
Definition unpack_loop (codec : list (option Z)) (values : list Z)
  (bits : list Z) : list Z :=
  foldl (fun bits value =>
           JS.typed_set bits (Z.quot value SPACER)
             (JS.element_or_0 codec (Z.rem value SPACER)))
        bits values.

Definition unpack (packed : jsstring) (OFFSETS : list Z) : CostMatrix :=
  let '(codec, start) := unpack_header packed OFFSETS in
  {| _bits := unpack_loop codec (drop start packed) (_bits new);
     _costMap := [] |}.

End CostMatrix.

(** ** Positions and their identifiers *)

Record RoomPosition := mkPos {
  x : Z;
  y : Z;
  roomName : list Z
}.

(** [Navigator.positionToId] and [Navigator.positionFromId] (the module
    level functions of the older module have the same bodies). *)
Definition positionToId (pos : RoomPosition) : jsstring :=
  JS.fromCharCode [x pos + 192; y pos + 192] ++ roomName pos.

(** [None] stands for a position built with a [NaN] coordinate, which is
    what an identifier shorter than two code units gives. *)
Definition positionFromId (id : jsstring) : option RoomPosition :=
  match JS.charCodeAt id 0, JS.charCodeAt id 1 with
  | Some a, Some b => Some (mkPos (a - 192) (b - 192) (JS.substring id 2))
  | _, _ => None
  end.

(** ** The game as the module reads it *)

(** Game constants. *)
Definition STRUCTURE_ROAD : jsstring := JS.str "road".
Definition STRUCTURE_RAMPART : jsstring := JS.str "rampart".
Definition STRUCTURE_CONTAINER : jsstring := JS.str "container".
Definition TERRAIN_MASK_WALL : Z := 1.
Definition TOP : Z := 1.
Definition TOP_RIGHT : Z := 2.
Definition RIGHT : Z := 3.
Definition BOTTOM_RIGHT : Z := 4.
Definition BOTTOM : Z := 5.
Definition BOTTOM_LEFT : Z := 6.
Definition LEFT : Z := 7.
Definition TOP_LEFT : Z := 8.

Record Structure := mkStructure {
  structureType : list Z;
  s_pos : RoomPosition;
  s_my : bool;
  isPublic : bool
}.

Record Creep := mkCreep {
  c_name : list Z;
  c_pos : RoomPosition;
  c_my : bool;
  fatigue : Z;
  spawning : bool
}.

(** What [room.find] answers for the constants the module passes. *)
Record Room := mkRoom {
  r_name : list Z;
  FIND_STRUCTURES : list Structure;
  FIND_MY_CONSTRUCTION_SITES : list Structure;
  FIND_CREEPS : list Creep;
  (** positions of the sources and of the minerals *)
  FIND_SOURCES : list RoomPosition;
  FIND_MINERALS : list RoomPosition;
  FIND_HOSTILE_STRUCTURES : list Structure
}.

(** One entry of [opts.addArea]. *)
Record AreaGoal := mkAreaGoal {
  ag_objects : list RoomPosition;
  ag_size : Z;
  ag_cost : Z;
  ag_replace : option bool
}.

(** ** Module state *)

(** Calls that leave the module, in the order they are made; the list
    of them is kept beside the state to say what was passed to whom. *)
Inductive Event :=
  | EvFindRoute (r1 r2 : list Z)
  | EvSearch (start : RoomPosition) (range : Z) (pos : RoomPosition)
      (route : option (list (list Z))) (maxRooms : Z)
  | EvLog (start goal : RoomPosition)
  | EvSay (creep : list Z) (stuck : Z)
  | EvMove (creep : list Z) (direction : number)
  | EvSwapScheduled (creep : list Z) (time : Z).

Record State := mkState {
  PACKED_COSTS : gmap (list Z) (list Z);
  TERRAIN : gmap (list Z) (Z -> Z -> Z);
  COSTS_ROOM : gmap (list Z) nat;
  COSTS_CREEP : gmap (list Z) nat;
  OFFSETS : list Z;
  lastReset : Z;
  (** the [CostMatrix] instances, by reference *)
  store : list CostMatrix
}.

(** [store[ref] = m]: a write to the instance a reference names. *)
Definition set_store (f : list CostMatrix -> list CostMatrix) (st : State) : State :=
  mkState (PACKED_COSTS st) (TERRAIN st) (COSTS_ROOM st) (COSTS_CREEP st)
    (OFFSETS st) (lastReset st) (f (store st)).
Definition set_TERRAIN (terrains : gmap (list Z) (Z -> Z -> Z)) (st : State)
  : State :=
  mkState (PACKED_COSTS st) terrains (COSTS_ROOM st) (COSTS_CREEP st)
    (OFFSETS st) (lastReset st) (store st).

(** Errors JavaScript raises in the module. *)
Inductive error :=
  | TypeError
  | ReferenceError.

Inductive result (A : Type) :=
  | Ok (a : A)
  | Throw (e : error).
Arguments Ok {A} a.
Arguments Throw {A} e.

(** A number or [Infinity]. *)
Inductive extended :=
  | Finite (z : Z)
  | Infinity.

(** What a room callback hands to the search: [false], or a value that
    is a matrix reference or [undefined]. *)
Inductive CallbackResult :=
  | CbFalse
  | CbValue (matrix : option nat).

Record SearchOpts := mkSearchOpts {
  so_roomCallback : list Z -> State -> CallbackResult * State;
  so_plainCost : Z;
  so_swampCost : Z;
  so_flee : bool;
  so_maxOps : Z;
  so_maxRooms : Z;
  so_maxCost : extended;
  so_heuristicWeight : Q
}.

Record SearchResult := mkSearchResult {
  path : list RoomPosition;
  incomplete : bool
}.

(** The options object, shared by [Navigator], [Cartographer] and
    [Atlas]; an absent property is [None] or [false]. *)
Record Opts := mkOpts {
  trackCreeps : bool;
  refreshMatrix : bool;
  addArea : option (list AreaGoal);
  range : option Z;
  avoid : option (list (list Z));
  anyRoom : bool;
  stealth : bool;
  serialize : option bool;
  visualizePathStyle : bool;
  roomCallback : option (list Z -> State -> CallbackResult * State);
  plainCost : option Z;
  swampCost : option Z;
  flee : bool;
  maxOps : option Z;
  maxRooms : option Z;
  maxCost : option Z;
  heuristicWeight : option Q
}.

(** [opts = {}] *)
Definition no_opts : Opts :=
  mkOpts false false None None None false false None false None
    None None false None None None None.

(** The game and the names the module reads without declaring them.
    The identifiers the module leaves free ([getRoomType], [exit]) and
    the method [findRoute], which [findPath] calls on the class while the
    class declares [getRoute], are optional: where one is absent
    JavaScript raises [ReferenceError], respectively [TypeError]. *)
Record Game := mkGame {
  time : Z;
  rooms : gmap (list Z) Room;
  (** [_.size(Game.constructionSites)] *)
  constructionSites : nat;
  OBSTACLE_OBJECT_TYPES : list (list Z);
  (** [new Room.Terrain(roomName).get(x, y)] *)
  Room_Terrain : list Z -> Z -> Z -> Z;
  (** [Game.map.getRoomLinearDistance] *)
  getRoomLinearDistance : list Z -> list Z -> Z;
  (** [pos.lookFor(LOOK_CREEPS)], [pos.lookFor(LOOK_STRUCTURES)] *)
  lookFor_creeps : RoomPosition -> list Creep;
  lookFor_structures : RoomPosition -> list Structure;
  (** [room.lookForAt(LOOK_CREEPS, x, y)] *)
  lookForAt_creeps : list Z -> number -> number -> list Creep;
  (** [p1.getDirectionTo(p2)]; [p2] is [None] when built with [NaN] *)
  getDirectionTo : RoomPosition -> option RoomPosition -> number;
  (** [pos.findClosestByRange(structures)], [pos.getRangeTo(structure)] *)
  findClosestByRange : RoomPosition -> list Structure -> option Structure;
  getRangeTo : RoomPosition -> option Structure -> number;
  (** [PathFinder.search] *)
  PathFinder_search :
    RoomPosition -> Z -> RoomPosition -> SearchOpts -> State ->
    SearchResult * State;
  (** [this.findRoute] *)
  findRoute : option (list Z -> list Z -> Opts -> list (list Z));
  getRoomType : option (list Z -> list Z);
  exit : option number
}.

(** ** Atlas *)

Definition RESET_FREQUENCY : Z := 500.

Module Atlas.

(** [Atlas.isWallAt(x, y, roomName)]; it reads and fills [TERRAIN]. *)
Definition isWallAt (G : Game) (x y : Z) (roomName : jsstring)
  (terrains : gmap (list Z) (Z -> Z -> Z))
  : bool * gmap (list Z) (Z -> Z -> Z) :=
  let terrains :=
    match terrains !! roomName with
    | Some _ => terrains
    | None => <[roomName := Room_Terrain G roomName]> terrains
    end in
  match terrains !! roomName with
  | Some terrain => (bool_decide (terrain x y = TERRAIN_MASK_WALL), terrains)
  | None => (false, terrains)
  end.

(** [Atlas.getWalkableArea(obj, size)]: the two nested loops. *)
Definition getWalkableArea (G : Game) (pos : RoomPosition) (size : Z)
  (terrains : gmap (list Z) (Z -> Z -> Z))
  : list (Z * Z) * gmap (list Z) (Z -> Z -> Z) :=
  let left := Z.max 0 (x pos - size) in
  let right := Z.min 49 (x pos + size) in
  let top := Z.max 0 (y pos - size) in
  let bottom := Z.min 49 (y pos + size) in
  foldl (fun '(tiles, terrains) x =>
           foldl (fun '(tiles, terrains) y =>
                    let '(wall, terrains) :=
                      isWallAt G x y (roomName pos) terrains in
                    if wall then (tiles, terrains)
                    else (tiles ++ [(x, y)], terrains))
                 (tiles, terrains) (seqZ top (bottom - top + 1)))
        ([], terrains) (seqZ left (right - left + 1)).

(** The cost [_addStructures] gives to one object. *)
Definition structure_cost (obj : Structure) : Z :=
  if decide (structureType obj = STRUCTURE_ROAD) then 1
  else if decide (structureType obj = STRUCTURE_RAMPART)
       then (if s_my obj || isPublic obj then 0 else 255)
  else if decide (structureType obj = STRUCTURE_CONTAINER) then 5
  else 255.

(** [Atlas._addStructures(room, matrix)]; it writes the matrix and
    [OFFSETS]. *)
Definition _addStructures (G : Game) (room : Room) (matrix : CostMatrix)
  (offsets : list Z) : CostMatrix * list Z :=
  let sites :=
    if decide (constructionSites G = 0%nat) then []
    else filter (fun s => structureType s ∈ OBSTACLE_OBJECT_TYPES G)
           (FIND_MY_CONSTRUCTION_SITES room) in
  let objects := FIND_STRUCTURES room ++ sites in
  foldl (fun '(matrix, offsets) obj =>
           let cost := structure_cost obj in
           match CostMatrix.get matrix (x (s_pos obj)) (y (s_pos obj)) with
           | Some old =>
               if decide (cost > old)
               then CostMatrix.update matrix (x (s_pos obj)) (y (s_pos obj))
                      cost offsets
               else (matrix, offsets)
           | None => (matrix, offsets)
           end)
        (matrix, offsets) objects.

(** [Atlas._addArea(id, matrix, goals)]; it writes the matrix,
    [TERRAIN] and [OFFSETS]. *)
Definition _addArea (G : Game) (id : jsstring) (matrix : CostMatrix)
  (goals : list AreaGoal) (terrains : gmap (list Z) (Z -> Z -> Z))
  (offsets : list Z)
  : CostMatrix * gmap (list Z) (Z -> Z -> Z) * list Z :=
  foldl (fun '(matrix, terrains, offsets) goal =>
           let '(grid, terrains) :=
             foldl (fun '(grid, terrains) obj =>
                      let '(tiles, terrains) :=
                        getWalkableArea G obj (ag_size goal) terrains in
                      (grid ++ tiles, terrains))
                   ([], terrains) (ag_objects goal) in
           let threshold :=
             if decide (ag_replace goal = Some false) then 1 else 255 in
           let '(matrix, offsets) :=
             foldl (fun '(matrix, offsets) '(x, y) =>
                      match CostMatrix.get matrix x y with
                      | Some old =>
                          if decide (old < threshold)
                          then CostMatrix.update matrix x y (ag_cost goal)
                                 offsets
                          else (matrix, offsets)
                      | None => (matrix, offsets)
                      end)
                   (matrix, offsets) grid in
           (matrix, terrains, offsets))
        (matrix, terrains, offsets) goals.

(** [Atlas.refresh(id, opts)].  The new instance is stored in
    [COSTS_ROOM] under a fresh reference; when the room is visible the
    instance is then filled in place and packed. *)
Definition refresh (G : Game) (id : jsstring) (opts : Opts) (st : State)
  : State :=
  let ref := length (store st) in
  let costs_room := <[id := ref]> (COSTS_ROOM st) in
  match rooms G !! id with
  | None =>
      mkState (PACKED_COSTS st) (TERRAIN st) costs_room (COSTS_CREEP st)
        (OFFSETS st) (lastReset st) (store st ++ [CostMatrix.new])
  | Some room =>
      let '(matrix, offsets) :=
        _addStructures G room CostMatrix.new (OFFSETS st) in
      let '(matrix, terrains, offsets) :=
        match addArea opts with
        | Some goals => _addArea G id matrix goals (TERRAIN st) offsets
        | None => (matrix, TERRAIN st, offsets)
        end in
      let '(packed, matrix, offsets) := CostMatrix.pack matrix offsets in
      mkState (<[id := packed]> (PACKED_COSTS st)) terrains costs_room
        (COSTS_CREEP st) offsets (lastReset st) (store st ++ [matrix])
  end.

(** [Atlas._addCreeps(id)]; [None] stands for the [TypeError] of reading
    a property of [undefined], which [getCosts] rules out. *)
Definition _addCreeps (G : Game) (id : jsstring) (st : State)
  : option nat * State :=
  match COSTS_ROOM st !! id, rooms G !! id with
  | Some base, Some room =>
      match store st !! base with
      | Some m =>
          let matrix :=
            foldl (fun matrix creep =>
                     CostMatrix.set matrix (x (c_pos creep)) (y (c_pos creep)) 255)
                  (CostMatrix.clone m) (FIND_CREEPS room) in
          let ref := length (store st) in
          (Some ref,
           mkState (PACKED_COSTS st) (TERRAIN st) (COSTS_ROOM st)
             (<[id := ref]> (COSTS_CREEP st)) (OFFSETS st) (lastReset st)
             (store st ++ [matrix]))
      | None => (None, st)
      end
  | _, _ => (None, st)
  end.

(** [Atlas._reset()] *)
Definition _reset (G : Game) (st : State) : State :=
  let packed :=
    if decide (Z.rem (time G) RESET_FREQUENCY = 0)
    then foldl (fun packed roomName =>
                  if decide (is_Some (rooms G !! roomName))
                  then delete roomName packed else packed)
               (PACKED_COSTS st) (map_to_list (PACKED_COSTS st)).*1
    else PACKED_COSTS st in
  let unpacked := (map_to_list (COSTS_ROOM st)).*1 in
  let '(costs_room, costs_creep) :=
    foldl (fun '(costs_room, costs_creep) roomName =>
             (delete roomName costs_room, delete roomName costs_creep))
          (COSTS_ROOM st, COSTS_CREEP st) unpacked in
  mkState packed (TERRAIN st) costs_room costs_creep (OFFSETS st) (time G)
    (store st).

(** [Atlas.getCosts(id, opts)]: the reference of the matrix it returns
    ([None] is [undefined]).  [unpack] is reached only with an entry of
    [PACKED_COSTS], since [refresh] has stored an instance otherwise. *)
Definition getCosts (G : Game) (id : jsstring) (opts : Opts) (st : State)
  : option nat * State :=
  let st := if decide (lastReset st < time G) then _reset G st else st in
  let st :=
    if decide (PACKED_COSTS st !! id = None \/ refreshMatrix opts = true)
    then refresh G id opts st else st in
  let st :=
    match COSTS_ROOM st !! id with
    | Some _ => st
    | None =>
        match PACKED_COSTS st !! id with
        | Some packed =>
            mkState (PACKED_COSTS st) (TERRAIN st)
              (<[id := length (store st)]> (COSTS_ROOM st)) (COSTS_CREEP st)
              (OFFSETS st) (lastReset st)
              (store st ++ [CostMatrix.unpack packed (OFFSETS st)])
        | None => st
        end
    end in
  if negb (trackCreeps opts && bool_decide (is_Some (rooms G !! id)))
  then (COSTS_ROOM st !! id, st)
  else
    match COSTS_CREEP st !! id with
    | Some ref => (Some ref, st)
    | None => _addCreeps G id st
    end.

End Atlas.

(** ** Computations that may throw *)

(** The module state and the calls made so far. *)
Record Run := mkRun {
  mods : State;
  calls : list Event
}.

Definition emit (e : Event) (run : Run) : Run :=
  mkRun (mods run) (calls run ++ [e]).

Definition M (A : Type) : Type := Run -> result A * Run.

Definition ret {A} (a : A) : M A := fun st => (Ok a, st).
Definition throw {A} (e : error) : M A := fun st => (Throw e, st).
Definition bind {A B} (c : M A) (k : A -> M B) : M B :=
  fun st =>
    match c st with
    | (Ok a, st) => k a st
    | (Throw e, st) => (Throw e, st)
    end.
Definition lift {A} (f : State -> A * State) : M A :=
  fun run => let '(a, st) := f (mods run) in (Ok a, mkRun st (calls run)).
Definition tell (e : Event) : M unit := fun st => (Ok tt, emit e st).

Notation "'letM' x := c 'in' k" := (bind c (fun x => k))
  (at level 10, x name, c at level 100, k at level 200, only parsing).
Notation "'runM' c 'in' k" := (bind c (fun _ => k))
  (at level 10, c at level 100, k at level 200, only parsing).

(** What [findPath] returns and [Navigator] caches: the serialized moves,
    or the positions when [opts.serialize === false]. *)
Inductive PathVal :=
  | PStr (s : list Z)
  | PArr (l : list RoomPosition).

(** ** Cartographer *)

Module Cartographer.

(** [a || b] for a number option: [undefined] and [0] are falsy. *)
Definition or_default (a : option Z) (b : Z) : Z :=
  match a with
  | Some v => if decide (v = 0) then b else v
  | None => b
  end.

(** [Cartographer.getRange(goal, opts)] *)
Definition getRange (G : Game) (goal : RoomPosition) (opts : Opts)
  (st : State) : Z * State :=
  match range opts with
  | Some r => (r, st)
  | None =>
      let '(wall, terrains) :=
        Atlas.isWallAt G (x goal) (y goal) (roomName goal) (TERRAIN st) in
      let st := set_TERRAIN terrains st in
      if wall then (1, st)
      else if negb (bool_decide (is_Some (rooms G !! roomName goal)))
      then (0, st)
      else if trackCreeps opts
              && bool_decide (is_Some (head (lookFor_creeps G goal)))
      then (1, st)
      else
        let obstacle :=
          List.find (fun s =>
                       bool_decide (structureType s <> STRUCTURE_ROAD)
                       && bool_decide (structureType s <> STRUCTURE_CONTAINER))
                    (lookFor_structures G goal) in
        ((if obstacle is Some _ then 1 else 0), st)
  end.

(** The room callback [callPathFinder] builds when [opts] has none. *)
Definition default_roomCallback (G : Game) (opts : Opts)
  (route : option (list (list Z))) (roomName : jsstring) (st : State)
  : CallbackResult * State :=
  if match route with
     | Some route => negb (JS.includes route roomName)
     | None => false
     end
  then (CbFalse, st)
  else if match avoid opts with
          | Some avoid => JS.includes avoid roomName
          | None => false
          end
  then (CbFalse, st)
  else let '(matrix, st) := Atlas.getCosts G roomName opts st in
       (CbValue matrix, st).

(** [Cartographer.callPathFinder(start, end, opts, route)] *)
Definition callPathFinder (G : Game) (start end_ : RoomPosition)
  (opts : Opts) (route : option (list (list Z))) (run : Run)
  : SearchResult * Run :=
  let '(range, st) := getRange G end_ opts (mods run) in
  let search_opts :=
    {| so_roomCallback :=
         match roomCallback opts with
         | Some callback => callback
         | None => default_roomCallback G opts route
         end;
       so_plainCost := or_default (plainCost opts) 3;
       so_swampCost := or_default (swampCost opts) 7;
       so_flee := flee opts;
       so_maxOps := or_default (maxOps opts) 20000;
       so_maxRooms :=
         or_default (maxRooms opts)
           (match route with
            | Some route => Z.of_nat (length route)
            | None => 16
            end);
       so_maxCost :=
         match maxCost opts with
         | Some v => if decide (v = 0) then Infinity else Finite v
         | None => Infinity
         end;
       so_heuristicWeight :=
         match heuristicWeight opts with
         | Some w => if Qeq_bool w 0 then (12 # 10)%Q else w
         | None => (12 # 10)%Q
         end |} in
  let '(result, st) := PathFinder_search G start range end_ search_opts st in
  (result,
   mkRun st
     (calls run ++ [EvSearch start range end_ route (so_maxRooms search_opts)])).

(** [this.findRoute(r1, r2, opts)] *)
Definition call_findRoute (G : Game) (r1 r2 : jsstring) (opts : Opts)
  : M (list (list Z)) :=
  match findRoute G with
  | None => throw TypeError
  | Some method => runM tell (EvFindRoute r1 r2) in ret (method r1 r2 opts)
  end.

(** [path.findIndex(p => getRoomType(p.roomName) === 'sourceKeeper')]
    followed by the slice. *)
Definition cut_at_sourceKeeper (G : Game) (path : list RoomPosition)
  : M (list RoomPosition) :=
  match path, getRoomType G with
  | [], _ => ret path
  | _, None => throw ReferenceError
  | _, Some type_of =>
      let index :=
        list_find (fun p => type_of (roomName p) = JS.str "sourceKeeper")
          path in
      ret (match index with
           | Some (i, _) => take i path
           | None => path
           end)
  end.

(** [String(n)] for the numbers [getDirectionTo] answers. *)
Definition number_to_string (n : number) : jsstring :=
  match n with
  | Num z => JS.str (pretty.pretty z)
  | NaN => JS.str "NaN"
  end.

(** [Cartographer.serializePath(path, start, opts)] *)
Definition serializePath (G : Game) (path : list RoomPosition)
  (start : RoomPosition) (opts : Opts) : M (list Z) :=
  let '(result, current, last) :=
    foldl (fun '(result, current, last) '(i, position) =>
             let '(result, last) :=
               if decide (roomName position = roomName current)
               then (result ++ number_to_string
                                 (getDirectionTo G current (Some position)),
                     last)
               else if decide (roomName current = roomName start)
               then (result, i)
               else (result, last) in
             (result, position, last))
          ([], start, length path) (imap (fun i p => (i, p)) path) in
  if visualizePathStyle opts
  then match exit G with
       | None => throw ReferenceError
       | Some _ => ret result
       end
  else ret result.

(** [Cartographer.findPath(start, goal, opts)] *)
Definition findPath (G : Game) (start goal : RoomPosition) (opts : Opts)
  : M PathVal :=
  let r1 := roomName start in
  let r2 := roomName goal in
  let distance := getRoomLinearDistance G r1 r2 in
  letM route := (if decide (distance > 2)
                 then letM route := call_findRoute G r1 r2 opts in
                      ret (Some route)
                 else ret None) in
  letM result := (fun run => let '(result, run) :=
                               callPathFinder G start goal opts route run in
                             (Ok result, run)) in
  letM result := (if incomplete result && bool_decide (distance <= 2)
                  then letM route := call_findRoute G r1 r2 opts in
                       (fun run => let '(result, run) :=
                                     callPathFinder G start goal opts
                                       (Some route) run in
                                   (Ok result, run))
                  else ret result) in
  runM (if incomplete result then tell (EvLog start goal) else ret tt) in
  letM path := (if stealth opts then cut_at_sourceKeeper G (path result)
                else ret (path result)) in
  if decide (serialize opts = Some false) then ret (PArr path)
  else letM s := serializePath G path start opts in ret (PStr s).

End Cartographer.

(** The older [getRange] of Cartographer.js, whose caller reads
    [opts.range] itself. *)
Module CartographerJs.

Definition getRange (G : Game) (goal : RoomPosition) (opts : Opts)
  (st : State) : Z * State :=
  let '(wall, terrains) :=
    Atlas.isWallAt G (x goal) (y goal) (roomName goal) (TERRAIN st) in
  let st := set_TERRAIN terrains st in
  if wall then (1, st)
  else if negb (bool_decide (is_Some (rooms G !! roomName goal)))
  then (0, st)
  else if trackCreeps opts
          && bool_decide (is_Some (head (lookFor_creeps G goal)))
  then (1, st)
  else
    let obstacle :=
      List.find (fun s =>
                   bool_decide (structureType s <> STRUCTURE_ROAD)
                   && bool_decide (structureType s <> STRUCTURE_RAMPART)
                   && bool_decide (structureType s <> STRUCTURE_CONTAINER))
                (lookFor_structures G goal) in
    ((if obstacle is Some _ then 1 else 0), st).


End CartographerJs.

(** ** Navigator *)

(** [creep.memory._nav]; an absent property is [None], and [NaN] for
    [stuck], which the code only increments and compares. *)
Record NavCache := mkNav {
  nav_path : option PathVal;
  target : option (list Z);
  last : option (list Z);
  stuck : number
}.

Definition empty_nav : NavCache := mkNav None None None NaN.

Definition COMPLIMENTS : list Z :=
  [BOTTOM; BOTTOM_LEFT; LEFT; TOP_LEFT; TOP; TOP_RIGHT; RIGHT; BOTTOM_RIGHT].

Module Navigator.

(** Truth value of [cache.path]. *)
Definition truthy (p : option PathVal) : bool :=
  match p with
  | Some (PStr []) => false
  | Some _ => true
  | None => false
  end.

(** [+cache.path[0]] *)
Definition first_move (p : option PathVal) : result number :=
  match p with
  | Some (PStr s) => Ok (JS.plus_first s)
  | Some (PArr _) => Ok NaN
  | None => Throw TypeError
  end.

Definition coord_is (c : option Z) (v : Z) : bool :=
  match c with Some c => bool_decide (c = v) | None => false end.

(** [Navigator.isAtExpected(creep, cache)] *)
Definition isAtExpected (G : Game) (creep : Creep) (cache : NavCache)
  (run : Run)   : result bool * NavCache * Run :=
  match last cache with
  | None => (Throw TypeError, cache, run)
  | Some id =>
      let p1 := c_pos creep in
      let p2 := positionFromId id in
      let isExit :=
        bool_decide (x p1 = 0) || coord_is (x <$> p2) 0
        || bool_decide (y p1 = 49) || coord_is (y <$> p2) 49 in
      if isExit || (coord_is (x <$> p2) (x p1) && coord_is (y <$> p2) (y p1))
      then
        let stuck := JS.incr (stuck cache) in
        let cache := mkNav (nav_path cache) (target cache) (last cache) stuck in
        let run := if JS.gt stuck 1
                  then match stuck with
                       | Num n => emit (EvSay (c_name creep) n) run
                       | NaN => run
                       end
                  else run in
        (Ok false, cache, run)
      else
        let cache :=
          mkNav (nav_path cache) (target cache) (last cache) (Num 0) in
        match first_move (nav_path cache) with
        | Throw e => (Throw e, cache, run)
        | Ok move =>
            (Ok (JS.strict_eq (JS.at_number COMPLIMENTS (JS.minus move 1))
                   (getDirectionTo G p1 p2)),
             cache, run)
        end
  end.

Definition set_trackCreeps (opts : Opts) : Opts :=
  mkOpts true (refreshMatrix opts) (addArea opts) (range opts) (avoid opts)
    (anyRoom opts) (stealth opts) (serialize opts) (visualizePathStyle opts)
    (roomCallback opts) (plainCost opts) (swampCost opts) (flee opts)
    (maxOps opts) (maxRooms opts) (maxCost opts) (heuristicWeight opts).

Definition set_stealth (area : option (list AreaGoal)) (opts : Opts) : Opts :=
  mkOpts (trackCreeps opts) (refreshMatrix opts) area (range opts)
    (avoid opts) true (stealth opts) (serialize opts)
    (visualizePathStyle opts) (roomCallback opts) (plainCost opts)
    (swampCost opts) (flee opts) (maxOps opts) (maxRooms opts)
    (maxCost opts) (heuristicWeight opts).

(** [Navigator.moveObstruction(creep, opts)] *)
Definition moveObstruction (G : Game) (creep : Creep) (cache : NavCache)
  (opts : Opts) (run : Run)   : result bool * Opts * Run :=
  match first_move (nav_path cache) with
  | Throw e => (Throw e, opts, run)
  | Ok direction =>
      let offsetsX := [0; 1; 1; 1; 0; -1; -1; -1] in
      let offsetsY := [-1; -1; 0; 1; 1; 1; 0; -1] in
      let add (o : option Z) (c : Z) : number :=
        match o with Some o => Num (o + c) | None => NaN end in
      let dx := add (JS.at_number offsetsX (JS.minus direction 1))
                  (x (c_pos creep)) in
      let dy := add (JS.at_number offsetsY (JS.minus direction 1))
                  (y (c_pos creep)) in
      if JS.lt dx 0 || JS.gt dx 49 || JS.lt dy 0 || JS.gt dy 49
      then (Ok false, opts, run)
      else
        let other :=
          head (lookForAt_creeps G (roomName (c_pos creep)) dx dy) in
        match other with
        | Some other =>
            let run :=
              if c_my other
                 && negb (negb (bool_decide (fatigue other = 0))
                          || spawning other)
              then emit (EvSwapScheduled (c_name other) (time G))
                     (emit (EvMove (c_name other)
                              (getDirectionTo G (c_pos other)
                                 (Some (c_pos creep)))) run)
              else run in
            (Ok true, opts, run)
        | None => (Ok true, set_trackCreeps opts, run)
        end
  end.

(** The least [range] among the tiles, as [_.min(walkable, 'range')]
    finds it; [None] when no tile has a number for range. *)
Definition least_range (walkable : list (RoomPosition * number)) : option Z :=
  foldl (fun least '(_, range) =>
           match range, least with
           | Num r, Some l => Some (Z.min r l)
           | Num r, None => Some r
           | NaN, _ => least
           end) None walkable.

(** [Navigator.getStealthMap(room)]; [None] is [null]. *)
Definition getStealthMap (G : Game) (room : Room)
  : M (option (list AreaGoal)) :=
  match getRoomType G with
  | None => throw ReferenceError
  | Some type_of =>
      if decide (type_of (r_name room) <> JS.str "sourceKeeper")
      then ret None
      else
        let goals := FIND_SOURCES room ++ FIND_MINERALS room in
        let lairs := FIND_HOSTILE_STRUCTURES room in
        letM tiles :=
          lift (fun st =>
            foldl (fun '(tiles, st) src =>
                     let lair := findClosestByRange G src lairs in
                     let '(area, terrains) :=
                       Atlas.getWalkableArea G src 1 (TERRAIN st) in
                     let st := set_TERRAIN terrains st in
                     let walkable :=
                       (fun '(tx, ty) =>
                          let pos := mkPos tx ty (r_name room) in
                          (pos, getRangeTo G pos lair)) <$> area in
                     let closest := least_range walkable in
                     (tiles ++ (filter (fun t => JS.strict_eq closest t.2 = true)
                                  walkable).*1,
                      st))
                  ([], st) goals) in
        ret (Some [mkAreaGoal tiles 3 225 None])
  end.

(** [Navigator.getNewPath(creep, goal, cache, opts)]: the path, with
    the cache and the options as the call leaves them. *)
Definition getNewPath (G : Game) (creep : Creep) (goal : RoomPosition)
  (cache : NavCache) (opts : Opts) (run : Run)
  : result PathVal * NavCache * Opts * Run :=
  let cache :=
    mkNav (nav_path cache) (Some (positionToId goal)) (last cache) (Num 0) in
  let '(prepared, run) :=
    if stealth opts
    then match rooms G !! roomName (c_pos creep) with
         | None =>
             (* [getStealthMap(undefined)]: the callee is resolved
                before [room.name] is read *)
             (Throw (if getRoomType G is Some _ then TypeError
                     else ReferenceError), run)
         | Some room =>
             match getStealthMap G room run with
             | (Ok area, run) => (Ok (set_stealth area opts), run)
             | (Throw e, run) => (Throw e, run)
             end
         end
    else (Ok opts, run) in
  match prepared with
  | Throw e =>
      (Throw e, cache,
       (if stealth opts
        then mkOpts (trackCreeps opts) (refreshMatrix opts) (addArea opts)
               (range opts) (avoid opts) true (stealth opts) (serialize opts)
               (visualizePathStyle opts) (roomCallback opts) (plainCost opts)
               (swampCost opts) (flee opts) (maxOps opts) (maxRooms opts)
               (maxCost opts) (heuristicWeight opts)
        else opts), run)
  | Ok opts =>
      let '(path, run) := Cartographer.findPath G (c_pos creep) goal opts run in
      (path, cache, opts, run)
  end.

(** [Navigator.getNextMove(creep, goal, opts)].  [random] is the value
    of [_.random(100)], read only where the source evaluates it. *)
Definition getNextMove (G : Game) (creep : Creep) (goal : RoomPosition)
  (opts : Opts) (random : Z) (cache : NavCache) (run : Run)
  : result number * NavCache * Opts * Run :=
  let '(pathError, cache, opts, run) :=
    if negb (truthy (nav_path cache)
             && bool_decide (target cache = Some (positionToId goal)))
    then (Ok true, cache, opts, run)
    else
      match isAtExpected G creep cache run with
      | (Throw e, cache, run) => (Throw e, cache, opts, run)
      | (Ok true, cache, run) =>
          match nav_path cache with
          | Some (PStr s) =>
              (Ok false,
               mkNav (Some (PStr (JS.substring s 1))) (target cache)
                 (last cache) (stuck cache),
               opts, run)
          | _ => (Throw TypeError, cache, opts, run)
          end
      | (Ok false, cache, run) =>
          if JS.gt (stuck cache) 2
             && match stuck cache with
                | Num n => bool_decide (50 > random - n)
                | NaN => false
                end
          then
            if trackCreeps opts then (Ok true, cache, opts, run)
            else
              let '(moved, opts, run) := moveObstruction G creep cache opts run in
              (moved, cache, opts, run)
          else (Ok false, cache, opts, run)
      end in
  match pathError with
  | Throw e => (Throw e, cache, opts, run)
  | Ok pathError =>
      let cache :=
        mkNav (nav_path cache) (target cache)
          (Some (positionToId (c_pos creep))) (stuck cache) in
      let '(replanned, cache, opts, run) :=
        if pathError
        then
          match getNewPath G creep goal cache opts run with
          | (Ok path, cache, opts, run) =>
              (Ok tt,
               mkNav (Some path) (target cache) (last cache) (stuck cache),
               opts, run)
          | (Throw e, cache, opts, run) => (Throw e, cache, opts, run)
          end
        else (Ok tt, cache, opts, run) in
      match replanned with
      | Throw e => (Throw e, cache, opts, run)
      | Ok _ => (first_move (nav_path cache), cache, opts, run)
      end
  end.

End Navigator.

(** ** Vocabulary of the statements *)

(** The references a state holds name stored instances, an overlay is
    kept only for a room that has a base grid, and no overlay is a base
    grid. *)
Record wf (st : State) : Prop := mkWf {
  wf_room : forall id ref,
    COSTS_ROOM st !! id = Some ref -> (ref < length (store st))%nat;
  wf_creep : forall id ref,
    COSTS_CREEP st !! id = Some ref ->
    (ref < length (store st))%nat /\ is_Some (COSTS_ROOM st !! id);
  wf_apart : forall id id' ref,
    COSTS_ROOM st !! id = Some ref -> COSTS_CREEP st !! id' <> Some ref
}.

(** The state of a freshly loaded module at tick [t]. *)
Definition initial (t : Z) : State := mkState ∅ ∅ ∅ ∅ [] t [].

(** The cells of the instance a reference names. *)
Definition cells (st : State) (ref : option nat) : option (list Z) :=
  ref ≫= fun ref => _bits <$> store st !! ref.

(** The state once [getCosts] has put the per-step grid of the room in
    place, that is after its first three statements. *)
Definition per_step (G : Game) (id : jsstring) (opts : Opts) (st : State)
  : State :=
  let st := if decide (lastReset st < time G) then Atlas._reset G st else st in
  let st :=
    if decide (PACKED_COSTS st !! id = None \/ refreshMatrix opts = true)
    then Atlas.refresh G id opts st else st in
  match COSTS_ROOM st !! id with
  | Some _ => st
  | None =>
      match PACKED_COSTS st !! id with
      | Some packed =>
          mkState (PACKED_COSTS st) (TERRAIN st)
            (<[id := length (store st)]> (COSTS_ROOM st)) (COSTS_CREEP st)
            (OFFSETS st) (lastReset st)
            (store st ++ [CostMatrix.unpack packed (OFFSETS st)])
      | None => st
      end
  end.

(** A write to the instance [ref] names: the instance becomes [m]. *)
Definition write (ref : nat) (m : CostMatrix) (st : State) : State :=
  set_store (fun h => <[ref := m]> h) st.

(** The encoding operations, for statements about sequences of them. *)
Inductive Encode :=
  | EncUpdate (m : CostMatrix) (x y cost : Z)
  | EncPack (m : CostMatrix).

Definition encode (offsets : list Z) (op : Encode) : list Z :=
  match op with
  | EncUpdate m x y cost => (CostMatrix.update m x y cost offsets).2
  | EncPack m => (CostMatrix.pack m offsets).2
  end.


(** A grid filled from a new instance by [update] calls alone, the way
    [Atlas.refresh] fills one; each call is given as [(x, y, cost)]. *)
Definition updated (offsets : list Z) (ups : list (Z * Z * Z))
  : CostMatrix * list Z :=
  foldl (fun '(m, offsets) '(px, py, cost) =>
           CostMatrix.update m px py cost offsets)
        (CostMatrix.new, offsets) ups.

(** The calls a computation makes are added after those made before. *)
Definition appends {A} (c : M A) : Prop :=
  forall run, calls run `prefix_of` calls (c run).2.


(** Closes a goal about a call that ends in a replan, from what is known
    of the replan. *)
Ltac close_replan Hreplan :=
  match goal with
  | |- context [Navigator.getNewPath ?G ?creep ?goal ?c ?o ?u] =>
      let Hok := fresh "Hok" in
      let Hthrow := fresh "Hthrow" in
      specialize (Hreplan c o u);
      destruct (Navigator.getNewPath G creep goal c o u) as [[[[?|?] ?] ?] ?];
      cbn in *; destruct Hreplan as [Hok Hthrow];
      (split; [exact Hok|intros ? ?; right; by apply Hthrow])
  end.

(** ** Sample games *)

Module Sample.

Definition W1N1 : jsstring := JS.str "W1N1".
Definition W6N1 : jsstring := JS.str "W6N1".

Definition wall : Structure :=
  mkStructure (JS.str "constructedWall") (mkPos 10 10 W1N1) false false.
Definition road : Structure :=
  mkStructure STRUCTURE_ROAD (mkPos 10 11 W1N1) false false.

Definition room : Room := mkRoom W1N1 [wall; road] [] [] [] [] [].

(** A search that finds nothing and one that finds a one step path. *)
Definition search_nothing (incomplete : bool) (start : RoomPosition) (range : Z)
  (pos : RoomPosition) (o : SearchOpts) (st : State) : SearchResult * State :=
  (mkSearchResult [] incomplete, st).
Definition search_step (start : RoomPosition) (range : Z)
  (pos : RoomPosition) (o : SearchOpts) (st : State) : SearchResult * State :=
  (mkSearchResult [mkPos (x start + 1) (y start) (roomName start)] false, st).

(** A route of six rooms. *)
Definition six_rooms (r1 r2 : jsstring) (opts : Opts) : list (list Z) :=
  [r1; JS.str "W2N1"; JS.str "W3N1"; JS.str "W4N1"; JS.str "W5N1"; r2].

(** The game at tick [t]: room W1N1 seen or not, rooms W1N1 and W6N1
    five apart, a search and, or not, a bound [findRoute]. *)
Definition game (t : Z) (visible : bool)
  (search : RoomPosition -> Z -> RoomPosition -> SearchOpts -> State ->
            SearchResult * State)
  (method : option (list Z -> list Z -> Opts -> list (list Z))) : Game :=
  mkGame t (if visible then {[ W1N1 := room ]} else ∅) 0 []
    (fun _ _ _ => 0)
    (fun r1 r2 => if decide (r1 = r2) then 0 else 5)
    (fun _ => []) (fun _ => []) (fun _ _ _ => [])
    (fun _ _ => Num RIGHT) (fun _ _ => None) (fun _ _ => NaN)
    search method None None.

Definition creep : Creep :=
  mkCreep (JS.str "scout") (mkPos 25 25 W1N1) true 0 false.

Definition near : RoomPosition := mkPos 26 26 W1N1.
Definition far : RoomPosition := mkPos 20 20 W6N1.

(** The cache of the creep after a step on which it did not move, its
    counter at [n], one move to the right queued. *)
Definition stalled (n : Z) : NavCache :=
  mkNav (Some (PStr (JS.str "3"))) (Some (positionToId near))
    (Some (positionToId (c_pos creep))) (Num n).

Definition track : Opts :=
  mkOpts true false None None None false false None false None
    None None false None None None None.
Definition refresh : Opts :=
  mkOpts false true None None None false false None false None
    None None false None None None None.
Definition four_rooms : Opts :=
  mkOpts false false None None None false false None false None
    None None false None (Some 4) None None.

(** A grid with cost [c] at cell 0 and grid with the costs 1..22. *)
Definition one_cell (c : Z) : CostMatrix :=
  mkCostMatrix (c :: replicate 2499 0) [].
Definition full_alphabet : CostMatrix :=
  mkCostMatrix (seqZ 1 22 ++ replicate 2478 0) [].

End Sample.

(** What decoding writes over a stretch of cells: the cost where the
    packed grid had one, the old content elsewhere. *)
Fixpoint overlay (rest old : list Z) : list Z :=
  match rest, old with
  | c :: rest, o :: old => (if decide (c = 0) then o else c) :: overlay rest old
  | _, _ => []
  end.

(** ** LidarOverloaded.js: replacements of the RoomPosition utilities *)

(** An argument of the overloaded methods, by what [typeof] answers: a
    number ([NaN] included), an object (a position, or an object that has
    one as [pos]), [null], and what is neither (a missing argument, a
    string, a boolean).  A second or third argument is a [number]: one
    that is not a number is read as [undefined], which compares and
    subtracts as [NaN] does. *)
Inductive Arg :=
  | ArgNumber (n : number)
  | ArgObject (p : RoomPosition)
  | ArgNull
  | ArgOther.

(** What [getRangeTo] answers: a number, [NaN] included, or [Infinity]. *)
Inductive Range :=
  | Within (n : number)
  | Unbounded.

Module Lidar.

Definition HEADING_OFFSET : Z := 122.

(** [ToInt32], which the bit operators apply to their operands. *)
Definition ToInt32 (n : Z) : Z := (n + 2 ^ 31) mod 2 ^ 32 - 2 ^ 31.

(** [a - b], [a * k], [Math.max(a, b)], [a > b], [a <= b], [Math.sign]
    on numbers that may be [NaN]. *)
Definition sub (a b : number) : number :=
  match a, b with Num a, Num b => Num (a - b) | _, _ => NaN end.
Definition add (a b : number) : number :=
  match a, b with Num a, Num b => Num (a + b) | _, _ => NaN end.
Definition times (a : number) (k : Z) : number :=
  match a with Num a => Num (a * k) | NaN => NaN end.
Definition max (a b : number) : number :=
  match a, b with Num a, Num b => Num (Z.max a b) | _, _ => NaN end.
Definition gt (a b : number) : bool :=
  match a, b with Num a, Num b => bool_decide (a > b) | _, _ => false end.
Definition le (a b : number) : bool :=
  match a, b with Num a, Num b => bool_decide (a <= b) | _, _ => false end.
Definition sign (a : number) : number :=
  match a with Num a => Num (Z.sgn a) | NaN => NaN end.
Definition same (a : Z) (b : number) : bool :=
  match b with Num b => bool_decide (a = b) | NaN => false end.

(** [abs(n)] *)
Definition abs (n : number) : number :=
  match n with
  | Num n =>
      let n32 := ToInt32 n in
      Num (Z.lxor n32 (Z.shiftr n32 31) - Z.shiftr n32 31)
  | NaN => NaN
  end.

(** [getDirection(dx, dy)]; [None] is [undefined]. *)
Definition getDirection (dx dy : number) : option number :=
  let adx := abs dx in
  let ady := abs dy in
  if gt adx (times ady 2)
  then Some (Num (if gt dx (Num 0) then RIGHT else LEFT))
  else if gt ady (times adx 2)
  then Some (Num (if gt dy (Num 0) then BOTTOM else TOP))
  else if gt (Num 0) dx
  then Some (add (Num LEFT) (times (sign dy) (-1)))
  else if gt dx (Num 0)
  then Some (add (Num RIGHT) (sign dy))
  else None.

(** [string.search(/[NS]/)] *)
Fixpoint search_NS_from (s : jsstring) (i : Z) : Z :=
  match s with
  | [] => -1
  | c :: s => if decide (c = 78 \/ c = 83) then i else search_NS_from s (i + 1)
  end.
Definition search_NS (s : jsstring) : Z := search_NS_from s 0.

(** [string.substring(a, b)]: both ends are clamped to the string, and
    swapped when the first is past the second. *)
Definition substring2 (s : jsstring) (a b : Z) : jsstring :=
  let len := Z.of_nat (length s) in
  let a := Z.min (Z.max a 0) len in
  let b := Z.min (Z.max b 0) len in
  let first := Z.min a b in
  let last := Z.max a b in
  take (Z.to_nat (last - first)) (drop (Z.to_nat first) s).

(** [+s] for a string of at most nine decimal digits (the empty string
    is 0).  [None] leaves the other strings, whose value need not be an
    integer, out of the embedding. *)
Definition digits_value (s : jsstring) : Z :=
  foldl (fun n d => 10 * n + (d - 48)) 0 s.
Definition to_number (s : jsstring) : option Z :=
  if bool_decide (Forall (fun d => 48 <= d <= 57) s)
     && bool_decide (length s <= 9)%nat
  then Some (digits_value s) else None.

(** [roomNameToXY(roomName)] *)
Definition roomNameToXY (roomName : jsstring) : option Z :=
  let vertical := search_NS roomName in
  x ← to_number (substring2 roomName 1 vertical);
  let x := x + 61 in
  let x := if decide (roomName !! 0%nat = Some 87) then 60 - (x - 61) else x in
  y ← to_number (JS.substring roomName (Z.to_nat (vertical + 1)));
  let y := y + 61 in
  let y :=
    if decide (0 <= vertical /\ roomName !! Z.to_nat vertical = Some 78)
    then 60 - (y - 61) else y in
  Some (x * HEADING_OFFSET + y).

(** [pos.isEqualTo(arg1, arg2)] *)
Definition isEqualTo (this : RoomPosition) (arg1 : Arg) (arg2 : number) : bool :=
  match arg1 with
  | ArgNumber a => same (x this) a && same (y this) arg2
  | ArgObject p =>
      bool_decide (roomName this = roomName p)
      && bool_decide (x this = x p) && bool_decide (y this = y p)
  | ArgNull | ArgOther => false
  end.

(** [pos.isNearTo(arg1, arg2)] *)
Definition isNearTo (this : RoomPosition) (arg1 : Arg) (arg2 : number) : bool :=
  match arg1 with
  | ArgNumber a =>
      le (abs (sub (Num (x this)) a)) (Num 1)
      && le (abs (sub (Num (y this)) arg2)) (Num 1)
  | ArgObject p =>
      bool_decide (roomName this = roomName p)
      && le (abs (Num (x this - x p))) (Num 1)
      && le (abs (Num (y this - y p))) (Num 1)
  | ArgNull | ArgOther => false
  end.

(** [pos.inRangeTo(arg1, arg2, arg3)]; the test of the type lets [null]
    through to the read of [arg1.pos]. *)
Definition inRangeTo (this : RoomPosition) (arg1 : Arg) (arg2 arg3 : number)
  : result bool :=
  match arg1 with
  | ArgNumber a =>
      Ok (le (abs (sub (Num (x this)) a)) arg3
          && le (abs (sub (Num (y this)) arg2)) arg3)
  | ArgOther => Ok false
  | ArgNull => Throw TypeError
  | ArgObject p =>
      Ok (bool_decide (roomName this = roomName p)
          && le (max (abs (Num (x this - x p))) (abs (Num (y this - y p)))) arg2)
  end.

(** [pos.getRangeTo(arg1, arg2)] *)
Definition getRangeTo (G : Game) (this : RoomPosition) (arg1 : Arg)
  (arg2 : number) : Range :=
  match arg1 with
  | ArgNumber a =>
      Within (max (abs (sub (Num (x this)) a)) (abs (sub (Num (y this)) arg2)))
  | ArgNull | ArgOther => Within NaN
  | ArgObject p =>
      if decide (roomName p = roomName this)
      then Within (max (abs (Num (x this - x p))) (abs (Num (y this - y p))))
      else if decide (is_Some (rooms G !! roomName p)) then Unbounded
      else Within NaN
  end.

(** [pos.getDirectionTo(arg1, arg2)]: [Some None] is [undefined], and
    [None] a pair of room names outside the embedding of [to_number]. *)
Definition getDirectionTo (this : RoomPosition) (arg1 : Arg) (arg2 : number)
  : option (option number) :=
  match arg1 with
  | ArgNumber a =>
      Some (getDirection (sub a (Num (x this))) (sub arg2 (Num (y this))))
  | ArgNull | ArgOther => Some None
  | ArgObject goal =>
      if decide (roomName this = roomName goal)
      then Some (getDirection (Num (x goal - x this)) (Num (y goal - y this)))
      else
        thisRoom ← roomNameToXY (roomName this);
        thatRoom ← roomNameToXY (roomName goal);
        let thatRX := thatRoom `div` HEADING_OFFSET in
        let thisRX := thisRoom `div` HEADING_OFFSET in
        let thatRY := thatRoom - thatRX * HEADING_OFFSET in
        let thisRY := thisRoom - thisRX * HEADING_OFFSET in
        Some (getDirection
                (Num (thatRX * 50 + x goal - thisRX * 50 - x this))
                (Num (thatRY * 50 + y goal - thisRY * 50 - y this)))
  end.

End Lidar.


(** The tables of [Navigator.moveObstruction]: the step a direction
    takes, by [direction - 1]. *)
Definition offsetsX : list Z := [0; 1; 1; 1; 0; -1; -1; -1].
Definition offsetsY : list Z := [-1; -1; 0; 1; 1; 1; 0; -1].

(** A room name: a hemisphere letter and decimal digits, twice. *)
Definition room_name (west : bool) (a : list Z) (north : bool) (b : list Z)
  : jsstring :=
  (if west then 87 else 69) :: a ++ (if north then 78 else 83) :: b.

(** The column and the row of a room on the world map, both counted
    from the north west corner. *)
Definition world (west : bool) (n : Z) : Z := if west then 60 - n else 61 + n.

(** ** Packed: the prototype extensions with the [freeze] option *)

Module Packed.

(** [pack(freeze)].  With [freeze] the string starts with [TRIGGER], the
    length of [OFFSETS] in decimal and the entries of [OFFSETS] as code
    units, and the scan pushes the costs it does not find to a copy of
    [OFFSETS]. *)
Definition pack (freeze : bool) (m : CostMatrix) (OFFSETS : list Z)
  : jsstring * CostMatrix * list Z :=
  let base :=
    if freeze
    then TRIGGER :: JS.str (pretty.pretty (Z.of_nat (length OFFSETS)))
                 ++ JS.fromCharCode OFFSETS
    else [] in
  if decide (0 < Z.of_nat (length (_costMap m)))
  then (base ++ JS.fromCharCode (_costMap m), m, OFFSETS)
  else
    let '(costMap, offsets) :=
      CostMatrix.pack_loop (_bits m) 0 (_costMap m) OFFSETS in
    (base ++ JS.fromCharCode costMap,
     {| _bits := _bits m; _costMap := costMap |},
     if freeze then OFFSETS else offsets).

(** [_deserializeOffset(packed)] *)
Definition _deserializeOffset (packed : jsstring) : list (option Z) :=
  match JS.parseInt_char (packed !! 1%nat) with
  | Num codecLength =>
      (fun i => JS.charCodeAt packed i) <$> seq 2 (Z.to_nat codecLength)
  | NaN => []
  end.

(** [unpack(packed)] *)
Definition unpack (packed : jsstring) (OFFSETS : list Z) : CostMatrix :=
  let '(codec, start) :=
    if decide (packed !! 0%nat = Some TRIGGER)
    then let codec := _deserializeOffset packed in
         (codec, (0 + length codec + 2)%nat)
    else (Some <$> OFFSETS, 0%nat) in
  {| _bits := CostMatrix.unpack_loop codec (drop start packed)
                (_bits CostMatrix.new);
     _costMap := [] |}.

End Packed.

(** The cells a frozen string gives back for a scanned grid: the costs
    that [OFFSETS] held when the grid was packed. *)
Definition frozen_cells (OFFSETS bits : list Z) : list Z :=
  (fun c => if decide (c ∈ OFFSETS) then c else 0) <$> bits.


(** What decoding against the frozen table writes over a stretch of
    cells. *)
Fixpoint frozen_overlay (OFFSETS rest old : list Z) : list Z :=
  match rest, old with
  | c :: rest, o :: old =>
      (if decide (c = 0) then o else if decide (c ∈ OFFSETS) then c else 0)
      :: frozen_overlay OFFSETS rest old
  | _, _ => []
  end.

(** ** Vocabulary for the grids Atlas builds *)

(** The terrain [isWallAt] reads for a room: the one [TERRAIN] holds, or
    else the one the game gives, which [isWallAt] stores. *)
Definition terrain_of (G : Game) (terrains : gmap (list Z) (Z -> Z -> Z))
  (roomName : jsstring) : Z -> Z -> Z :=
  default (Room_Terrain G roomName) (terrains !! roomName).

Definition cached (G : Game) (terrains : gmap (list Z) (Z -> Z -> Z))
  (roomName : jsstring) : gmap (list Z) (Z -> Z -> Z) :=
  match terrains !! roomName with
  | Some _ => terrains
  | None => <[roomName := Room_Terrain G roomName]> terrains
  end.

(** A position inside a room. *)
Definition in_room (p : RoomPosition) : Prop :=
  0 <= x p <= 49 /\ 0 <= y p <= 49.

(** The objects [_addStructures] goes through. *)
Definition charted (G : Game) (room : Room) (obj : Structure) : Prop :=
  obj ∈ FIND_STRUCTURES room
  \/ (constructionSites G <> 0%nat
      /\ obj ∈ FIND_MY_CONSTRUCTION_SITES room
      /\ structureType obj ∈ OBSTACLE_OBJECT_TYPES G).

(** A call that [update] takes inside the alphabet [S]. *)
Definition valid_update (S : list Z) (u : Z * Z * Z) : Prop :=
  let '(px, py, c) := u in
  0 <= px <= 49 /\ 0 <= py <= 49 /\ 0 <= c <= 255 /\ c ∈ S.

(** The calls of the module from outside, and a run of them. *)
Inductive AtlasCall :=
  | CallGetCosts (G : Game) (id : list Z) (opts : Opts)
  | CallRefresh (G : Game) (id : list Z) (opts : Opts).

Definition call_atlas (st : State) (c : AtlasCall) : State :=
  match c with
  | CallGetCosts G id opts => (Atlas.getCosts G id opts st).2
  | CallRefresh G id opts => Atlas.refresh G id opts st
  end.

(** [genericCostCallback(roomName)] of Cartographer.js, the callback in
    use when Atlas.js is not there; [None] is [undefined].  The cost of
    an object is decided as in [_addStructures]. *)
Definition genericCostCallback (G : Game) (roomName : jsstring)
  : option CostMatrix :=
  match rooms G !! roomName with
  | None => None
  | Some room =>
      Some (foldl (fun matrix obj =>
                     let cost := Atlas.structure_cost obj in
                     match CostMatrix.get matrix (x (s_pos obj)) (y (s_pos obj)) with
                     | Some old =>
                         if decide (cost > old)
                         then CostMatrix.set matrix (x (s_pos obj))
                                (y (s_pos obj)) cost
                         else matrix
                     | None => matrix
                     end)
                  CostMatrix.new (FIND_STRUCTURES room))
  end.

(** ** Vocabulary for the moves of a creep *)

(** The game answers, for the direction from [p] to [q], what the
    [getDirectionTo] of LidarOverloaded.js answers. *)
Definition as_lidar (G : Game) (p q : RoomPosition) : Prop :=
  Lidar.getDirectionTo p (ArgObject q) NaN
  = Some (Some (getDirectionTo G p (Some q))).

(** The tile one step from [p] in direction [k]. *)
Definition step_to (p : RoomPosition) (k : Z) : option RoomPosition :=
  ox ← offsetsX !! Z.to_nat (k - 1);
  oy ← offsetsY !! Z.to_nat (k - 1);
  Some (mkPos (x p + ox) (y p + oy) (roomName p)).

(** The tiles a creep goes through when it takes the moves of a
    serialized path one after the other. *)
Fixpoint walk (p : RoomPosition) (moves : list Z) : option (list RoomPosition) :=
  match moves with
  | [] => Some []
  | c :: moves =>
      if decide (49 <= c <= 56)
      then q ← step_to p (c - 48); (q ::.) <$> walk q moves
      else None
  end.

(** A path that stays in the room of [p], each tile next to the one
    before. *)
Fixpoint stepwise (p : RoomPosition) (path : list RoomPosition) : Prop :=
  match path with
  | [] => True
  | q :: path =>
      roomName q = roomName p
      /\ Z.max (Z.abs (x q - x p)) (Z.abs (y q - y p)) = 1
      /\ stepwise q path
  end.

(** The game answers as LidarOverloaded.js along the path. *)
Fixpoint as_lidar_along (G : Game) (p : RoomPosition)
  (path : list RoomPosition) : Prop :=
  match path with
  | [] => True
  | q :: path => as_lidar G p q /\ as_lidar_along G q path
  end.

(** A tile [getStealthMap] keeps for the source or mineral at [src]. *)
Definition kept_for (G : Game) (room : Room)
  (terrains : gmap (list Z) (Z -> Z -> Z))
  (src t : RoomPosition) : Prop :=
  let lair := findClosestByRange G src (FIND_HOSTILE_STRUCTURES room) in
  roomName t = r_name room /\ in_room t
  /\ Z.abs (x t - x src) <= 1 /\ Z.abs (y t - y src) <= 1
  /\ terrain_of G terrains (roomName src) (x t) (y t) <> TERRAIN_MASK_WALL
  /\ exists r, getRangeTo G t lair = Num r
       /\ forall tx ty r',
            Z.abs (tx - x src) <= 1 -> Z.abs (ty - y src) <= 1 ->
            0 <= tx <= 49 -> 0 <= ty <= 49 ->
            terrain_of G terrains (roomName src) tx ty <> TERRAIN_MASK_WALL ->
            getRangeTo G (mkPos tx ty (r_name room)) lair = Num r' ->
            r <= r'.

(** ** Properties *)

Lemma positionFromId_inverse (pos : RoomPosition) :
  0 <= x pos <= 49 -> 0 <= y pos <= 49 ->
  positionFromId (positionToId pos) = Some pos.
Proof.
  intros Hx Hy. destruct pos as [px py rn]; simpl in *.
  unfold positionFromId, positionToId, JS.fromCharCode, JS.charCodeAt,
    JS.substring, JS.ToUint16; simpl.
  rewrite !Z.mod_small by lia.
  f_equal. f_equal; lia.
Qed.

(** C10. Decoding the identifier of a position inside a room gives the
    position back: same x, same y, same room name. *)
Theorem positionFromId_positionToId (pos : RoomPosition) :
  0 <= x pos <= 49 -> 0 <= y pos <= 49 ->
  positionFromId (positionToId pos) = Some pos.
Proof. apply positionFromId_inverse. Qed.

(** *** The symbol table *)

Section SymbolTable.

Implicit Types (OFFSETS ext : list Z) (c cost : Z).

Lemma indexOf_from_absent (l : list Z) c i :
  c ∉ l -> JS.indexOf_from l c i = -1.
Proof.
  revert i. induction l as [|a l IH]; intros i Hin; simpl; [done|].
  apply not_elem_of_cons in Hin as [Hne Hin].
  destruct (decide (a = c)); [congruence|]. by apply IH.
Qed.

Lemma indexOf_from_present (l : list Z) c i :
  c ∈ l ->
  i <= JS.indexOf_from l c i < i + Z.of_nat (length l)
  /\ l !! Z.to_nat (JS.indexOf_from l c i - i) = Some c.
Proof.
  revert i. induction l as [|a l IH]; intros i Hin; simpl.
  - by apply elem_of_nil in Hin.
  - destruct (decide (a = c)) as [->|Hne].
    + split; [lia|]. by rewrite Z.sub_diag.
    + apply elem_of_cons in Hin as [?|Hin]; [congruence|].
      destruct (IH (i + 1) Hin) as [Hr Hl]. split; [lia|].
      replace (Z.to_nat (JS.indexOf_from l c (i + 1) - i))
        with (S (Z.to_nat (JS.indexOf_from l c (i + 1) - (i + 1)))) by lia.
      exact Hl.
Qed.

(** What the look-up-or-push block answers: a position that holds the
    cost in the table it leaves, which extends the one it found. *)
Lemma offset_of_spec OFFSETS cost offset OFFSETS' :
  CostMatrix.offset_of OFFSETS cost = (offset, OFFSETS') ->
  0 <= offset < Z.of_nat (length OFFSETS')
  /\ OFFSETS' !! Z.to_nat offset = Some cost
  /\ ((cost ∈ OFFSETS /\ OFFSETS' = OFFSETS)
      \/ ((cost ∉ OFFSETS) /\ OFFSETS' = OFFSETS ++ [cost])).
Proof.
  unfold CostMatrix.offset_of, JS.indexOf. intros H.
  destruct (decide (cost ∈ OFFSETS)) as [Hin|Hin].
  - destruct (indexOf_from_present OFFSETS cost 0 Hin) as [Hr Hl].
    destruct (decide (JS.indexOf_from OFFSETS cost 0 = -1)); [lia|].
    injection H as <- <-. rewrite Z.sub_0_r in Hl.
    split; [lia|]. split; [done|]. by left.
  - rewrite (indexOf_from_absent OFFSETS cost 0 Hin) in H.
    rewrite decide_True in H by done. injection H as <- <-.
    rewrite length_app; simpl. split; [lia|]. split; [|by right].
    replace (Z.to_nat (Z.of_nat (length OFFSETS + 1) - 1))
      with (length OFFSETS + 0)%nat by lia.
    by rewrite lookup_app_r, Nat.add_comm, Nat.add_sub by lia.
Qed.

Lemma offset_of_prefix OFFSETS cost offset OFFSETS' :
  CostMatrix.offset_of OFFSETS cost = (offset, OFFSETS') ->
  OFFSETS `prefix_of` OFFSETS'.
Proof.
  intros H. apply offset_of_spec in H as (_ & _ & [[_ ->]|[_ ->]]).
  - done.
  - by apply prefix_app_r.
Qed.

(** The table stays duplicate free and inside any alphabet that holds
    the cost. *)
Lemma offset_of_alphabet (S : list Z) OFFSETS cost offset OFFSETS' :
  CostMatrix.offset_of OFFSETS cost = (offset, OFFSETS') ->
  NoDup OFFSETS -> OFFSETS ⊆ S -> cost ∈ S ->
  NoDup OFFSETS' /\ OFFSETS' ⊆ S.
Proof.
  intros H Hnd Hsub Hc.
  apply offset_of_spec in H as (_ & _ & [[_ ->]|[Hnin ->]]); [done|].
  split.
  - apply NoDup_app. split; [done|]. split.
    + intros z Hz Hz'. apply list_elem_of_singleton in Hz'. by subst.
    + apply NoDup_singleton.
  - intros z Hz. apply elem_of_app in Hz as [Hz|Hz]; [by apply Hsub|].
    apply list_elem_of_singleton in Hz. by subst.
Qed.

Lemma alphabet_bound (S : list Z) OFFSETS :
  NoDup OFFSETS -> OFFSETS ⊆ S -> (length OFFSETS <= length S)%nat.
Proof.
  intros Hnd Hsub. apply submseteq_length, NoDup_submseteq; [done|].
  intros z Hz. by apply Hsub.
Qed.

End SymbolTable.

(** *** Packing and unpacking *)

Section Codec.

Implicit Types (bits rest init costMap OFFSETS codec : list Z) (i : nat).

Lemma overlay_zeros rest : overlay rest (replicate (length rest) 0) = rest.
Proof.
  induction rest as [|c rest IH]; simpl; [done|].
  rewrite IH. by destruct (decide (c = 0)) as [->|].
Qed.

Lemma unpack_loop_cons (codec : list (option Z)) (v : Z) (new init : list Z) :
  CostMatrix.unpack_loop codec (JS.fromCharCode (v :: new)) init
  = CostMatrix.unpack_loop codec (JS.fromCharCode new)
      (JS.typed_set init (Z.quot (JS.ToUint16 v) SPACER)
         (JS.element_or_0 codec (Z.rem (JS.ToUint16 v) SPACER))).
Proof. reflexivity. Qed.

Lemma pack_loop_alphabet (S : list Z) rest (z : Z) costMap OFFSETS costMap' OFFSETS' :
  CostMatrix.pack_loop rest z costMap OFFSETS = (costMap', OFFSETS') ->
  NoDup OFFSETS -> OFFSETS ⊆ S ->
  (forall c, c ∈ rest -> c <> 0 -> c ∈ S) ->
  NoDup OFFSETS' /\ OFFSETS' ⊆ S.
Proof.
  revert z costMap OFFSETS.
  induction rest as [|c rest IH]; intros z costMap OFFSETS H Hnd Hsub Hin;
    simpl in H.
  - by injection H as _ <-.
  - destruct (decide (c = 0)).
    + eapply IH; eauto. intros c' Hc'. apply Hin. by right.
    + destruct (CostMatrix.offset_of OFFSETS c) as [offset O1] eqn:Ho.
      destruct (offset_of_alphabet S _ _ _ _ Ho Hnd Hsub) as [Hnd1 Hsub1].
      { apply Hin; [by left|done]. }
      eapply IH; eauto. intros c' Hc'. apply Hin. by right.
Qed.

(** The loop appends to the table and to the cost map, and what it
    appends decodes, against any table of at most 22 symbols that
    extends the one it leaves, to the cells it has read. *)
Lemma pack_loop_decode rest i costMap OFFSETS costMap' OFFSETS' :
  CostMatrix.pack_loop rest (Z.of_nat i) costMap OFFSETS = (costMap', OFFSETS') ->
  OFFSETS `prefix_of` OFFSETS'
  /\ exists new, costMap' = costMap ++ new
     /\ forall codec, OFFSETS' `prefix_of` codec -> (length codec <= 22)%nat ->
        (i + length rest <= 2500)%nat ->
        Forall (fun v => 0 <= v < 55000) new
        /\ forall init, (i + length rest <= length init)%nat ->
           Forall (fun c => 0 <= c <= 255) rest ->
           CostMatrix.unpack_loop (Some <$> codec) (JS.fromCharCode new) init
           = take i init ++ overlay rest (drop i init) ++ drop (i + length rest) init.
Proof.
  revert i costMap OFFSETS.
  induction rest as [|c rest IH]; intros i costMap OFFSETS H; simpl in H.
  - injection H as <- <-. split; [done|]. exists []. split; [by rewrite app_nil_r|].
    intros codec _ _ _. split; [constructor|]. intros init _ _. simpl.
    destruct (drop i init); by rewrite Nat.add_0_r, take_drop.
  - destruct (decide (c = 0)) as [->|Hc].
    + replace (Z.of_nat i + 1) with (Z.of_nat (S i)) in H by lia.
      destruct (IH _ _ _ H) as (Hpre & new & -> & Hdec).
      split; [done|]. exists new. split; [done|].
      intros codec Hcodec Hlen Hi. simpl in Hi.
      destruct (Hdec codec Hcodec Hlen) as [Hfa Hrt]; [lia|].
      split; [done|]. intros init Hinit Hbytes. simpl in Hinit.
      rewrite Hrt; [|lia|by inversion Hbytes].
      destruct (lookup_lt_is_Some_2 init i) as [o Ho]; [lia|].
      rewrite (take_S_r _ _ _ Ho), (drop_S _ _ _ Ho). simpl.
      rewrite <- app_assoc. simpl. by rewrite Nat.add_succ_r.
    + destruct (CostMatrix.offset_of OFFSETS c) as [offset O1] eqn:Ho.
      replace (Z.of_nat i + 1) with (Z.of_nat (S i)) in H by lia.
      destruct (IH _ _ _ H) as (Hpre & new & -> & Hdec).
      pose proof (offset_of_prefix _ _ _ _ Ho) as Hpre1.
      split; [by etrans|].
      exists ((Z.of_nat i * SPACER + offset) :: new).
      split; [by rewrite <- app_assoc|].
      intros codec Hcodec Hlen Hi. simpl in Hi.
      destruct (Hdec codec Hcodec Hlen) as [Hfa Hrt]; [lia|].
      apply offset_of_spec in Ho as (Hoff & Hlook & _).
      assert (codec !! Z.to_nat offset = Some c) as Hcl.
      { eapply prefix_lookup_Some; [|exact Hcodec].
        eapply prefix_lookup_Some; [|exact Hpre]. done. }
      assert (0 <= offset < 22) as Hoff22.
      { apply lookup_lt_Some in Hcl. lia. }
      unfold SPACER in *.
      split; [constructor; [lia|done]|].
      intros init Hinit Hbytes. simpl in Hinit.
      apply Forall_cons in Hbytes as [Hcb Hbytes].
      rewrite unpack_loop_cons. unfold JS.ToUint16, SPACER.
      rewrite (Z.mod_small (_ + _)) by lia.
      rewrite Z.quot_div_nonneg, Z.rem_mod_nonneg by lia.
      replace ((Z.of_nat i * 22 + offset) `div` 22) with (Z.of_nat i)
        by (apply Z.div_unique with offset; lia).
      replace ((Z.of_nat i * 22 + offset) `mod` 22) with offset
        by (apply Z.mod_unique with (Z.of_nat i); lia).
      unfold JS.element_or_0, JS.typed_set, JS.ToUint8.
      rewrite !decide_True by lia.
      rewrite list_lookup_fmap, Hcl. simpl.
      rewrite Z.mod_small by lia. rewrite Nat2Z.id.
      rewrite Hrt; [|rewrite length_insert; lia|done].
      destruct (lookup_lt_is_Some_2 init i) as [o Hoi]; [lia|].
      rewrite (drop_S _ _ _ Hoi). simpl. rewrite decide_False by done.
      rewrite (take_S_r (<[i:=c]> init) i c)
        by (apply list_lookup_insert_eq; lia).
      rewrite take_insert_ge by lia. rewrite !drop_insert_lt by lia.
      rewrite <- app_assoc. simpl. by rewrite Nat.add_succ_r.
Qed.

End Codec.

(** *** The round trip and the bound on the table *)

Lemma pack_scans (bits offsets : list Z) :
  CostMatrix.pack (mkCostMatrix bits []) offsets
  = let '(costMap, offsets') := CostMatrix.pack_loop bits 0 [] offsets in
    (JS.fromCharCode costMap, mkCostMatrix bits costMap, offsets').
Proof. reflexivity. Qed.

Lemma unpack_plain (packed offsets : list Z) :
  Forall (fun v => 0 <= v < 55000) packed ->
  CostMatrix.unpack packed offsets
  = mkCostMatrix
      (CostMatrix.unpack_loop (Some <$> offsets) packed (replicate 2500 0)) [].
Proof.
  intros Hp. unfold CostMatrix.unpack, CostMatrix.unpack_header.
  destruct (decide (packed !! 0%nat = Some TRIGGER)) as [Hh|_]; [|done].
  destruct packed as [|v packed]; [done|]. simpl in Hh.
  apply Forall_cons in Hp as [Hv _]. unfold TRIGGER in Hh.
  injection Hh as ->. lia.
Qed.

Lemma fromCharCode_small (codes : list Z) :
  Forall (fun v => 0 <= v < 55000) codes -> JS.fromCharCode codes = codes.
Proof.
  induction 1 as [|v codes Hv _ IH]; [done|].
  unfold JS.fromCharCode in *. rewrite fmap_cons, IH. f_equal.
  unfold JS.ToUint16. apply Z.mod_small. lia.
Qed.


Lemma encode_prefix (offsets : list Z) (op : Encode) :
  offsets `prefix_of` encode offsets op.
Proof.
  destruct op as [m px py c|m]; simpl.
  - unfold CostMatrix.update.
    destruct (CostMatrix.offset_of offsets c) as [offset o'] eqn:Ho. simpl.
    by eapply offset_of_prefix.
  - unfold CostMatrix.pack.
    destruct (decide (0 < Z.of_nat (length (_costMap m)))); [done|].
    destruct (CostMatrix.pack_loop (_bits m) 0 (_costMap m) offsets)
      as [cm' o'] eqn:Hp. simpl.
    by destruct (pack_loop_decode _ 0 _ _ _ _ Hp) as [Hpre _].
Qed.

(** Scanning: a grid whose [costMap] is empty comes back cell for cell. *)
Lemma pack_unpack_scanned (S offsets bits : list Z) :
  length bits = 2500%nat ->
  Forall (fun c => 0 <= c <= 255) bits ->
  NoDup S -> (length S <= 22)%nat ->
  NoDup offsets -> offsets ⊆ S ->
  (forall c, c ∈ bits -> c <> 0 -> c ∈ S) ->
  forall packed m offsets',
    CostMatrix.pack (mkCostMatrix bits []) offsets = (packed, m, offsets') ->
    _bits (CostMatrix.unpack packed offsets') = bits.
Proof.
  intros Hlen Hbytes HS HS22 Hnd Hsub Hcosts packed m offsets' Hpack.
  rewrite pack_scans in Hpack.
  destruct (CostMatrix.pack_loop bits 0 [] offsets) as [costMap o'] eqn:Hloop.
  injection Hpack as <- <- <-.
  destruct (pack_loop_alphabet S _ _ _ _ _ _ Hloop Hnd Hsub Hcosts)
    as [Hnd' Hsub'].
  pose proof (alphabet_bound S o' Hnd' Hsub') as Hbound.
  destruct (pack_loop_decode bits 0 [] offsets costMap o' Hloop)
    as (_ & new & -> & Hdec).
  destruct (Hdec o') as [Hsmall Hrt]; [done|lia|lia|].
  rewrite app_nil_l, fromCharCode_small by done.
  rewrite unpack_plain by done. cbn [_bits].
  rewrite <- (fromCharCode_small new) by done.
  rewrite Hrt; [|rewrite length_replicate; lia|done].
  rewrite take_0, drop_0, app_nil_l.
  rewrite drop_ge by (rewrite length_replicate; lia).
  rewrite app_nil_r, <- Hlen. apply overlay_zeros.
Qed.

(** The cost map that [update] calls leave decodes to the cells they
    wrote, against any table that extends the one they leave. *)
Lemma updated_decode (S offsets : list Z) (ups : list (Z * Z * Z)) :
  NoDup S -> (length S <= 22)%nat -> NoDup offsets -> offsets ⊆ S ->
  Forall (fun '(px, py, c) =>
            0 <= px <= 49 /\ 0 <= py <= 49 /\ 0 <= c <= 255 /\ c ∈ S) ups ->
  NoDup (updated offsets ups).2 /\ (updated offsets ups).2 ⊆ S
  /\ length (_bits (updated offsets ups).1) = 2500%nat
  /\ Forall (fun v => 0 <= v < 55000) (_costMap (updated offsets ups).1)
  /\ (ups <> [] -> _costMap (updated offsets ups).1 <> [])
  /\ forall codec, (updated offsets ups).2 `prefix_of` codec ->
       CostMatrix.unpack_loop (Some <$> codec)
         (_costMap (updated offsets ups).1) (replicate 2500 0)
       = _bits (updated offsets ups).1.
Proof.
  intros HS HS22 Hnd Hsub. induction ups as [|[[px py] c] ups IH] using rev_ind;
    intros Hups.
  - by split_and!.
  - apply Forall_app in Hups as [Hups Hu]. rewrite Forall_singleton in Hu.
    destruct Hu as (Hpx & Hpy & Hc & HcS).
    destruct (IH Hups) as (Hnd1 & Hsub1 & Hlen1 & Hsmall1 & _ & Hdec1).
    unfold updated in *. rewrite foldl_app. cbn [foldl].
    destruct (foldl _ (CostMatrix.new, offsets) ups) as [m table].
    cbn [fst snd] in *. unfold CostMatrix.update.
    destruct (CostMatrix.offset_of table c) as [offset table'] eqn:Ho.
    cbn [fst snd _bits _costMap].
    destruct (offset_of_alphabet S _ _ _ _ Ho Hnd1 Hsub1 HcS) as [Hnd2 Hsub2].
    pose proof (alphabet_bound S table' Hnd2 Hsub2) as Hbound.
    pose proof (offset_of_prefix _ _ _ _ Ho) as Hpre.
    apply offset_of_spec in Ho as (Hoff & Hlook & _).
    unfold SPACER.
    split_and!; try done.
    + unfold JS.typed_set. destruct (decide _); [|done].
      by rewrite length_insert.
    + apply Forall_app. split; [done|]. apply Forall_singleton. lia.
    + intros _. by destruct (_costMap m).
    + intros codec Hcodec. unfold CostMatrix.unpack_loop.
      rewrite foldl_app. cbn [foldl].
      fold (CostMatrix.unpack_loop (Some <$> codec) (_costMap m)
              (replicate 2500 0)).
      rewrite Hdec1 by (by etrans). unfold SPACER.
      rewrite Z.quot_div_nonneg, Z.rem_mod_nonneg by lia.
      replace (((px * 50 + py) * 22 + offset) `div` 22) with (px * 50 + py)
        by (apply Z.div_unique with offset; lia).
      replace (((px * 50 + py) * 22 + offset) `mod` 22) with offset
        by (apply Z.mod_unique with (px * 50 + py); lia).
      f_equal. unfold JS.element_or_0. rewrite decide_True by lia.
      rewrite list_lookup_fmap.
      rewrite (prefix_lookup_Some _ _ _ _ Hlook Hcodec). cbn. lia.
Qed.

(** C1, as amended.  With the costs in circulation - those of the table
    and those of the grid - all in one alphabet of at most 22 values and
    the table duplicate free, a grid of 2500 byte costs comes back cell
    for cell from [unpack], run against the table [pack] leaves, in both
    ways the module fills a grid: when its [costMap] is empty, so that
    [pack] scans the cells, and when the grid was filled from a new
    instance by [update] calls alone. *)
Theorem pack_unpack_within_alphabet (S offsets bits : list Z)
  (ups : list (Z * Z * Z)) :
  NoDup S -> (length S <= 22)%nat ->
  NoDup offsets -> offsets ⊆ S ->
  (length bits = 2500%nat ->
   Forall (fun c => 0 <= c <= 255) bits ->
   (forall c, c ∈ bits -> c <> 0 -> c ∈ S) ->
   forall packed m offsets',
     CostMatrix.pack (mkCostMatrix bits []) offsets = (packed, m, offsets') ->
     _bits (CostMatrix.unpack packed offsets') = bits)
  /\ (Forall (fun '(px, py, c) =>
                0 <= px <= 49 /\ 0 <= py <= 49 /\ 0 <= c <= 255 /\ c ∈ S) ups ->
      let '(grid, table) := updated offsets ups in
      forall packed m offsets',
        CostMatrix.pack grid table = (packed, m, offsets') ->
        _bits (CostMatrix.unpack packed offsets') = _bits grid).
Proof.
  intros HS HS22 Hnd Hsub. split.
  - intros Hlen Hbytes Hcosts packed m offsets' Hpack.
    by eapply (pack_unpack_scanned S offsets bits).
  - intros Hups.
    destruct (updated_decode S offsets ups HS HS22 Hnd Hsub Hups)
      as (Hnd' & Hsub' & Hlen & Hsmall & Hfilled & Hdec).
    destruct ups as [|u ups].
    + cbn. intros packed m offsets' Hpack.
      apply (pack_unpack_scanned S offsets (replicate 2500 0))
        with (m := m) (packed := packed); try done.
      * apply Forall_replicate. lia.
      * intros c [-> _]%elem_of_replicate. done.
    + destruct (updated offsets (u :: ups)) as [grid table].
      cbn [fst snd] in *. intros packed m offsets'.
      unfold CostMatrix.pack. rewrite decide_True; last first.
      { destruct (_costMap grid); [by destruct Hfilled|]. cbn. lia. }
      intros [= <- <- <-]. rewrite fromCharCode_small by done.
      rewrite unpack_plain by done. cbn [_bits]. by apply Hdec.
Qed.

(** C1 under its own hypotheses fails: after a grid with the costs 1..22
    has been packed, a grid with the single cost 23 comes back changed.
    So does, on an empty table, a grid whose cell was written by [update]
    and then by [set]: [pack] returns the [costMap] of the [update]. *)
Lemma pack_unpack_shared_table_counterexample :
  let offsets := (CostMatrix.pack Sample.full_alphabet []).2 in
  let grid := Sample.one_cell 23 in
  let '(updated, table) := CostMatrix.update CostMatrix.new 0 0 5 [] in
  let rewritten := CostMatrix.set updated 0 0 9 in
  length (_bits grid) = 2500%nat
  /\ Forall (fun c => 0 <= c <= 255) (_bits grid)
  /\ (length (remove_dups (filter (fun c : Z => c <> 0%Z) (_bits grid))) <= 22)%nat
  /\ (let '(packed, _, offsets') := CostMatrix.pack grid offsets in
      _bits (CostMatrix.unpack packed offsets') <> _bits grid)
  /\ (let '(packed, _, table') := CostMatrix.pack rewritten table in
      CostMatrix.get rewritten 0 0 = Some 9
      /\ CostMatrix.get (CostMatrix.unpack packed table') 0 0 = Some 5).
Proof.
  split; [reflexivity|]. split.
  { apply (bool_decide_unpack _). vm_compute. exact I. }
  split; [vm_compute; lia|].
  split; [vm_compute; intros H; discriminate H|].
  vm_compute. done.
Qed.

Lemma pack_unpack_within_alphabet_witness :
  _bits (CostMatrix.unpack [0] [255]) = _bits (Sample.one_cell 255)
  /\ (let '(grid, table) := updated [] [(10, 10, 255); (10, 11, 1)] in
      let '(packed, _, table') := CostMatrix.pack grid table in
      _bits (CostMatrix.unpack packed table') = _bits grid).
Proof.
  destruct (pack_unpack_within_alphabet [255; 1] []
              (_bits (Sample.one_cell 255)) [(10, 10, 255); (10, 11, 1)])
    as [Hscan Hupdated].
  - apply (bool_decide_unpack _). vm_compute. exact I.
  - simpl. lia.
  - constructor.
  - apply (bool_decide_unpack _). vm_compute. exact I.
  - split.
    + apply Hscan with (m := mkCostMatrix (_bits (Sample.one_cell 255)) [0]).
      * reflexivity.
      * apply (bool_decide_unpack _). vm_compute. exact I.
      * intros c Hc Hne. unfold Sample.one_cell in Hc. cbn [_bits] in Hc.
        apply elem_of_cons in Hc as [->|Hc].
        -- by left.
        -- apply elem_of_replicate in Hc as [-> _]. done.
      * vm_compute. reflexivity.
    + assert (Forall (fun '(px, py, c) =>
                        0 <= px <= 49 /\ 0 <= py <= 49 /\ 0 <= c <= 255
                        /\ c ∈ [255; 1])
                [(10, 10, 255); (10, 11, 1)]) as Hups.
      { repeat constructor; lia. }
      specialize (Hupdated Hups).
      destruct (updated [] [(10, 10, 255); (10, 11, 1)]) as [grid table].
      destruct (CostMatrix.pack grid table) as [[packed m] table'] eqn:Hpack.
      by apply (Hupdated packed m table').
Defined.




(** C10 at a position of the sample room. *)
Lemma positionFromId_positionToId_witness :
  positionFromId (positionToId (mkPos 25 49 Sample.W1N1))
  = Some (mkPos 25 49 Sample.W1N1).
Proof.
  apply (positionFromId_positionToId (mkPos 25 49 Sample.W1N1)); simpl; lia.
Defined.

(** *** The goal tolerance *)



(** *** The route and the search *)

Section Calls.

Lemma appends_ret {A} (a : A) : appends (ret a).
Proof. by intros run. Qed.

Lemma appends_throw {A} (e : error) : appends (@throw A e).
Proof. by intros run. Qed.

Lemma appends_tell (e : Event) : appends (tell e).
Proof. intros run. simpl. by apply prefix_app_r. Qed.

Lemma appends_bind {A B} (c : M A) (k : A -> M B) :
  appends c -> (forall a, appends (k a)) -> appends (bind c k).
Proof.
  intros Hc Hk run. unfold bind. specialize (Hc run).
  destruct (c run) as [[a|e] run1]; simpl in *; [|done].
  etrans; [exact Hc|apply Hk].
Qed.

Lemma callPathFinder_calls (G : Game) (start goal : RoomPosition)
  (opts : Opts) (route : option (list (list Z))) (run : Run) :
  calls (Cartographer.callPathFinder G start goal opts route run).2
  = calls run
    ++ [EvSearch start (Cartographer.getRange G goal opts (mods run)).1 goal
          route
          (Cartographer.or_default (maxRooms opts)
             (match route with
              | Some route => Z.of_nat (length route)
              | None => 16
              end))].
Proof.
  unfold Cartographer.callPathFinder.
  destruct (Cartographer.getRange G goal opts (mods run)) as [r st1].
  by destruct (PathFinder_search _ _ _ _ _ _) as [result st2].
Qed.

Lemma appends_search (G : Game) (start goal : RoomPosition) (opts : Opts)
  (route : option (list (list Z))) :
  appends (fun run =>
             let '(result, run) :=
               Cartographer.callPathFinder G start goal opts route run in
             (Ok result, run)).
Proof.
  intros run. pose proof (callPathFinder_calls G start goal opts route run) as H.
  destruct (Cartographer.callPathFinder _ _ _ _ _ _) as [result run1].
  simpl in *. rewrite H. by apply prefix_app_r.
Qed.

Lemma appends_findRoute (G : Game) (r1 r2 : list Z) (opts : Opts) :
  appends (Cartographer.call_findRoute G r1 r2 opts).
Proof.
  unfold Cartographer.call_findRoute. destruct (findRoute G).
  - apply appends_bind; [apply appends_tell|intros; apply appends_ret].
  - apply appends_throw.
Qed.

Lemma call_findRoute_bound (G : Game) (r1 r2 : list Z) (opts : Opts)
  (method : list Z -> list Z -> Opts -> list (list Z)) (run : Run) :
  findRoute G = Some method ->
  Cartographer.call_findRoute G r1 r2 opts run
  = (Ok (method r1 r2 opts), emit (EvFindRoute r1 r2) run).
Proof. intros H. unfold Cartographer.call_findRoute. by rewrite H. Qed.

Lemma appends_cut (G : Game) (path : list RoomPosition) :
  appends (Cartographer.cut_at_sourceKeeper G path).
Proof.
  unfold Cartographer.cut_at_sourceKeeper.
  destruct path, (getRoomType G); auto using @appends_ret, @appends_throw.
Qed.

Lemma appends_serializePath (G : Game) (path : list RoomPosition)
  (start : RoomPosition) (opts : Opts) :
  appends (Cartographer.serializePath G path start opts).
Proof.
  unfold Cartographer.serializePath.
  destruct (foldl _ _ _) as [[result current] last_].
  destruct (visualizePathStyle opts), (exit G);
    auto using @appends_ret, @appends_throw.
Qed.

(** What [findPath] does once the first search has answered. *)
Lemma appends_after_search (G : Game) (start goal : RoomPosition)
  (opts : Opts) (distance : Z) (result : SearchResult) :
  appends
    (letM result :=
       (if incomplete result && bool_decide (distance <= 2)
        then letM route :=
               Cartographer.call_findRoute G (roomName start) (roomName goal)
                 opts in
             (fun run =>
                let '(result, run) :=
                  Cartographer.callPathFinder G start goal opts (Some route)
                    run in
                (Ok result, run))
        else ret result) in
     runM (if incomplete result then tell (EvLog start goal) else ret tt) in
     letM path :=
       (if stealth opts
        then Cartographer.cut_at_sourceKeeper G (path result)
        else ret (path result)) in
     if decide (serialize opts = Some false) then ret (PArr path)
     else letM s := Cartographer.serializePath G path start opts in
          ret (PStr s)).
Proof.
  apply appends_bind.
  { destruct (_ && _); [|apply appends_ret].
    apply appends_bind; [apply appends_findRoute|].
    intros route. apply appends_search. }
  intros result'. apply appends_bind.
  { destruct (incomplete result'); [apply appends_tell|apply appends_ret]. }
  intros _. apply appends_bind.
  { destruct (stealth opts); [apply appends_cut|apply appends_ret]. }
  intros path'. destruct (decide _); [apply appends_ret|].
  apply appends_bind; [apply appends_serializePath|].
  intros; apply appends_ret.
Qed.

End Calls.

(** C7, as amended.  More than two rooms apart, and with [findRoute]
    bound on the class, [findPath] asks for the route and then calls the
    search with that route, and with [opts.maxRooms] for the limit on the
    rooms when that option is set and not zero, the length of the route
    otherwise.  Two rooms apart or less, the first search is called with
    no route asked; its limit is [opts.maxRooms] or 16. *)
Theorem findPath_route_then_search (G : Game) (start goal : RoomPosition)
  (opts : Opts) (run : Run) :
  let r1 := roomName start in
  let r2 := roomName goal in
  let distance := getRoomLinearDistance G r1 r2 in
  let range := (Cartographer.getRange G goal opts (mods run)).1 in
  let after := calls (Cartographer.findPath G start goal opts run).2 in
  (distance > 2 ->
   forall method, findRoute G = Some method ->
   let route := method r1 r2 opts in
   let limit :=
     match maxRooms opts with
     | Some v => if decide (v = 0) then Z.of_nat (length route) else v
     | None => Z.of_nat (length route)
     end in
   exists rest,
     after = calls run ++ EvFindRoute r1 r2
                       :: EvSearch start range goal (Some route) limit :: rest)
  /\ (distance <= 2 ->
      let limit :=
        match maxRooms opts with
        | Some v => if decide (v = 0) then 16 else v
        | None => 16
        end in
      exists rest,
        after = calls run ++ EvSearch start range goal None limit :: rest).
Proof.
  intros r1 r2 distance range after. subst after range distance r1 r2.
  split.
  - intros Hfar method Hmethod route limit.
    unfold Cartographer.findPath. rewrite decide_True by done.
    unfold bind at 1 2.
    rewrite (call_findRoute_bound G _ _ opts method run Hmethod).
    cbn [ret]. fold route.
    set (run1 := emit (EvFindRoute (roomName start) (roomName goal)) run).
    pose proof (callPathFinder_calls G start goal opts (Some route) run1) as Hs.
    unfold bind at 1.
    destruct (Cartographer.callPathFinder G start goal opts (Some route) run1)
      as [result run2].
    pose proof (appends_after_search G start goal opts
                  (getRoomLinearDistance G (roomName start) (roomName goal))
                  result run2) as [rest Hrest].
    exists rest. rewrite Hrest. cbn [snd] in Hs. rewrite Hs.
    subst run1. cbn [calls emit mods]. by rewrite <- !app_assoc.
  - intros Hnear limit.
    unfold Cartographer.findPath. rewrite decide_False by lia.
    unfold bind at 1. cbn [ret].
    pose proof (callPathFinder_calls G start goal opts None run) as Hs.
    unfold bind at 1.
    destruct (Cartographer.callPathFinder G start goal opts None run)
      as [result run2].
    pose proof (appends_after_search G start goal opts
                  (getRoomLinearDistance G (roomName start) (roomName goal))
                  result run2) as [rest Hrest].
    exists rest. rewrite Hrest. cbn [snd] in Hs. rewrite Hs.
    by rewrite <- !app_assoc.
Qed.

(** C7 as stated fails.  Five rooms apart, with [opts.maxRooms] at 4 and a
    route of six rooms, the search is called with the limit 4.  With the
    class as it is declared, [findRoute] absent, the call of the method
    throws before any search is made. *)
Lemma findPath_maxRooms_counterexample :
  let G := Sample.game 1 true Sample.search_step (Some Sample.six_rooms) in
  let shipped := Sample.game 1 true Sample.search_step None in
  let route := Sample.six_rooms Sample.W1N1 Sample.W6N1 Sample.four_rooms in
  let run := mkRun (initial 1) [] in
  getRoomLinearDistance G Sample.W1N1 Sample.W6N1 = 5
  /\ length route = 6%nat
  /\ calls (Cartographer.findPath G (c_pos Sample.creep) Sample.far
              Sample.four_rooms run).2
     = [EvFindRoute Sample.W1N1 Sample.W6N1;
        EvSearch (c_pos Sample.creep) 0 Sample.far (Some route) 4]
  /\ Cartographer.findPath shipped (c_pos Sample.creep) Sample.far
       Sample.four_rooms run
     = (Throw TypeError, run).
Proof. vm_compute. done. Qed.

Lemma findPath_route_then_search_witness :
  let G := Sample.game 1 true Sample.search_step (Some Sample.six_rooms) in
  let route := Sample.six_rooms Sample.W1N1 Sample.W6N1 no_opts in
  exists rest,
    calls (Cartographer.findPath G (c_pos Sample.creep) Sample.far no_opts
             (mkRun (initial 1) [])).2
    = [] ++ EvFindRoute Sample.W1N1 Sample.W6N1
         :: EvSearch (c_pos Sample.creep) 0 Sample.far (Some route) 6 :: rest.
Proof.
  intros G route.
  destruct (findPath_route_then_search G (c_pos Sample.creep) Sample.far
              no_opts (mkRun (initial 1) [])) as [Hfar _].
  apply (Hfar ltac:(vm_compute; reflexivity) Sample.six_rooms eq_refl).
Defined.

(** *** The next move *)

(** C8, as amended.  [getNextMove] has no failure of its own for an empty
    sequence.  When it returns, it returns the unary plus of the first
    character of the cached sequence as the call leaves it: [NaN] when
    the sequence is empty (after a replan that found no step as well as
    after the last move was consumed) or is not a string, the number the
    character denotes otherwise.  When it throws, either the error is the
    one the replan ([getNewPath], hence [findPath]) threw, or the cache
    it was given held a path without a last position or a path that is
    an array. *)
Theorem getNextMove_returns_first_move (G : Game) (creep : Creep)
  (goal : RoomPosition) (opts : Opts) (random : Z) (cache : NavCache)
  (run : Run) :
  let '(r, cache', _, _) :=
    Navigator.getNextMove G creep goal opts random cache run in
  (forall move, r = Ok move ->
     exists p, nav_path cache' = Some p
       /\ move = match p with
                 | PStr [] => NaN
                 | PStr (c :: s) => JS.plus_first [c]
                 | PArr _ => NaN
                 end)
  /\ (forall e, r = Throw e ->
        (Navigator.truthy (nav_path cache) = true
         /\ (last cache = None \/ exists l, nav_path cache = Some (PArr l)))
        \/ exists c o u, (Navigator.getNewPath G creep goal c o u).1.1.1 = Throw e).
Proof.
  unfold Navigator.getNextMove.
  assert (forall (c : NavCache) (o : Opts) (u : Run),
    let '(r, cache', _, _) :=
      (let '(replanned, c1, o1, u1) :=
         match Navigator.getNewPath G creep goal c o u with
         | (Ok path, c1, o1, u1) =>
             (Ok tt, mkNav (Some path) (target c1) (last c1) (stuck c1), o1, u1)
         | (Throw e, c1, o1, u1) => (Throw e, c1, o1, u1)
         end in
       match replanned with
       | Throw e => (Throw e, c1, o1, u1)
       | Ok _ => (Navigator.first_move (nav_path c1), c1, o1, u1)
       end) in
    (forall move, r = Ok move ->
       exists p, nav_path cache' = Some p
         /\ move = match p with
                   | PStr [] => NaN
                   | PStr (c :: s) => JS.plus_first [c]
                   | PArr _ => NaN
                   end)
    /\ (forall e, r = Throw e ->
          exists c o u,
            (Navigator.getNewPath G creep goal c o u).1.1.1 = Throw e)) as Hreplan.
  { intros c o u.
    destruct (Navigator.getNewPath G creep goal c o u)
      as [[[[p|e] c1] o1] u1] eqn:Hnew; cbn.
    - split; [|by destruct p as [[|]|]].
      intros move Hmove. exists p. split; [done|].
      destruct p as [[|ch s]|l]; cbn in Hmove; by injection Hmove as <-.
    - split; [done|]. intros e' [= <-]. exists c, o, u. by rewrite Hnew. }
  destruct (Navigator.truthy (nav_path cache)
            && bool_decide (target cache = Some (positionToId goal))) eqn:Huse;
    cbn [negb]; [|close_replan Hreplan].
  apply andb_true_iff in Huse as [Htruthy _].
  unfold Navigator.isAtExpected.
  destruct (last cache) as [id|] eqn:Hlast; [|split; [done|]; intros; left; auto].
  destruct (nav_path cache) as [[s|l]|] eqn:Hpath; [| |done].
  - (* a string is cached *)
    destruct (_ || _ && _); cbn [nav_path target last stuck Navigator.first_move].
    + destruct (JS.gt (JS.incr (stuck cache)) 2 && _).
      * destruct (trackCreeps opts); [close_replan Hreplan|].
        unfold Navigator.moveObstruction.
        cbn [nav_path Navigator.first_move].
        destruct (_ || _ || _ || _).
        -- cbn. split; [|done]. intros move [= <-]. eexists. split; [done|].
           by destruct s as [|? []].
        -- destruct (head _); close_replan Hreplan.
      * cbn. split; [|done]. intros move [= <-]. eexists. split; [done|].
        by destruct s as [|? []].
    + destruct (JS.strict_eq _ _); cbn.
      * split; [|done]. intros move [= <-]. eexists. split; [done|].
        unfold JS.substring. by destruct s as [|? [|? []]].
      * split; [|done]. intros move [= <-]. eexists. split; [done|].
        by destruct s as [|? []].
  - (* an array is cached *)
    destruct (_ || _ && _); cbn [nav_path target last stuck Navigator.first_move].
    + destruct (JS.gt (JS.incr (stuck cache)) 2 && _).
      * destruct (trackCreeps opts); [close_replan Hreplan|].
        unfold Navigator.moveObstruction.
        cbn [nav_path Navigator.first_move].
        destruct (_ || _ || _ || _).
        -- cbn. split; [|done]. intros move [= <-]. eexists. by split.
        -- destruct (head _); close_replan Hreplan.
      * cbn. split; [|done]. intros move [= <-]. eexists. by split.
    + destruct (JS.strict_eq _ _); cbn.
      * split; [done|]. intros e [= <-]. left. split; [done|]. right. eauto.
      * split; [|done]. intros move [= <-]. eexists. by split.
Qed.

(** C8 as stated fails: a replan that leaves the sequence empty makes
    the call return [NaN], not fail.  So it is for a creep that stands
    where the search has no step to give, with the class as declared, and
    so it is, with [findRoute] bound, when the search comes back
    incomplete and empty, retry included. *)
Lemma getNextMove_empty_path_counterexample :
  let run := mkRun (initial 1) [] in
  (let '(r, cache, _, _) :=
     Navigator.getNextMove (Sample.game 1 true (Sample.search_nothing false) None)
       Sample.creep Sample.near no_opts 0 empty_nav run in
   r = Ok NaN /\ nav_path cache = Some (PStr []))
  /\ (let '(r, cache, _, run') :=
        Navigator.getNextMove
          (Sample.game 1 true (Sample.search_nothing true)
             (Some Sample.six_rooms))
          Sample.creep Sample.near no_opts 0 empty_nav run in
      r = Ok NaN /\ nav_path cache = Some (PStr [])
      /\ length (calls run') = 4%nat).
Proof. vm_compute. done. Qed.

(** *** Stalls *)

(** One step of a creep that stands where its cache last saw it, while
    the counter stays below the threshold of the obstruction check. *)
Lemma stalled_step (G : Game) (creep : Creep) (goal : RoomPosition)
  (opts : Opts) (random n : Z) (cache : NavCache) (run : Run) :
  0 <= x (c_pos creep) <= 49 -> 0 <= y (c_pos creep) <= 49 ->
  Navigator.truthy (nav_path cache) = true ->
  target cache = Some (positionToId goal) ->
  last cache = Some (positionToId (c_pos creep)) ->
  stuck cache = Num n -> n + 1 <= 2 ->
  exists run',
    Navigator.getNextMove G creep goal opts random cache run
    = (Navigator.first_move (nav_path cache),
       mkNav (nav_path cache) (target cache) (last cache) (Num (n + 1)),
       opts, run').
Proof.
  intros Hx Hy Htruthy Htarget Hlast Hstuck Hn.
  unfold Navigator.getNextMove.
  assert (forall v, Navigator.coord_is (Some v) v = true) as Hsame
    by (intros; by apply bool_decide_eq_true_2).
  rewrite Htruthy, bool_decide_eq_true_2 by done. cbn [andb negb].
  unfold Navigator.isAtExpected. rewrite Hlast.
  rewrite positionFromId_inverse by done. cbn [fmap option_fmap option_map].
  rewrite !Hsame. cbn [andb]. rewrite orb_true_r. rewrite Hstuck.
  cbn [JS.incr nav_path target last stuck].
  replace (JS.gt (Num (n + 1)) 2) with false
    by (symmetry; apply bool_decide_eq_false_2; lia).
  cbn [andb]. rewrite <- Hlast. eexists. reflexivity.
Qed.

(** C9, as amended.  A creep with a cached path and an unchanged goal,
    seen on two steps in a row at the position recorded before, and whose
    counter was 0 before the first of them, has its counter at 2 after
    the second; on neither step is a move taken from the front of the
    cached sequence, and both steps return its first move. *)
Theorem stalled_twice_counts_two (G : Game) (creep : Creep)
  (goal : RoomPosition) (opts opts' : Opts) (random random' : Z)
  (cache : NavCache) (run : Run) :
  0 <= x (c_pos creep) <= 49 -> 0 <= y (c_pos creep) <= 49 ->
  Navigator.truthy (nav_path cache) = true ->
  target cache = Some (positionToId goal) ->
  last cache = Some (positionToId (c_pos creep)) ->
  stuck cache = Num 0 ->
  let '(r1, cache1, _, run1) :=
    Navigator.getNextMove G creep goal opts random cache run in
  let '(r2, cache2, _, _) :=
    Navigator.getNextMove G creep goal opts' random' cache1 run1 in
  stuck cache1 = Num 1 /\ stuck cache2 = Num 2
  /\ nav_path cache1 = nav_path cache /\ nav_path cache2 = nav_path cache
  /\ last cache1 = Some (positionToId (c_pos creep))
  /\ r1 = Navigator.first_move (nav_path cache)
  /\ r2 = Navigator.first_move (nav_path cache).
Proof.
  intros Hx Hy Htruthy Htarget Hlast Hstuck.
  destruct (stalled_step G creep goal opts random 0 cache run)
    as [run1 ->]; [done..|lia|].
  destruct (stalled_step G creep goal opts' random' 1
              (mkNav (nav_path cache) (target cache) (last cache) (Num (0 + 1)))
              run1) as [run2 ->]; [done..|lia|].
  cbn. by rewrite Hlast.
Qed.

(** C9 as stated fails: the counter counts the steps of the whole stall.
    From a counter at 1, two more steps without a move leave it at 3. *)
Lemma stalled_before_counterexample :
  let G := Sample.game 1 true (Sample.search_nothing false) None in
  let cache := Sample.stalled 1 in
  Navigator.truthy (nav_path cache) = true
  /\ target cache = Some (positionToId Sample.near)
  /\ last cache = Some (positionToId (c_pos Sample.creep))
  /\ let '(_, cache1, opts1, run1) :=
       Navigator.getNextMove G Sample.creep Sample.near no_opts 100 cache
         (mkRun (initial 1) []) in
     let '(_, cache2, _, _) :=
       Navigator.getNextMove G Sample.creep Sample.near opts1 100 cache1 run1 in
     last cache1 = Some (positionToId (c_pos Sample.creep))
     /\ nav_path cache2 = nav_path cache
     /\ stuck cache2 = Num 3.
Proof. vm_compute. done. Qed.

Lemma stalled_twice_counts_two_witness :
  let G := Sample.game 1 true (Sample.search_nothing false) None in
  let '(r1, cache1, _, run1) :=
    Navigator.getNextMove G Sample.creep Sample.near no_opts 7
      (Sample.stalled 0) (mkRun (initial 1) []) in
  let '(r2, cache2, _, _) :=
    Navigator.getNextMove G Sample.creep Sample.near no_opts 7 cache1 run1 in
  stuck cache1 = Num 1 /\ stuck cache2 = Num 2
  /\ nav_path cache1 = nav_path (Sample.stalled 0)
  /\ nav_path cache2 = nav_path (Sample.stalled 0)
  /\ last cache1 = Some (positionToId (c_pos Sample.creep))
  /\ r1 = Navigator.first_move (nav_path (Sample.stalled 0))
  /\ r2 = Navigator.first_move (nav_path (Sample.stalled 0)).
Proof.
  intros G.
  apply (stalled_twice_counts_two G Sample.creep Sample.near no_opts no_opts
           7 7 (Sample.stalled 0) (mkRun (initial 1) []));
    [simpl; lia|simpl; lia|reflexivity..].
Defined.

(** *** The caches of Atlas *)

Section AtlasFacts.

Implicit Types (G : Game) (st : State) (id : list Z) (opts : Opts).

Lemma keys_spec {V} (m : gmap (list Z) V) (k : list Z) :
  k ∈ (map_to_list m).*1 <-> is_Some (m !! k).
Proof.
  rewrite list_elem_of_fmap. split.
  - intros [[k' v] [-> Hin]]. apply elem_of_map_to_list in Hin. by exists v.
  - intros [v Hv]. exists (k, v). split; [done|].
    by apply elem_of_map_to_list.
Qed.

(** The loop of [_reset] over the per-step grids. *)
Lemma reset_loop (ks : list (list Z)) (room creep : gmap (list Z) nat) :
  let '(room', creep') :=
    foldl (fun '(room, creep) k => (delete k room, delete k creep))
      (room, creep) ks in
  forall k,
    room' !! k = (if decide (k ∈ ks) then None else room !! k)
    /\ creep' !! k = (if decide (k ∈ ks) then None else creep !! k).
Proof.
  revert room creep.
  induction ks as [|k0 ks IH]; intros room creep; cbn [foldl].
  - intros k. rewrite !decide_False by apply not_elem_of_nil. done.
  - specialize (IH (delete k0 room) (delete k0 creep)).
    destruct (foldl _ _ ks) as [room' creep']. intros k.
    destruct (IH k) as [-> ->].
    destruct (decide (k ∈ ks)) as [Hin|Hin].
    + rewrite !decide_True by (apply elem_of_cons; by right). done.
    + destruct (decide (k = k0)) as [->|Hne].
      * rewrite !decide_True by (apply elem_of_cons; by left).
        by rewrite !lookup_delete_eq.
      * rewrite !decide_False
          by (intros [?|?]%elem_of_cons; congruence).
        by rewrite !lookup_delete_ne.
Qed.

(** The loop of [_reset] over the packed grids. *)
Lemma reset_packed_loop G (ks : list (list Z)) (packed : gmap (list Z) (list Z)) k :
  foldl (fun packed roomName =>
           if decide (is_Some (rooms G !! roomName))
           then delete roomName packed else packed) packed ks !! k
  = if decide (k ∈ ks /\ is_Some (rooms G !! k)) then None else packed !! k.
Proof.
  revert packed. induction ks as [|k0 ks IH]; intros packed; cbn [foldl].
  - rewrite decide_False; [done|]. intros [[]%elem_of_nil _].
  - rewrite IH. destruct (decide (k ∈ ks /\ is_Some (rooms G !! k))) as [[Hin Hv]|Hn].
    + rewrite decide_True; [done|]. split; [apply elem_of_cons; by right|done].
    + destruct (decide (k = k0 /\ is_Some (rooms G !! k))) as [[-> Hv]|Hn'].
      * destruct (decide (is_Some (rooms G !! k0))); [|done].
        rewrite lookup_delete_eq. symmetry. apply decide_True.
        split; [apply elem_of_cons; by left|done].
      * destruct (decide (k ∈ k0 :: ks /\ _)) as [[Hin Hv]|_].
        { apply elem_of_cons in Hin as [->|Hin]; [by destruct Hn'|].
          by destruct Hn. }
        destruct (decide (is_Some (rooms G !! k0))) as [Hv0|]; [|done].
        rewrite lookup_delete_ne; [done|]. intros ->. by apply Hn'.
Qed.

(** What [_reset] leaves: no per-step grid, the overlays of rooms that
    had no per-step grid, the packed grids but, every 500 ticks, those
    of the visible rooms. *)
Lemma reset_spec G st :
  TERRAIN (Atlas._reset G st) = TERRAIN st
  /\ OFFSETS (Atlas._reset G st) = OFFSETS st
  /\ store (Atlas._reset G st) = store st
  /\ lastReset (Atlas._reset G st) = time G
  /\ COSTS_ROOM (Atlas._reset G st) = ∅
  /\ (forall k, COSTS_CREEP (Atlas._reset G st) !! k
                = if decide (is_Some (COSTS_ROOM st !! k)) then None
                  else COSTS_CREEP st !! k)
  /\ (forall k, PACKED_COSTS (Atlas._reset G st) !! k
                = if decide (Z.rem (time G) RESET_FREQUENCY = 0
                             /\ is_Some (rooms G !! k))
                  then None else PACKED_COSTS st !! k).
Proof.
  unfold Atlas._reset.
  pose proof (reset_loop (map_to_list (COSTS_ROOM st)).*1
                (COSTS_ROOM st) (COSTS_CREEP st)) as Hloop.
  destruct (foldl _ (COSTS_ROOM st, COSTS_CREEP st) _) as [room' creep'].
  cbn. repeat split.
  - apply map_eq. intros k. destruct (Hloop k) as [-> _].
    rewrite lookup_empty. destruct (decide _) as [|Hn]; [done|].
    rewrite keys_spec in Hn. by apply eq_None_not_Some.
  - intros k. destruct (Hloop k) as [_ ->].
    apply decide_ext. apply keys_spec.
  - intros k. destruct (decide (Z.rem (time G) RESET_FREQUENCY = 0)) as [Ht|Ht].
    + rewrite reset_packed_loop.
      destruct (decide (Z.rem (time G) RESET_FREQUENCY = 0 /\ _)) as [[_ Hv]|Hn].
      * destruct (decide _) as [|Hn]; [done|].
        apply eq_None_not_Some. intros Hp. apply Hn. split; [|done].
        by apply keys_spec.
      * rewrite decide_False; [done|]. intros [_ Hv]. by apply Hn.
    + rewrite decide_False; [done|]. by intros [? _].
Qed.

Lemma reset_creeps_empty G st :
  wf st -> COSTS_CREEP (Atlas._reset G st) = ∅.
Proof.
  intros Hwf. apply map_eq. intros k.
  destruct (reset_spec G st) as (_ & _ & _ & _ & _ & -> & _).
  rewrite lookup_empty. destruct (decide _) as [|Hn]; [done|].
  destruct (COSTS_CREEP st !! k) as [ref|] eqn:Hc; [|done].
  destruct (wf_creep st Hwf k ref Hc) as [_ Hr]. done.
Qed.

(** What [refresh] leaves. *)
Lemma refresh_spec G id opts st :
  COSTS_ROOM (Atlas.refresh G id opts st)
  = <[id := length (store st)]> (COSTS_ROOM st)
  /\ COSTS_CREEP (Atlas.refresh G id opts st) = COSTS_CREEP st
  /\ lastReset (Atlas.refresh G id opts st) = lastReset st
  /\ (exists m, store (Atlas.refresh G id opts st) = store st ++ [m]
                /\ (rooms G !! id = None -> m = CostMatrix.new))
  /\ (rooms G !! id = None ->
      PACKED_COSTS (Atlas.refresh G id opts st) = PACKED_COSTS st
      /\ OFFSETS (Atlas.refresh G id opts st) = OFFSETS st
      /\ TERRAIN (Atlas.refresh G id opts st) = TERRAIN st)
  /\ (is_Some (rooms G !! id) ->
      is_Some (PACKED_COSTS (Atlas.refresh G id opts st) !! id))
  /\ (forall k, k <> id ->
      PACKED_COSTS (Atlas.refresh G id opts st) !! k = PACKED_COSTS st !! k).
Proof.
  unfold Atlas.refresh. destruct (rooms G !! id) as [room|].
  - destruct (Atlas._addStructures _ _ _ _) as [m1 o1].
    destruct (addArea opts) as [goals|];
      [destruct (Atlas._addArea _ _ _ _ _ _) as [[m2 t2] o2]|];
      destruct (CostMatrix.pack _ _) as [[packed m3] o3]; cbn;
      (repeat split; try done;
       [by exists m3
       |by rewrite lookup_insert_eq
       |intros k Hk; by rewrite lookup_insert_ne]).
  - cbn. repeat split; try done; by exists CostMatrix.new.
Qed.

Lemma wf_initial t : wf (initial t).
Proof. split; intros *; cbn; by rewrite lookup_empty. Qed.

(** A state that differs by a new instance named as the per-step grid
    of a room is well formed. *)
Lemma wf_new_room st st' id m :
  wf st ->
  COSTS_ROOM st' = <[id := length (store st)]> (COSTS_ROOM st) ->
  COSTS_CREEP st' = COSTS_CREEP st ->
  store st' = store st ++ [m] ->
  wf st'.
Proof.
  intros Hwf Hr Hc Hs. split.
  - intros k ref. rewrite Hr, Hs, length_app. cbn.
    destruct (decide (id = k)) as [->|Hne].
    + rewrite lookup_insert_eq. intros [= <-]. lia.
    + rewrite lookup_insert_ne by done. intros H.
      apply (wf_room st Hwf) in H. lia.
  - intros k ref. rewrite Hr, Hc, Hs, length_app. intros H.
    destruct (wf_creep st Hwf k ref H) as [Hlt Hsome]. split; [lia|].
    destruct (decide (id = k)) as [->|Hne].
    + by rewrite lookup_insert_eq.
    + by rewrite lookup_insert_ne.
  - intros k k' ref. rewrite Hr, Hc.
    destruct (decide (id = k)) as [->|Hne].
    + rewrite lookup_insert_eq. intros [= <-] H.
      apply (wf_creep st Hwf) in H as [Hlt _]. lia.
    + rewrite lookup_insert_ne by done. apply (wf_apart st Hwf).
Qed.

(** A state that differs by a new instance named as the overlay of a
    room that has a per-step grid is well formed. *)
Lemma wf_new_creep st st' id m :
  wf st -> is_Some (COSTS_ROOM st !! id) ->
  COSTS_ROOM st' = COSTS_ROOM st ->
  COSTS_CREEP st' = <[id := length (store st)]> (COSTS_CREEP st) ->
  store st' = store st ++ [m] ->
  wf st'.
Proof.
  intros Hwf Hid Hr Hc Hs. split.
  - intros k ref. rewrite Hr, Hs, length_app. intros H.
    apply (wf_room st Hwf) in H. lia.
  - intros k ref. rewrite Hr, Hc, Hs, length_app. cbn.
    destruct (decide (id = k)) as [->|Hne].
    + rewrite lookup_insert_eq. intros [= <-]. split; [lia|done].
    + rewrite lookup_insert_ne by done. intros H.
      destruct (wf_creep st Hwf k ref H). split; [lia|done].
  - intros k k' ref. rewrite Hr, Hc. intros H.
    destruct (decide (id = k')) as [->|Hne].
    + rewrite lookup_insert_eq. intros [= <-].
      apply (wf_room st Hwf) in H. lia.
    + rewrite lookup_insert_ne by done. by apply (wf_apart st Hwf k k' ref).
Qed.

Lemma wf_reset G st : wf st -> wf (Atlas._reset G st).
Proof.
  intros Hwf. pose proof (reset_creeps_empty G st Hwf) as Hc.
  destruct (reset_spec G st) as (_ & _ & _ & _ & Hr & _).
  split; intros *; rewrite ?Hr, ?Hc; by rewrite lookup_empty.
Qed.

Lemma wf_refresh G id opts st : wf st -> wf (Atlas.refresh G id opts st).
Proof.
  intros Hwf.
  destruct (refresh_spec G id opts st) as (Hr & Hc & _ & (m & Hs & _) & _).
  by eapply wf_new_room.
Qed.

End AtlasFacts.

Section GetCosts.

Implicit Types (G : Game) (st : State) (id : list Z) (opts : Opts).

Lemma getCosts_per_step G id opts st :
  Atlas.getCosts G id opts st
  = let st := per_step G id opts st in
    if negb (trackCreeps opts && bool_decide (is_Some (rooms G !! id)))
    then (COSTS_ROOM st !! id, st)
    else match COSTS_CREEP st !! id with
         | Some ref => (Some ref, st)
         | None => Atlas._addCreeps G id st
         end.
Proof. reflexivity. Qed.

(** What the first three statements of [getCosts] establish. *)
Lemma per_step_spec G id opts st :
  wf st ->
  let st3 := per_step G id opts st in
  wf st3
  /\ ~ lastReset st3 < time G
  /\ (exists base,
        COSTS_ROOM st3 !! id = Some base
        /\ (COSTS_ROOM st !! id = Some base /\ store st3 = store st
            \/ (length (store st) <= base)%nat)
        /\ (lastReset st < time G ->
            (length (store st) <= base)%nat /\ COSTS_CREEP st3 = ∅
            /\ lastReset st3 = time G)
        /\ (rooms G !! id = None ->
            PACKED_COSTS st !! id = None \/ refreshMatrix opts = true ->
            (length (store st) <= base)%nat
            /\ store st3 !! base = Some CostMatrix.new))
  /\ (is_Some (rooms G !! id) \/ is_Some (PACKED_COSTS st !! id) ->
      is_Some (PACKED_COSTS st3 !! id))
  /\ (rooms G !! id = None ->
      PACKED_COSTS st3
      = PACKED_COSTS (if decide (lastReset st < time G)
                      then Atlas._reset G st else st)
      /\ PACKED_COSTS st3 !! id = PACKED_COSTS st !! id)
  /\ store st `prefix_of` store st3.
Proof.
  intros Hwf st3. subst st3. unfold per_step.
  (* epoch maintenance *)
  set (st1 := if decide (lastReset st < time G) then Atlas._reset G st else st).
  assert (wf st1) as Hwf1.
  { subst st1. destruct (decide _); [by apply wf_reset|done]. }
  assert (~ lastReset st1 < time G) as Hfresh1.
  { subst st1. destruct (decide _) as [|Hn]; [|done].
    destruct (reset_spec G st) as (_ & _ & _ & -> & _). lia. }
  assert (store st1 = store st) as Hstore1.
  { subst st1. destruct (decide _); [|done].
    by destruct (reset_spec G st) as (_ & _ & -> & _). }
  assert (lastReset st < time G ->
          COSTS_ROOM st1 = ∅ /\ COSTS_CREEP st1 = ∅
          /\ lastReset st1 = time G) as Hstale1.
  { intros Hs. subst st1. rewrite decide_True by done. split; [|split].
    - by destruct (reset_spec G st) as (_ & _ & _ & _ & -> & _).
    - by apply reset_creeps_empty.
    - by destruct (reset_spec G st) as (_ & _ & _ & -> & _). }
  assert (~ lastReset st < time G -> st1 = st) as Hkeep1.
  { intros Hs. subst st1. by rewrite decide_False. }
  assert (rooms G !! id = None ->
          PACKED_COSTS st1 !! id = PACKED_COSTS st !! id) as Hpacked1.
  { intros Hk. subst st1. destruct (decide _); [|done].
    destruct (reset_spec G st) as (_ & _ & _ & _ & _ & _ & ->).
    rewrite decide_False; [done|]. rewrite Hk. by intros [_ []]. }
  assert (is_Some (rooms G !! id) \/ is_Some (PACKED_COSTS st !! id) ->
          is_Some (rooms G !! id) \/ is_Some (PACKED_COSTS st1 !! id))
    as Hdurable1.
  { destruct (rooms G !! id) eqn:Hv; [by left|]. by rewrite Hpacked1. }
  assert (forall base, COSTS_ROOM st1 !! id = Some base ->
          COSTS_ROOM st !! id = Some base /\ ~ lastReset st < time G)
    as Hbase1.
  { intros base Hb. destruct (decide (lastReset st < time G)) as [Hs|Hs].
    - destruct (Hstale1 Hs) as (Hr & _). by rewrite Hr, lookup_empty in Hb.
    - by rewrite Hkeep1 in Hb. }
  generalize dependent st1. intros st1 Hwf1 Hfresh1 Hstore1 Hstale1 _.
  intros Hpacked1 Hdurable1 Hbase1. rewrite <- Hstore1.
  destruct (decide (PACKED_COSTS st1 !! id = None \/ refreshMatrix opts = true))
    as [Hbuild|Hserve].
  - (* the grid is built *)
    destruct (refresh_spec G id opts st1)
      as (Hr & Hc & Hl & (m & Hs & Hm) & Hunseen & Hseen & Hother).
    assert (COSTS_ROOM (Atlas.refresh G id opts st1) !! id
            = Some (length (store st1))) as Hbase
      by (rewrite Hr; apply lookup_insert_eq).
    rewrite Hbase. split; [by apply wf_refresh|].
    split; [by rewrite Hl|]. split; [|split; [|split]].
    + exists (length (store st1)). split; [done|].
      split; [by right|]. split.
      * intros Hs'. split; [done|]. rewrite Hc, Hl. by apply Hstale1.
      * intros Hv _. split; [done|]. rewrite Hs.
        rewrite lookup_app_r, Nat.sub_diag by done. cbn. f_equal.
        by apply Hm.
    + intros Hd. destruct (rooms G !! id) eqn:Hv; [by apply Hseen|].
      destruct (Hunseen eq_refl) as (-> & _).
      by destruct (Hdurable1 Hd) as [[]|].
    + intros Hv. destruct (Hunseen Hv) as (-> & _). split; [done|].
      by apply Hpacked1.
    + rewrite Hs. by apply prefix_app_r.
  - (* the durable grid is served *)
    destruct (PACKED_COSTS st1 !! id) as [packed|] eqn:Hp;
      [|destruct Hserve; by left].
    assert (rooms G !! id = None ->
            ~ (PACKED_COSTS st !! id = None \/ refreshMatrix opts = true))
      as Hnobuild.
    { intros Hv [Hn|Hf]; [|apply Hserve; by right].
      by rewrite <- (Hpacked1 Hv) in Hn. }
    destruct (COSTS_ROOM st1 !! id) as [base|] eqn:Hb.
    + destruct (Hbase1 base eq_refl) as [Hb0 Hnot].
      rewrite Hb, Hp. split; [done|]. split; [done|].
      split; [|split; [|split]].
      * exists base. split; [done|]. split; [by left|].
        split; [done|]. intros Hv Hbuild. by destruct (Hnobuild Hv).
      * done.
      * intros Hv. split; [done|]. by rewrite <- (Hpacked1 Hv).
      * done.
    + cbn. rewrite lookup_insert_eq. split.
      { eapply wf_new_room; [exact Hwf1|done..]. }
      split; [done|]. split; [|split; [|split]].
      * exists (length (store st1)). split; [done|].
        split; [by right|]. split.
        -- intros Hs'. split; [done|]. by apply Hstale1.
        -- intros Hv Hbuild. by destruct (Hnobuild Hv).
      * by rewrite Hp.
      * intros Hv. split; [done|]. by rewrite <- (Hpacked1 Hv).
      * by apply prefix_app_r.
Qed.

(** Nothing is left to do for a room whose grids are in place. *)
Lemma per_step_fixed G id opts st :
  ~ lastReset st < time G ->
  is_Some (PACKED_COSTS st !! id) ->
  refreshMatrix opts = false ->
  is_Some (COSTS_ROOM st !! id) ->
  per_step G id opts st = st.
Proof.
  intros Hfresh [packed Hp] Hopts [base Hb]. unfold per_step.
  destruct (decide (lastReset st < time G)); [done|].
  destruct (decide (_ \/ _)) as [[Hn|Hf]|_].
  - by rewrite Hp in Hn.
  - by rewrite Hopts in Hf.
  - by rewrite Hb.
Qed.

(** What [_addCreeps] leaves in a well formed state. *)
Lemma addCreeps_spec G id st base room :
  wf st -> COSTS_ROOM st !! id = Some base -> rooms G !! id = Some room ->
  exists m,
    Atlas._addCreeps G id st
    = (Some (length (store st)),
       mkState (PACKED_COSTS st) (TERRAIN st) (COSTS_ROOM st)
         (<[id := length (store st)]> (COSTS_CREEP st)) (OFFSETS st)
         (lastReset st) (store st ++ [m])).
Proof.
  intros Hwf Hb Hv. unfold Atlas._addCreeps. rewrite Hb, Hv.
  destruct (lookup_lt_is_Some_2 (store st) base) as [mb ->].
  { by apply (wf_room st Hwf id). }
  eexists. reflexivity.
Qed.

(** What [getCosts] returns and leaves in a well formed state. *)
Lemma getCosts_spec G id opts st :
  wf st ->
  let st3 := per_step G id opts st in
  exists ref st',
    Atlas.getCosts G id opts st = (Some ref, st')
    /\ wf st'
    /\ PACKED_COSTS st' = PACKED_COSTS st3
    /\ COSTS_ROOM st' = COSTS_ROOM st3
    /\ lastReset st' = lastReset st3
    /\ store st3 `prefix_of` store st'
    /\ (ref < length (store st'))%nat
    /\ (if trackCreeps opts && bool_decide (is_Some (rooms G !! id))
        then COSTS_CREEP st' !! id = Some ref
             /\ (COSTS_CREEP st3 !! id = Some ref /\ st' = st3
                 \/ COSTS_CREEP st3 !! id = None
                    /\ ref = length (store st3))
        else COSTS_ROOM st3 !! id = Some ref /\ st' = st3).
Proof.
  intros Hwf st3. rewrite getCosts_per_step. fold st3.
  destruct (per_step_spec G id opts st Hwf)
    as (Hwf3 & _ & (base & Hb & _) & _).
  fold st3 in Hwf3, Hb. cbv zeta.
  destruct (trackCreeps opts && bool_decide (is_Some (rooms G !! id)))
    eqn:Htrack; cbn [negb].
  - apply andb_true_iff in Htrack as [_ Hv%bool_decide_eq_true].
    destruct Hv as [room Hv].
    destruct (COSTS_CREEP st3 !! id) as [ref|] eqn:Hc.
    + exists ref, st3. split_and!; try done.
      * by apply (wf_creep st3 Hwf3 id).
      * by left.
    + destruct (addCreeps_spec G id st3 base room Hwf3 Hb Hv) as [m ->].
      eexists _, _. split; [done|]. cbn. split_and!; try done.
      * by eapply wf_new_creep.
      * by apply prefix_app_r.
      * rewrite length_app. cbn. lia.
      * apply lookup_insert_eq.
      * by right.
  - exists base, st3. rewrite Hb. split_and!; try done.
    by apply (wf_room st3 Hwf3 id).
Qed.

End GetCosts.







(** *** Writes to an overlay *)

Section Writes.

Implicit Types (G : Game) (st : State) (id : list Z) (opts : Opts).

Lemma reset_write G (o : nat) (m : CostMatrix) st :
  Atlas._reset G (write o m st) = write o m (Atlas._reset G st).
Proof.
  unfold Atlas._reset, write, set_store. cbn.
  by destruct (foldl _ (COSTS_ROOM st, COSTS_CREEP st) _).
Qed.

Lemma refresh_write G id opts (o : nat) (m : CostMatrix) st :
  (o < length (store st))%nat ->
  Atlas.refresh G id opts (write o m st)
  = write o m (Atlas.refresh G id opts st).
Proof.
  intros Ho. unfold Atlas.refresh, write, set_store. cbn.
  rewrite length_insert. destruct (rooms G !! id) as [room|].
  - destruct (Atlas._addStructures _ _ _ _) as [m1 o1].
    destruct (addArea opts) as [goals|];
      [destruct (Atlas._addArea _ _ _ _ _ _) as [[m2 t2] o2]|];
      destruct (CostMatrix.pack _ _) as [[packed m3] o3]; cbn;
      by rewrite insert_app_l.
  - cbn. by rewrite insert_app_l.
Qed.

(** The first three statements of [getCosts] neither read nor write an
    instance that is already stored. *)
Lemma per_step_write G id opts (o : nat) (m : CostMatrix) st :
  (o < length (store st))%nat ->
  per_step G id opts (write o m st) = write o m (per_step G id opts st).
Proof.
  intros Ho. unfold per_step.
  assert (write o m st = set_store (fun h => <[o := m]> h) st) as Hw by done.
  cbn [lastReset write set_store].
  set (st1 := if decide (lastReset st < time G) then Atlas._reset G st else st).
  assert ((if decide (lastReset st < time G)
           then Atlas._reset G (write o m st) else write o m st)
          = write o m st1) as ->.
  { subst st1. destruct (decide _); [apply reset_write|done]. }
  assert (o < length (store st1))%nat as Ho1.
  { subst st1. destruct (decide _); [|done].
    by destruct (reset_spec G st) as (_ & _ & -> & _). }
  clearbody st1. cbn [PACKED_COSTS write set_store].
  set (st2 := if decide (PACKED_COSTS st1 !! id = None
                         \/ refreshMatrix opts = true)
              then Atlas.refresh G id opts st1 else st1).
  assert ((if decide (PACKED_COSTS st1 !! id = None
                      \/ refreshMatrix opts = true)
           then Atlas.refresh G id opts (write o m st1) else write o m st1)
          = write o m st2) as ->.
  { subst st2. destruct (decide _); [by apply refresh_write|done]. }
  assert (o < length (store st2))%nat as Ho2.
  { subst st2. destruct (decide _); [|done].
    destruct (refresh_spec G id opts st1) as (_ & _ & _ & (m' & -> & _) & _).
    rewrite length_app. lia. }
  clearbody st2. cbn [COSTS_ROOM PACKED_COSTS write set_store].
  destruct (COSTS_ROOM st2 !! id); [done|].
  destruct (PACKED_COSTS st2 !! id); [|done].
  unfold write, set_store. cbn. by rewrite length_insert, insert_app_l.
Qed.

End Writes.

(** C4, as amended.  From a well formed state, a call with
    [opts.trackCreeps] for a visible room returns an overlay that is a
    stored instance other than the per-step grid of the room.  A write
    to that overlay, whatever it stores, leaves the per-step grid and
    [PACKED_COSTS] as they are, and a later call for the room without
    [trackCreeps] returns the same instance with the same cells as it
    would have without the write: the per-step grid itself, with no
    change of state, unless that call asks for a refresh.  (For a room
    that is not visible, a call with [trackCreeps] returns the per-step
    grid itself.) *)
Theorem overlay_isolation (G : Game) (id : list Z) (opts opts' : Opts)
  (st : State) (m : CostMatrix) :
  wf st -> trackCreeps opts = true -> is_Some (rooms G !! id) ->
  trackCreeps opts' = false ->
  let '(r, st1) := Atlas.getCosts G id opts st in
  exists overlay base,
    r = Some overlay /\ COSTS_ROOM st1 !! id = Some base /\ overlay <> base
    /\ (overlay < length (store st1))%nat
    /\ let written := write overlay m st1 in
       store written !! base = store st1 !! base
       /\ PACKED_COSTS written = PACKED_COSTS st1
       /\ let '(r2, st2) := Atlas.getCosts G id opts' st1 in
          let '(r2', st2') := Atlas.getCosts G id opts' written in
          r2' = r2 /\ cells st2' r2' = cells st2 r2 /\ is_Some (cells st2 r2)
          /\ PACKED_COSTS st2' = PACKED_COSTS st2
          /\ (refreshMatrix opts' = false -> r2 = Some base /\ st2 = st1).
Proof.
  intros Hwf Htrack Hv Hplain.
  destruct (getCosts_spec G id opts st Hwf)
    as (overlay & st1 & -> & Hwf1 & Hp1 & Hr1 & Hl1 & _ & Hlt & Hret).
  destruct (per_step_spec G id opts st Hwf)
    as (_ & Hfresh & (base & Hb & _) & Hdurable & _).
  rewrite Htrack, bool_decide_eq_true_2 in Hret by done. cbn in Hret.
  destruct Hret as [Hoverlay _].
  assert (forall k ref, COSTS_ROOM st1 !! k = Some ref -> overlay <> ref)
    as Hapart.
  { intros k ref Hk ->. by apply (wf_apart st1 Hwf1 k id ref). }
  exists overlay, base. rewrite Hr1. split_and!; try done.
  { apply (Hapart id). by rewrite Hr1. }
  cbv zeta. split_and!.
  - unfold write, set_store. cbn. apply list_lookup_insert_ne.
    apply (Hapart id). by rewrite Hr1.
  - done.
  - rewrite !getCosts_per_step, Hplain. cbn [andb negb]. cbv zeta.
    rewrite per_step_write by done.
    destruct (per_step_spec G id opts' st1 Hwf1)
      as (Hwf2 & _ & (base2 & Hb2 & Hwhere & _) & _).
    cbn [COSTS_ROOM write set_store]. rewrite Hb2.
    assert (overlay <> base2) as Hne.
    { destruct Hwhere as [[Hold _]|Hnew]; [by apply (Hapart id)|lia]. }
    destruct (lookup_lt_is_Some_2 (store (per_step G id opts' st1)) base2)
      as [mb Hmb]; [by apply (wf_room _ Hwf2 id)|].
    split_and!; try done.
    + unfold cells, write, set_store. cbn.
      by rewrite list_lookup_insert_ne.
    + unfold cells. cbn. rewrite Hmb. by eexists.
    + intros Hkeep. rewrite per_step_fixed in Hb2 |- *.
      * split; [|done]. by rewrite <- Hb2, Hr1.
      * by rewrite Hl1.
      * rewrite Hp1. apply Hdurable. by left.
      * done.
      * by rewrite Hr1, Hb.
      * by rewrite Hl1.
      * rewrite Hp1. apply Hdurable. by left.
      * done.
      * by rewrite Hr1, Hb.
Qed.

(** C4 as stated fails for a room that is not visible: the grid a call
    with [trackCreeps] returns is the per-step grid, and a write to it
    shows in what a later call without [trackCreeps] returns. *)
Lemma overlay_unobservable_counterexample :
  let seen := Sample.game 1 true (Sample.search_nothing true) None in
  let unseen := Sample.game 2 false (Sample.search_nothing true) None in
  let '(_, st1) := Atlas.getCosts seen Sample.W1N1 no_opts (initial 1) in
  let '(r, st2) := Atlas.getCosts unseen Sample.W1N1 Sample.track st1 in
  let before := Atlas.getCosts unseen Sample.W1N1 no_opts st2 in
  let after :=
    Atlas.getCosts unseen Sample.W1N1 no_opts
      (write 1 (CostMatrix.set CostMatrix.new 0 0 7) st2) in
  r = Some 1%nat /\ COSTS_ROOM st2 !! Sample.W1N1 = r
  /\ (cells before.2 before.1 ≫= fun bits => bits !! 0%nat) = Some 0
  /\ (cells after.2 after.1 ≫= fun bits => bits !! 0%nat) = Some 7.
Proof. vm_compute. done. Qed.

Lemma overlay_isolation_witness :
  let G := Sample.game 1 true (Sample.search_nothing true) None in
  let m := CostMatrix.set CostMatrix.new 0 0 7 in
  wf (initial 1) /\ trackCreeps Sample.track = true
  /\ is_Some (rooms G !! Sample.W1N1) /\ trackCreeps no_opts = false
  /\ let '(r, st1) := Atlas.getCosts G Sample.W1N1 Sample.track (initial 1) in
     exists overlay base,
       r = Some overlay /\ COSTS_ROOM st1 !! Sample.W1N1 = Some base
       /\ overlay <> base
       /\ (overlay < length (store st1))%nat
       /\ let written := write overlay m st1 in
          store written !! base = store st1 !! base
          /\ PACKED_COSTS written = PACKED_COSTS st1
          /\ let '(r2, st2) := Atlas.getCosts G Sample.W1N1 no_opts st1 in
             let '(r2', st2') := Atlas.getCosts G Sample.W1N1 no_opts written in
             r2' = r2 /\ cells st2' r2' = cells st2 r2
             /\ is_Some (cells st2 r2)
             /\ PACKED_COSTS st2' = PACKED_COSTS st2
             /\ (refreshMatrix no_opts = false -> r2 = Some base /\ st2 = st1).
Proof.
  intros G m.
  assert (is_Some (rooms G !! Sample.W1N1)) as Hv by (vm_compute; eauto).
  split_and!; [apply wf_initial|reflexivity|exact Hv|reflexivity|].
  apply (overlay_isolation G Sample.W1N1 Sample.track no_opts (initial 1) m
           (wf_initial 1) eq_refl Hv eq_refl).
Defined.

(** *** LidarOverloaded.js *)

Section LidarFacts.

Implicit Types (n dx dy : Z) (p q : RoomPosition).

Lemma ToInt32_range n : - 2 ^ 31 <= Lidar.ToInt32 n < 2 ^ 31.
Proof.
  unfold Lidar.ToInt32.
  pose proof (Z.mod_pos_bound (n + 2 ^ 31) (2 ^ 32) ltac:(lia)). lia.
Qed.

Lemma ToInt32_small n : - 2 ^ 31 <= n < 2 ^ 31 -> Lidar.ToInt32 n = n.
Proof. intros Hn. unfold Lidar.ToInt32. rewrite Z.mod_small; lia. Qed.

Lemma sign_fold n :
  - 2 ^ 31 <= n < 2 ^ 31 ->
  Z.lxor n (Z.shiftr n 31) - Z.shiftr n 31 = Z.abs n.
Proof.
  intros Hn. rewrite Z.shiftr_div_pow2 by lia.
  destruct (decide (0 <= n)) as [Hpos|Hneg].
  - rewrite Z.div_small by lia. rewrite Z.lxor_0_r. lia.
  - replace (n `div` 2 ^ 31) with (-1)
      by (apply Z.div_unique with (n + 2 ^ 31); lia).
    rewrite Z.lxor_m1_r. unfold Z.lnot. lia.
Qed.

Lemma abs_wrapped n : Lidar.abs (Num n) = Num (Z.abs (Lidar.ToInt32 n)).
Proof.
  unfold Lidar.abs. cbv zeta. f_equal. apply sign_fold, ToInt32_range.
Qed.

Lemma abs_small n : - 2 ^ 31 <= n < 2 ^ 31 -> Lidar.abs (Num n) = Num (Z.abs n).
Proof. intros Hn. by rewrite abs_wrapped, ToInt32_small. Qed.

End LidarFacts.

(** X1. [abs] is the absolute value exactly on the integers from -2^31 to
    2^31; outside, the operand wraps to 32 bits and the answer is
    another number. *)
Theorem abs_exact_range (n : Z) :
  Lidar.abs (Num n) = Num (Z.abs n) <-> - 2 ^ 31 <= n <= 2 ^ 31.
Proof.
  rewrite abs_wrapped. pose proof (ToInt32_range n) as Hr. split.
  - intros [= H]. lia.
  - intros Hn. f_equal. destruct (decide (n = 2 ^ 31)) as [->|Hne].
    + reflexivity.
    + rewrite ToInt32_small; lia.
Qed.

(** The direction [getDirection] answers for a step that is not null,
    with the components of the unit step it names. *)
Lemma getDirection_cases (dx dy : Z) :
  Z.abs dx < 2 ^ 31 -> Z.abs dy < 2 ^ 31 -> (dx <> 0 \/ dy <> 0) ->
  exists k ox oy,
    Lidar.getDirection (Num dx) (Num dy) = Some (Num k)
    /\ 1 <= k <= 8
    /\ offsetsX !! Z.to_nat (k - 1) = Some ox
    /\ offsetsY !! Z.to_nat (k - 1) = Some oy
    /\ COMPLIMENTS !! Z.to_nat (k - 1)
       = Some (if decide (k <= 4) then k + 4 else k - 4)
    /\ (ox <> 0 -> ox = Z.sgn dx) /\ (oy <> 0 -> oy = Z.sgn dy)
    /\ (ox = 0 <-> Z.abs dy > 2 * Z.abs dx)
    /\ (oy = 0 <-> Z.abs dx > 2 * Z.abs dy).
Proof.
  intros Hdx Hdy Hstep. unfold Lidar.getDirection.
  rewrite !abs_small by lia.
  unfold Lidar.gt, Lidar.times, Lidar.add, Lidar.sign, RIGHT, LEFT, BOTTOM, TOP.
  assert ((dy < 0 /\ Z.sgn dy = -1) \/ (dy = 0 /\ Z.sgn dy = 0)
          \/ (0 < dy /\ Z.sgn dy = 1)) as Hsy by lia.
  assert ((dx < 0 /\ Z.sgn dx = -1) \/ (dx = 0 /\ Z.sgn dx = 0)
          \/ (0 < dx /\ Z.sgn dx = 1)) as Hsx by lia.
  repeat case_bool_decide;
    destruct Hsy as [[? Ey]|[[? Ey]|[? Ey]]];
    destruct Hsx as [[? Ex]|[[? Ex]|[? Ex]]]; try lia;
    rewrite ?Ey, ?Ex;
    (eexists _, _, _; split; [reflexivity|]; cbn;
     split; [lia|]; split; [reflexivity|]; split; [reflexivity|];
     split; [reflexivity|]; split_and!; lia).
Qed.

(** X2. [getDirection] answers [undefined] for the null step alone; for
    any other step it answers one of the eight directions, whose unit
    step agrees in sign with the step given, is that step when the step
    is to a neighbouring tile, and whose [COMPLIMENTS] entry is the
    direction of the step back. *)
Theorem getDirection_total (dx dy : Z) :
  Z.abs dx < 2 ^ 31 -> Z.abs dy < 2 ^ 31 ->
  (Lidar.getDirection (Num dx) (Num dy) = None <-> dx = 0 /\ dy = 0)
  /\ forall d, Lidar.getDirection (Num dx) (Num dy) = Some d ->
       exists k ox oy,
         d = Num k /\ 1 <= k <= 8
         /\ offsetsX !! Z.to_nat (k - 1) = Some ox
         /\ offsetsY !! Z.to_nat (k - 1) = Some oy
         /\ (ox <> 0 -> ox = Z.sgn dx) /\ (oy <> 0 -> oy = Z.sgn dy)
         /\ (Z.abs dx <= 1 -> Z.abs dy <= 1 -> ox = dx /\ oy = dy)
         /\ Lidar.getDirection (Num (- dx)) (Num (- dy))
            = Num <$> COMPLIMENTS !! Z.to_nat (k - 1).
Proof.
  intros Hdx Hdy.
  destruct (decide (dx = 0 /\ dy = 0)) as [[-> ->]|Hstep].
  - split; [done|]. intros d Hd. discriminate Hd.
  - assert (dx <> 0 \/ dy <> 0) as Hs by lia.
    destruct (getDirection_cases dx dy Hdx Hdy Hs)
      as (k & ox & oy & Hk & Hr & Hox & Hoy & Hc & Hsx & Hsy & Hzx & Hzy).
    split; [split; [by rewrite Hk|done]|].
    intros d Hd. rewrite Hk in Hd. injection Hd as <-.
    exists k, ox, oy. split_and!; try done; try lia.
    destruct (getDirection_cases (- dx) (- dy))
        as (k' & ox' & oy' & Hk' & Hr' & Hox' & Hoy' & _ & Hsx' & Hsy'
            & Hzx' & Hzy'); [lia..|].
      rewrite Hk', Hc. cbn. do 2 f_equal.
      assert (k = 1 \/ k = 2 \/ k = 3 \/ k = 4 \/ k = 5 \/ k = 6 \/ k = 7
              \/ k = 8) as Hks by lia.
      assert (k' = 1 \/ k' = 2 \/ k' = 3 \/ k' = 4 \/ k' = 5 \/ k' = 6
              \/ k' = 7 \/ k' = 8) as Hks' by lia.
      destruct Hks as [->|[->|[->|[->|[->|[->|[->| ->]]]]]]];
        cbn in Hox, Hoy; injection Hox as <-; injection Hoy as <-;
        destruct Hks' as [->|[->|[->|[->|[->|[->|[->| ->]]]]]]];
        cbn in Hox', Hoy'; injection Hox' as <-; injection Hoy' as <-;
        destruct (decide _); lia.
Qed.

Lemma getDirection_total_witness :
  Lidar.getDirection (Num (-1)) (Num 1) = Some (Num BOTTOM_LEFT)
  /\ Lidar.getDirection (Num (- -1)) (Num (- 1))
     = Num <$> COMPLIMENTS !! Z.to_nat (BOTTOM_LEFT - 1).
Proof.
  destruct (getDirection_total (-1) 1) as [_ H]; [vm_compute; reflexivity..|].
  destruct (H (Num BOTTOM_LEFT) eq_refl)
    as (k & ox & oy & [= <-] & _ & _ & _ & _ & _ & _ & Hback).
  split; [reflexivity|exact Hback].
Defined.

(** X3. In one room, for positions inside it, the four range methods
    agree with the Chebyshev distance, by position and by coordinates:
    [getRangeTo] answers it and is symmetric, [inRangeTo] compares it
    with the range, [isNearTo] with 1 and [isEqualTo] with 0. *)
Theorem range_methods_agree (G : Game) (p q : RoomPosition) (r : Z)
  (ignored : number) :
  0 <= x p <= 49 -> 0 <= y p <= 49 -> 0 <= x q <= 49 -> 0 <= y q <= 49 ->
  roomName p = roomName q ->
  let distance := Z.max (Z.abs (x p - x q)) (Z.abs (y p - y q)) in
  Lidar.getRangeTo G p (ArgObject q) ignored = Within (Num distance)
  /\ Lidar.getRangeTo G q (ArgObject p) ignored = Within (Num distance)
  /\ Lidar.getRangeTo G p (ArgNumber (Num (x q))) (Num (y q))
     = Within (Num distance)
  /\ Lidar.inRangeTo p (ArgObject q) (Num r) ignored
     = Ok (bool_decide (distance <= r))
  /\ Lidar.inRangeTo p (ArgNumber (Num (x q))) (Num (y q)) (Num r)
     = Ok (bool_decide (distance <= r))
  /\ Lidar.isNearTo p (ArgObject q) ignored = bool_decide (distance <= 1)
  /\ Lidar.isNearTo p (ArgNumber (Num (x q))) (Num (y q))
     = bool_decide (distance <= 1)
  /\ Lidar.isEqualTo p (ArgObject q) ignored = bool_decide (distance = 0)
  /\ Lidar.isEqualTo p (ArgNumber (Num (x q))) (Num (y q))
     = bool_decide (distance = 0)
  /\ (Lidar.isEqualTo p (ArgObject q) ignored = true <-> p = q).
Proof.
  intros Hxp Hyp Hxq Hyq Hroom distance. subst distance.
  unfold Lidar.getRangeTo, Lidar.inRangeTo, Lidar.isNearTo, Lidar.isEqualTo,
    Lidar.sub, Lidar.same.
  rewrite Hroom. rewrite !decide_True by done.
  rewrite !(abs_small (_ - _)) by lia. unfold Lidar.max, Lidar.le.
  rewrite !bool_decide_eq_true_2 by done. cbn [andb].
  split_and!; try done;
    try (f_equal; repeat case_bool_decide; try done; lia).
  - do 2 f_equal. lia.
  - destruct p as [px py pr], q as [qx qy qr]. cbn in *. subst qr. split.
    + intros [?%bool_decide_eq_true ?%bool_decide_eq_true]%andb_true_iff.
      congruence.
    + intros [= -> ->]. by rewrite !bool_decide_eq_true_2.
Qed.

Lemma range_methods_agree_witness :
  let p := mkPos 10 10 Sample.W1N1 in
  let q := mkPos 12 11 Sample.W1N1 in
  Lidar.getRangeTo (Sample.game 1 true Sample.search_step None) p
    (ArgObject q) NaN = Within (Num (Z.max (Z.abs (10 - 12)) (Z.abs (10 - 11))))
  /\ Lidar.inRangeTo p (ArgObject q) (Num 2) NaN
     = Ok (bool_decide (Z.max (Z.abs (10 - 12)) (Z.abs (10 - 11)) <= 2)).
Proof.
  intros p q.
  destruct (range_methods_agree (Sample.game 1 true Sample.search_step None)
              p q 2 NaN) as (H1 & _ & _ & H2 & _);
    [cbn; lia..|reflexivity|].
  split; [exact H1|exact H2].
Defined.

(** X4. Towards another room, and for what is no position, no method
    answers a range: [isEqualTo] and [isNearTo] answer [false],
    [getRangeTo] answers [Infinity] for a visible room and [NaN]
    otherwise.  [inRangeTo] answers [false] too, except that on [null]
    it throws, where the other three methods answer [false] or [NaN]. *)
Theorem range_methods_elsewhere (G : Game) (p q : RoomPosition)
  (arg2 arg3 : number) :
  (roomName p <> roomName q ->
   Lidar.isEqualTo p (ArgObject q) arg2 = false
   /\ Lidar.isNearTo p (ArgObject q) arg2 = false
   /\ Lidar.inRangeTo p (ArgObject q) arg2 arg3 = Ok false
   /\ Lidar.getRangeTo G p (ArgObject q) arg2
      = if decide (is_Some (rooms G !! roomName q)) then Unbounded
        else Within NaN)
  /\ (forall arg1, arg1 = ArgNull \/ arg1 = ArgOther ->
      Lidar.isEqualTo p arg1 arg2 = false
      /\ Lidar.isNearTo p arg1 arg2 = false
      /\ Lidar.getRangeTo G p arg1 arg2 = Within NaN
      /\ Lidar.getDirectionTo p arg1 arg2 = Some None)
  /\ Lidar.inRangeTo p ArgOther arg2 arg3 = Ok false
  /\ Lidar.inRangeTo p ArgNull arg2 arg3 = Throw TypeError.
Proof.
  split; [|split; [|done]].
  - intros Hroom.
    unfold Lidar.isEqualTo, Lidar.isNearTo, Lidar.inRangeTo, Lidar.getRangeTo.
    rewrite !bool_decide_eq_false_2 by done.
    rewrite decide_False by done. done.
  - intros arg1 [-> | ->]; done.
Qed.

Lemma range_methods_elsewhere_witness :
  Lidar.inRangeTo (mkPos 1 1 Sample.W1N1) (ArgObject (mkPos 1 1 Sample.W6N1))
    (Num 3) NaN = Ok false
  /\ Lidar.inRangeTo (mkPos 1 1 Sample.W1N1) ArgNull (Num 3) NaN
     = Throw TypeError.
Proof.
  destruct (range_methods_elsewhere
              (Sample.game 1 true Sample.search_step None)
              (mkPos 1 1 Sample.W1N1) (mkPos 1 1 Sample.W6N1) (Num 3) NaN)
    as (Hroom & _ & _ & Hnull).
  split.
  - apply Hroom. vm_compute. discriminate.
  - exact Hnull.
Defined.

Section RoomNames.

Implicit Types (a b : list Z) (west north : bool).

Lemma digits_from_nonneg a n :
  Forall (fun d => 48 <= d <= 57) a -> 0 <= n ->
  0 <= foldl (fun n d => 10 * n + (d - 48)) n a.
Proof.
  intros Ha. revert n. induction Ha as [|d a Hd _ IH]; intros n Hn; cbn; [done|].
  apply IH. lia.
Qed.

Lemma search_NS_digits a (c : Z) b i :
  Forall (fun d => 48 <= d <= 57) a -> c = 78 \/ c = 83 ->
  Lidar.search_NS_from (a ++ c :: b) i = i + Z.of_nat (length a).
Proof.
  intros Ha Hc. revert i. induction Ha as [|d a Hd _ IH]; intros i; cbn.
  - rewrite decide_True by done. lia.
  - rewrite decide_False by lia. rewrite IH. lia.
Qed.

Lemma to_number_digits a :
  Forall (fun d => 48 <= d <= 57) a -> (length a <= 9)%nat ->
  Lidar.to_number a = Some (Lidar.digits_value a).
Proof.
  intros Ha Hlen. unfold Lidar.to_number.
  by rewrite !bool_decide_eq_true_2.
Qed.

(** The code of a well formed room name. *)
Lemma roomNameToXY_room_name west a north b :
  Forall (fun d => 48 <= d <= 57) a -> (length a <= 9)%nat ->
  Forall (fun d => 48 <= d <= 57) b -> (length b <= 9)%nat ->
  Lidar.roomNameToXY (room_name west a north b)
  = Some (world west (Lidar.digits_value a) * Lidar.HEADING_OFFSET
          + world north (Lidar.digits_value b)).
Proof.
  intros Ha Hla Hb Hlb. unfold Lidar.roomNameToXY, room_name.
  set (h := if west then 87 else 69). set (v := if north then 78 else 83).
  assert (Lidar.search_NS (h :: a ++ v :: b) = 1 + Z.of_nat (length a)) as ->.
  { unfold Lidar.search_NS. cbn [Lidar.search_NS_from].
    rewrite decide_False by (subst h; destruct west; lia).
    apply search_NS_digits; [done|]. subst v. destruct north; lia. }
  assert (Lidar.substring2 (h :: a ++ v :: b) 1 (1 + Z.of_nat (length a)) = a)
    as ->.
  { unfold Lidar.substring2. cbn [length]. rewrite length_app. cbn [length].
    match goal with
    | |- take ?n (drop ?m _) = _ =>
        replace n with (length a) by lia; replace m with 1%nat by lia
    end.
    cbn [drop]. rewrite drop_0. apply take_app_length. }
  assert (JS.substring (h :: a ++ v :: b)
            (Z.to_nat (1 + Z.of_nat (length a) + 1)) = b) as ->.
  { unfold JS.substring.
    replace (Z.to_nat (1 + Z.of_nat (length a) + 1))
      with (S (length a + 1)) by lia.
    cbn [drop]. rewrite drop_app_ge by lia.
    by replace (length a + 1 - length a)%nat with 1%nat by lia. }
  rewrite !to_number_digits by done. cbn [mbind option_bind].
  assert ((h :: a ++ v :: b) !! Z.to_nat (1 + Z.of_nat (length a)) = Some v)
    as Hv.
  { replace (Z.to_nat (1 + Z.of_nat (length a))) with (S (length a)) by lia.
    change ((a ++ v :: b) !! length a = Some v). by apply list_lookup_middle. }
  f_equal. unfold world. f_equal.
  - subst h. destruct west; cbn.
    + rewrite decide_True by done. lia.
    + rewrite decide_False by (intros [=]). lia.
  - rewrite Hv. subst v. destruct north.
    + rewrite decide_True by (split; [lia|done]). lia.
    + rewrite decide_False by (intros [_ [=]]). lia.
Qed.

End RoomNames.

(** X5. Between two rooms with well formed names and numbers up to 60,
    [getDirectionTo] takes the step on the world map: the rooms' columns
    and rows, as [roomNameToXY] packs them and the division by
    [HEADING_OFFSET] gives them back, count for 50 tiles each. *)
Theorem getDirectionTo_across_rooms (p q : RoomPosition) (arg2 : number)
  (west west' north north' : bool) (a b a' b' : list Z) :
  Forall (fun d => 48 <= d <= 57) (a ++ b ++ a' ++ b') ->
  Lidar.digits_value a <= 60 -> Lidar.digits_value b <= 60 ->
  Lidar.digits_value a' <= 60 -> Lidar.digits_value b' <= 60 ->
  (length a <= 9)%nat -> (length b <= 9)%nat ->
  (length a' <= 9)%nat -> (length b' <= 9)%nat ->
  roomName p = room_name west a north b ->
  roomName q = room_name west' a' north' b' ->
  roomName p <> roomName q ->
  let column := world west (Lidar.digits_value a) in
  let row := world north (Lidar.digits_value b) in
  let column' := world west' (Lidar.digits_value a') in
  let row' := world north' (Lidar.digits_value b') in
  Lidar.getDirectionTo p (ArgObject q) arg2
  = Some (Lidar.getDirection
            (Num ((column' * 50 + x q) - (column * 50 + x p)))
            (Num ((row' * 50 + y q) - (row * 50 + y p)))).
Proof.
  intros Hd Ha Hb Ha' Hb' Hla Hlb Hla' Hlb' Hp Hq Hne column row column' row'.
  apply Forall_app in Hd as [Hda Hd]. apply Forall_app in Hd as [Hdb Hd].
  apply Forall_app in Hd as [Hda' Hdb'].
  unfold Lidar.getDirectionTo. rewrite decide_False by done.
  rewrite Hp, Hq, !roomNameToXY_room_name by done.
  cbn [mbind option_bind]. fold column row column' row'.
  assert (0 <= row <= 121 /\ 0 <= row' <= 121) as [Hrow Hrow'].
  { pose proof (digits_from_nonneg b 0 Hdb ltac:(lia)).
    pose proof (digits_from_nonneg b' 0 Hdb' ltac:(lia)).
    subst row row'. unfold world, Lidar.digits_value in *.
    destruct north, north'; lia. }
  unfold Lidar.HEADING_OFFSET.
  replace ((column * 122 + row) `div` 122) with column
    by (apply Z.div_unique with row; lia).
  replace ((column' * 122 + row') `div` 122) with column'
    by (apply Z.div_unique with row'; lia).
  do 3 f_equal; lia.
Qed.

Lemma getDirectionTo_across_rooms_witness :
  Lidar.getDirectionTo (mkPos 25 25 (JS.str "W1N1"))
    (ArgObject (mkPos 25 25 (JS.str "W2N1"))) NaN
  = Some (Lidar.getDirection
            (Num ((world true 2 * 50 + 25) - (world true 1 * 50 + 25)))
            (Num ((world true 1 * 50 + 25) - (world true 1 * 50 + 25)))).
Proof.
  apply (getDirectionTo_across_rooms (mkPos 25 25 (JS.str "W1N1"))
           (mkPos 25 25 (JS.str "W2N1")) NaN true true true true
           [49] [49] [50] [49]);
    try (vm_compute; intros; discriminate);
    try reflexivity; try (cbn; lia).
  repeat constructor; lia.
Defined.

(** *** Packed: frozen strings *)

Section Frozen.

Implicit Types (T O bits rest init data : list Z) (i : nat).

Lemma indexOf_from_app T O (c i : Z) :
  c ∈ T -> JS.indexOf_from (T ++ O) c i = JS.indexOf_from T c i.
Proof.
  revert i. induction T as [|a T IH]; intros i Hc; cbn.
  - by apply elem_of_nil in Hc.
  - destruct (decide (a = c)); [done|].
    apply IH. apply elem_of_cons in Hc as [?|?]; [congruence|done].
Qed.

(** The offset of a cost against a table that extends the frozen one:
    its position in the frozen table if it is there, a position past the
    frozen table otherwise. *)
Lemma offset_of_frozen T O (c offset : Z) O1 :
  T `prefix_of` O ->
  CostMatrix.offset_of O c = (offset, O1) ->
  (c ∈ T -> T !! Z.to_nat offset = Some c)
  /\ (c ∉ T -> (length T <= Z.to_nat offset)%nat).
Proof.
  intros [k ->] Ho. split.
  - intros Hc. unfold CostMatrix.offset_of, JS.indexOf in Ho.
    rewrite indexOf_from_app in Ho by done.
    destruct (indexOf_from_present T c 0 Hc) as [Hr Hl].
    destruct (decide (JS.indexOf_from T c 0 = -1)); [lia|].
    injection Ho as <- <-. by rewrite Z.sub_0_r in Hl.
  - intros Hc. apply offset_of_spec in Ho as (Hoff & Hlook & Hcase).
    destruct (decide (length T <= Z.to_nat offset)%nat) as [|Hlt]; [done|].
    exfalso. apply Hc.
    assert ((T ++ k) !! Z.to_nat offset = Some c) as Hin.
    { destruct Hcase as [[_ ->]|[_ ->]]; [done|].
      rewrite <- app_assoc in Hlook.
      by rewrite lookup_app_l in Hlook |- * by lia. }
    rewrite lookup_app_l in Hin by lia. by eapply list_elem_of_lookup_2.
Qed.

Lemma frozen_overlay_zeros T rest :
  frozen_overlay T rest (replicate (length rest) 0) = frozen_cells T rest.
Proof.
  induction rest as [|c rest IH]; cbn; [done|].
  rewrite IH. f_equal. destruct (decide (c = 0)) as [->|]; [|done].
  by destruct (decide _).
Qed.

(** What the scan appends decodes, against the frozen table, to the
    costs the frozen table holds and to 0 elsewhere. *)
Lemma pack_loop_frozen T rest i costMap O costMap' O' :
  CostMatrix.pack_loop rest (Z.of_nat i) costMap O = (costMap', O') ->
  T `prefix_of` O -> (length O' <= 22)%nat ->
  exists new, costMap' = costMap ++ new
    /\ ((i + length rest <= 2500)%nat ->
        Forall (fun v => 0 <= v < 55000) new
        /\ forall init, (i + length rest <= length init)%nat ->
           Forall (fun c => 0 <= c <= 255) rest ->
           CostMatrix.unpack_loop (Some <$> T) (JS.fromCharCode new) init
           = take i init ++ frozen_overlay T rest (drop i init)
             ++ drop (i + length rest) init).
Proof.
  revert i costMap O.
  induction rest as [|c rest IH]; intros i costMap O H HT Hlen; simpl in H.
  - injection H as <- <-. exists []. split; [by rewrite app_nil_r|].
    intros _. split; [constructor|]. intros init _ _. simpl.
    destruct (drop i init); by rewrite Nat.add_0_r, take_drop.
  - destruct (decide (c = 0)) as [->|Hc].
    + replace (Z.of_nat i + 1) with (Z.of_nat (S i)) in H by lia.
      destruct (IH _ _ _ H HT Hlen) as (new & -> & Hdec).
      exists new. split; [done|]. intros Hi. simpl in Hi.
      destruct Hdec as [Hfa Hrt]; [lia|].
      split; [done|]. intros init Hinit Hbytes. simpl in Hinit.
      rewrite Hrt; [|lia|by inversion Hbytes].
      destruct (lookup_lt_is_Some_2 init i) as [o Ho]; [lia|].
      rewrite (take_S_r _ _ _ Ho), (drop_S _ _ _ Ho). simpl.
      rewrite <- app_assoc. simpl. by rewrite Nat.add_succ_r.
    + destruct (CostMatrix.offset_of O c) as [offset O1] eqn:Ho.
      replace (Z.of_nat i + 1) with (Z.of_nat (S i)) in H by lia.
      pose proof (offset_of_prefix _ _ _ _ Ho) as Hpre1.
      destruct (pack_loop_decode _ _ _ _ _ _ H) as [Hpre' _].
      destruct (IH _ _ _ H ltac:(by etrans) Hlen) as (new & -> & Hdec).
      exists ((Z.of_nat i * SPACER + offset) :: new).
      split; [by rewrite <- app_assoc|].
      intros Hi. simpl in Hi. destruct Hdec as [Hfa Hrt]; [lia|].
      destruct (offset_of_frozen T O c offset O1 HT Ho) as [Hin Hout].
      apply offset_of_spec in Ho as (Hoff & Hlook & _).
      assert (0 <= offset < 22) as Hoff22.
      { apply prefix_length in Hpre'. lia. }
      unfold SPACER in *.
      split; [constructor; [lia|done]|].
      intros init Hinit Hbytes. simpl in Hinit.
      apply Forall_cons in Hbytes as [Hcb Hbytes].
      rewrite unpack_loop_cons. unfold JS.ToUint16, SPACER.
      rewrite (Z.mod_small (_ + _)) by lia.
      rewrite Z.quot_div_nonneg, Z.rem_mod_nonneg by lia.
      replace ((Z.of_nat i * 22 + offset) `div` 22) with (Z.of_nat i)
        by (apply Z.div_unique with offset; lia).
      replace ((Z.of_nat i * 22 + offset) `mod` 22) with offset
        by (apply Z.mod_unique with (Z.of_nat i); lia).
      assert (JS.element_or_0 (Some <$> T) offset
              = if decide (c ∈ T) then c else 0) as ->.
      { unfold JS.element_or_0. rewrite decide_True by lia.
        rewrite list_lookup_fmap. destruct (decide (c ∈ T)) as [Hc'|Hc'].
        - by rewrite (Hin Hc').
        - by rewrite (lookup_ge_None_2 T (Z.to_nat offset)) by (by apply Hout). }
      unfold JS.typed_set, JS.ToUint8. rewrite decide_True by lia.
      rewrite Nat2Z.id.
      rewrite (Z.mod_small (if decide (c ∈ T) then c else 0))
        by (destruct (decide _); lia).
      rewrite Hrt; [|rewrite length_insert; lia|done].
      destruct (lookup_lt_is_Some_2 init i) as [o Hoi]; [lia|].
      rewrite (drop_S _ _ _ Hoi). cbn [frozen_overlay length].
      rewrite (decide_False (P := c = 0)) by done.
      rewrite (take_S_r (<[i:=if decide (c ∈ T) then c else 0]> init) i
                 (if decide (c ∈ T) then c else 0))
        by (apply list_lookup_insert_eq; lia).
      rewrite take_insert_ge by lia. rewrite !drop_insert_lt by lia.
      rewrite <- app_assoc. simpl. by rewrite Nat.add_succ_r.
Qed.

Lemma pretty_digit (n : nat) :
  (n <= 9)%nat -> JS.str (pretty.pretty (Z.of_nat n)) = [48 + Z.of_nat n].
Proof.
  intros Hn. do 10 (destruct n as [|n]; [reflexivity|]). lia.
Qed.

Lemma lookups_middle (pre mid post : list Z) :
  (fun i => JS.charCodeAt (pre ++ mid ++ post) i) <$> seq (length pre) (length mid)
  = Some <$> mid.
Proof.
  apply list_eq. intros i. rewrite !list_lookup_fmap.
  destruct (decide (i < length mid)%nat) as [Hi|Hi].
  - rewrite lookup_seq_lt by done. cbn. unfold JS.charCodeAt.
    rewrite lookup_app_r by lia.
    replace (length pre + i - length pre)%nat with i by lia.
    rewrite lookup_app_l by done.
    by destruct (lookup_lt_is_Some_2 mid i Hi) as [c ->].
  - rewrite lookup_seq_ge by lia. by rewrite lookup_ge_None_2 by lia.
Qed.

(** A frozen string is decoded against the table in its header, whatever
    table the module holds. *)
Lemma unpack_frozen T data (any : list Z) :
  (length T <= 9)%nat -> Forall (fun c => 0 <= c < 65536) T ->
  Packed.unpack (TRIGGER :: JS.str (pretty.pretty (Z.of_nat (length T)))
                 ++ JS.fromCharCode T ++ data) any
  = mkCostMatrix
      (CostMatrix.unpack_loop (Some <$> T) data (replicate 2500 0)) [].
Proof.
  intros Hlen Hsmall. rewrite pretty_digit by done.
  assert (JS.fromCharCode T = T) as ->.
  { unfold JS.fromCharCode. induction Hsmall as [|c T Hc _ IH]; [done|].
    cbn. rewrite IH by (cbn in Hlen; lia). f_equal.
    unfold JS.ToUint16. apply Z.mod_small. lia. }
  unfold Packed.unpack. rewrite decide_True by done.
  unfold Packed._deserializeOffset. cbn [lookup list_lookup app].
  unfold JS.parseInt_char. rewrite decide_True by lia.
  replace (Z.to_nat (48 + Z.of_nat (length T) - 48)) with (length T) by lia.
  pose proof (lookups_middle [TRIGGER; 48 + Z.of_nat (length T)] T data) as Hc.
  cbn [length app] in Hc. rewrite Hc. rewrite length_fmap.
  replace (0 + length T + 2)%nat with (S (S (length T))) by lia.
  cbn [drop]. by rewrite drop_app_length.
Qed.

End Frozen.

Lemma frozen_scan_cells (S offsets bits : list Z) :
  length bits = 2500%nat ->
  Forall (fun c => 0 <= c <= 255) bits ->
  NoDup S -> (length S <= 22)%nat ->
  NoDup offsets -> offsets ⊆ S ->
  (forall c, c ∈ bits -> c <> 0 -> c ∈ S) ->
  (length offsets <= 9)%nat -> Forall (fun c => 0 <= c < 65536) offsets ->
  exists packed m,
    Packed.pack true (mkCostMatrix bits []) offsets = (packed, m, offsets)
    /\ forall any,
         _bits (Packed.unpack packed any) = frozen_cells offsets bits.
Proof.
  intros Hlen Hbytes HS HS22 Hnd Hsub Hcosts Hnine Hsmall.
  unfold Packed.pack. cbn [_costMap _bits length].
  rewrite decide_False by lia.
  destruct (CostMatrix.pack_loop bits 0 [] offsets) as [costMap o'] eqn:Hloop.
  eexists _, _. split; [reflexivity|].
  destruct (pack_loop_alphabet S _ _ _ _ _ _ Hloop Hnd Hsub Hcosts)
    as [Hnd' Hsub'].
  pose proof (alphabet_bound S o' Hnd' Hsub') as Hbound.
  destruct (pack_loop_frozen offsets bits 0 [] offsets costMap o' Hloop)
    as (new & -> & Hdec); [done|lia|].
  destruct Hdec as [Hfa Hrt]; [lia|].
  intros any. rewrite <- app_comm_cons, <- app_assoc.
  rewrite unpack_frozen by done. cbn [_bits app].
  rewrite Hrt; [|rewrite length_replicate; lia|done].
  rewrite take_0, drop_0, app_nil_l.
  rewrite drop_ge by (rewrite length_replicate; lia).
  rewrite app_nil_r, <- Hlen. apply frozen_overlay_zeros.
Qed.

(** X6. Frozen scan.  [pack(true)] of a grid whose [costMap] is empty
    leaves [OFFSETS] as it was, and the string unpacks, whatever
    [OFFSETS] holds by then, to the grid with every cost that [OFFSETS]
    did not hold at packing replaced by 0: to the grid itself exactly
    when [OFFSETS] held all its costs.  [OFFSETS] holds at most nine
    costs, its length being read back from one digit. *)
Theorem frozen_scan_keeps_known_costs (S offsets bits : list Z) :
  length bits = 2500%nat ->
  Forall (fun c => 0 <= c <= 255) bits ->
  NoDup S -> (length S <= 22)%nat ->
  NoDup offsets -> offsets ⊆ S ->
  (forall c, c ∈ bits -> c <> 0 -> c ∈ S) ->
  (length offsets <= 9)%nat -> Forall (fun c => 0 <= c < 65536) offsets ->
  exists packed m,
    Packed.pack true (mkCostMatrix bits []) offsets = (packed, m, offsets)
    /\ forall any,
         _bits (Packed.unpack packed any) = frozen_cells offsets bits
         /\ (_bits (Packed.unpack packed any) = bits
             <-> forall c, c ∈ bits -> c <> 0 -> c ∈ offsets).
Proof.
  intros Hlen Hbytes HS HS22 Hnd Hsub Hcosts Hnine Hsmall.
  destruct (frozen_scan_cells S offsets bits) as (packed & m & Hp & Hcells);
    try done.
  exists packed, m. split; [done|]. intros any. split; [apply Hcells|].
  rewrite Hcells. unfold frozen_cells. split.
  - intros Heq c Hc Hne. apply list_elem_of_lookup in Hc as [i Hi].
    assert (((fun c => if decide (c ∈ offsets) then c else 0) <$> bits) !! i
            = Some c) as Hi' by (by rewrite Heq).
    rewrite list_lookup_fmap, Hi in Hi'. cbn in Hi'.
    destruct (decide (c ∈ offsets)); [done|]. congruence.
  - intros Hall. apply list_eq. intros i. rewrite list_lookup_fmap.
    destruct (bits !! i) as [c|] eqn:Hi; [|done]. cbn. f_equal.
    destruct (decide (c ∈ offsets)) as [|Hout]; [done|].
    destruct (decide (c = 0)) as [->|Hne]; [done|].
    exfalso. apply Hout, Hall; [|done]. by eapply list_elem_of_lookup_2.
Qed.

Lemma frozen_scan_keeps_known_costs_witness :
  exists packed m,
    Packed.pack true (Sample.one_cell 255) [255] = (packed, m, [255])
    /\ forall any,
         _bits (Packed.unpack packed any) = frozen_cells [255] (_bits (Sample.one_cell 255))
         /\ (_bits (Packed.unpack packed any) = _bits (Sample.one_cell 255)
             <-> forall c, c ∈ _bits (Sample.one_cell 255) -> c <> 0 -> c ∈ [255]).
Proof.
  apply (frozen_scan_keeps_known_costs [255] [255] (_bits (Sample.one_cell 255))).
  - reflexivity.
  - apply (bool_decide_unpack _). vm_compute. exact I.
  - apply (bool_decide_unpack _). vm_compute. exact I.
  - simpl. lia.
  - apply (bool_decide_unpack _). vm_compute. exact I.
  - apply (bool_decide_unpack _). vm_compute. exact I.
  - intros c Hc Hne. unfold Sample.one_cell in Hc. cbn [_bits] in Hc.
    apply elem_of_cons in Hc as [->|Hc].
    + by left.
    + apply elem_of_replicate in Hc as [-> _]. done.
  - simpl. lia.
  - apply (bool_decide_unpack _). vm_compute. exact I.
Defined.

(** X7. Frozen round trip.  A grid filled from a new instance by [update]
    calls alone and packed with [pack(true)] comes back cell for cell
    from [unpack] whatever [OFFSETS] holds by then, [OFFSETS] being left
    as it was, provided the costs in circulation belong to one alphabet
    of at most nine values below 65536. *)
Theorem frozen_round_trip (S offsets any : list Z) (ups : list (Z * Z * Z)) :
  NoDup S -> (length S <= 9)%nat -> Forall (fun c => 0 <= c < 65536) S ->
  NoDup offsets -> offsets ⊆ S ->
  Forall (fun '(px, py, c) =>
            0 <= px <= 49 /\ 0 <= py <= 49 /\ 0 <= c <= 255 /\ c ∈ S) ups ->
  let '(grid, table) := updated offsets ups in
  exists packed m,
    Packed.pack true grid table = (packed, m, table)
    /\ _bits (Packed.unpack packed any) = _bits grid.
Proof.
  intros HS HS9 Hsmall Hnd Hsub Hups.
  destruct (updated_decode S offsets ups HS ltac:(lia) Hnd Hsub Hups)
    as (Hnd' & Hsub' & Hlen & Hcm & Hfilled & Hdec).
  destruct (updated offsets ups) as [grid table] eqn:Hu. cbn [fst snd] in *.
  pose proof (alphabet_bound S table Hnd' Hsub') as Hbound.
  assert (Forall (fun c => 0 <= c < 65536) table) as Htable.
  { apply Forall_forall. intros c Hc.
    by apply (proj1 (Forall_forall _ _) Hsmall), Hsub'. }
  destruct ups as [|u ups].
  - injection Hu as <- <-.
    destruct (frozen_scan_cells S offsets (replicate 2500 0))
      as (packed & m & Hp & Hcells); try done.
    + apply Forall_replicate. lia.
    + lia.
    + intros c [-> _]%elem_of_replicate. done.
    + pose proof (alphabet_bound S offsets Hnd Hsub). lia.
    + exists packed, m. split; [done|]. rewrite (Hcells any).
      unfold frozen_cells. cbn [_bits CostMatrix.new].
      rewrite fmap_replicate. by destruct (decide _).
  - unfold Packed.pack. rewrite decide_True; last first.
    { destruct (_costMap grid); [by destruct Hfilled|]. cbn. lia. }
    eexists _, _. split; [reflexivity|].
    rewrite <- app_comm_cons, <- app_assoc.
    rewrite unpack_frozen by (done || lia). cbn [_bits].
    rewrite fromCharCode_small by done. by apply Hdec.
Qed.

Lemma frozen_round_trip_witness :
  let '(grid, table) := updated [] [(10, 10, 255); (10, 11, 1)] in
  exists packed m,
    Packed.pack true grid table = (packed, m, table)
    /\ _bits (Packed.unpack packed [7]) = _bits grid.
Proof.
  apply (frozen_round_trip [255; 1] [] [7] [(10, 10, 255); (10, 11, 1)]).
  - apply (bool_decide_unpack _). vm_compute. exact I.
  - simpl. lia.
  - repeat constructor; lia.
  - constructor.
  - apply (bool_decide_unpack _). vm_compute. exact I.
  - repeat constructor; lia.
Defined.

(** *** The table grows, the strings stay *)

Section Growth.

Implicit Types (T more values init rest : list Z).

Lemma unpack_loop_extends T more values init :
  Forall (fun v => 0 <= v /\ (Z.to_nat (Z.rem v SPACER) < length T)%nat) values ->
  CostMatrix.unpack_loop (Some <$> T ++ more) values init
  = CostMatrix.unpack_loop (Some <$> T) values init.
Proof.
  intros Hv. revert init. unfold CostMatrix.unpack_loop.
  induction Hv as [|v values [Hv Hr] _ IH]; intros init; cbn [foldl]; [done|].
  rewrite IH. f_equal. f_equal. unfold JS.element_or_0.
  assert (0 <= Z.rem v SPACER) by (apply Z.rem_nonneg; unfold SPACER; lia).
  rewrite !decide_True by done.
  by rewrite !list_lookup_fmap, lookup_app_l.
Qed.

(** The offsets the scan writes are positions of the table it leaves. *)
Lemma pack_loop_offsets rest (i : nat) costMap O costMap' O' :
  CostMatrix.pack_loop rest (Z.of_nat i) costMap O = (costMap', O') ->
  (length O' <= 22)%nat -> (i + length rest <= 2500)%nat ->
  exists new, costMap' = costMap ++ new
    /\ Forall (fun v => 0 <= v < 55000
                        /\ (Z.to_nat (Z.rem v SPACER) < length O')%nat) new.
Proof.
  revert i costMap O.
  induction rest as [|c rest IH]; intros i costMap O H Hlen Hi; simpl in H.
  - injection H as <- <-. exists []. by rewrite app_nil_r.
  - simpl in Hi. replace (Z.of_nat i + 1) with (Z.of_nat (S i)) in H by lia.
    destruct (decide (c = 0)) as [->|Hc].
    + destruct (IH _ _ _ H Hlen) as (new & -> & Hnew); [lia|]. by exists new.
    + destruct (CostMatrix.offset_of O c) as [offset O1] eqn:Ho.
      destruct (pack_loop_decode _ _ _ _ _ _ H) as [Hpre' _].
      destruct (IH _ _ _ H Hlen) as (new & -> & Hnew); [lia|].
      exists ((Z.of_nat i * SPACER + offset) :: new).
      split; [by rewrite <- app_assoc|]. constructor; [|done].
      apply offset_of_spec in Ho as (Hoff & _ & _).
      apply prefix_length in Hpre'. unfold SPACER.
      rewrite Z.rem_mod_nonneg by lia.
      replace ((Z.of_nat i * 22 + offset) `mod` 22) with offset
        by (apply Z.mod_unique with (Z.of_nat i); lia).
      lia.
Qed.

End Growth.

(** X8. A string that [pack] made is decoded the same against every table
    that extends the one [pack] left: the costs pushed to [OFFSETS]
    later, by other grids, do not change what it unpacks to.  This holds
    for a scanned grid of at most 2500 cells, as long as the table
    [pack] left has at most 22 entries, and for a grid filled by
    [update] calls within one alphabet of at most 22 costs. *)
Theorem packed_string_outlives_growth (S offsets bits more : list Z)
  (ups : list (Z * Z * Z)) :
  (forall packed m offsets',
     (length bits <= 2500)%nat ->
     CostMatrix.pack (mkCostMatrix bits []) offsets = (packed, m, offsets') ->
     (length offsets' <= 22)%nat ->
     CostMatrix.unpack packed (offsets' ++ more)
     = CostMatrix.unpack packed offsets')
  /\ (NoDup S -> (length S <= 22)%nat -> NoDup offsets -> offsets ⊆ S ->
      Forall (fun '(px, py, c) =>
                0 <= px <= 49 /\ 0 <= py <= 49 /\ 0 <= c <= 255 /\ c ∈ S) ups ->
      let '(grid, table) := updated offsets ups in
      forall packed m offsets',
        CostMatrix.pack grid table = (packed, m, offsets') ->
        _bits (CostMatrix.unpack packed (offsets' ++ more)) = _bits grid).
Proof.
  split.
  - intros packed m offsets' Hlen Hpack Htable.
    rewrite pack_scans in Hpack.
    destruct (CostMatrix.pack_loop bits 0 [] offsets) as [costMap o'] eqn:Hloop.
    injection Hpack as <- <- <-.
    destruct (pack_loop_offsets bits 0 [] offsets costMap o' Hloop)
      as (new & -> & Hnew); [done|lia|].
    rewrite app_nil_l.
    assert (Forall (fun v => 0 <= v < 55000) new) as Hsmall.
    { eapply Forall_impl; [exact Hnew|]. by intros v [? _]. }
    rewrite fromCharCode_small, !unpack_plain by done. f_equal.
    apply unpack_loop_extends.
    eapply Forall_impl; [exact Hnew|]. intros v [? ?]. split; [lia|done].
  - intros HS HS22 Hnd Hsub Hups.
    destruct (updated_decode S offsets ups HS HS22 Hnd Hsub Hups)
      as (Hnd' & Hsub' & Hlen & Hsmall & Hfilled & Hdec).
    destruct ups as [|u ups].
    + cbn. intros packed m offsets' Hpack.
      change CostMatrix.new with (mkCostMatrix (replicate 2500 0) []) in Hpack.
      rewrite pack_scans in Hpack.
      destruct (CostMatrix.pack_loop (replicate 2500 0) 0 [] offsets)
        as [costMap o'] eqn:Hloop.
      injection Hpack as <- <- <-.
      destruct (pack_loop_alphabet S _ _ _ _ _ _ Hloop Hnd Hsub)
        as [Hnd1 Hsub1].
      { intros c [-> _]%elem_of_replicate. done. }
      pose proof (alphabet_bound S o' Hnd1 Hsub1) as Hbound.
      destruct (pack_loop_decode (replicate 2500 0) 0 [] offsets costMap o'
                  Hloop) as (_ & new & -> & Hd).
      destruct (pack_loop_offsets (replicate 2500 0) 0 [] offsets _ o' Hloop)
        as (new' & Heq & Hnew); [lia|rewrite length_replicate; lia|].
      rewrite !app_nil_l in *. subst new'.
      destruct (Hd o') as [Hsm Hrt];
        [done|lia|rewrite length_replicate; lia|].
      rewrite fromCharCode_small, unpack_plain by done. cbn [_bits].
      rewrite unpack_loop_extends.
      * rewrite <- (fromCharCode_small new) by done.
        rewrite Hrt; [|rewrite !length_replicate; lia
                      |apply Forall_replicate; lia].
        rewrite take_0, drop_0, app_nil_l.
        rewrite drop_ge by (rewrite !length_replicate; lia).
        rewrite app_nil_r.
        pose proof (overlay_zeros (replicate 2500 0)) as Hz.
        by rewrite length_replicate in Hz.
      * eapply Forall_impl; [exact Hnew|]. intros v [? ?]. split; [lia|done].
    + destruct (updated offsets (u :: ups)) as [grid table].
      cbn [fst snd] in *. intros packed m offsets'.
      unfold CostMatrix.pack. rewrite decide_True; last first.
      { destruct (_costMap grid); [by destruct Hfilled|]. cbn. lia. }
      intros [= <- <- <-]. rewrite fromCharCode_small by done.
      rewrite unpack_plain by done. cbn [_bits].
      apply Hdec. by apply prefix_app_r.
Qed.

Lemma packed_string_outlives_growth_witness :
  CostMatrix.unpack [0] ([255] ++ [7; 9]) = CostMatrix.unpack [0] [255]
  /\ (let '(grid, table) := updated [] [(10, 10, 255); (10, 11, 1)] in
      let '(packed, _, table') := CostMatrix.pack grid table in
      _bits (CostMatrix.unpack packed (table' ++ [7; 9])) = _bits grid).
Proof.
  destruct (packed_string_outlives_growth [255; 1] []
              (_bits (Sample.one_cell 255)) [7; 9]
              [(10, 10, 255); (10, 11, 1)]) as [Hscan Hupdated].
  split.
  - apply Hscan with (m := mkCostMatrix (_bits (Sample.one_cell 255)) [0]).
    + vm_compute. lia.
    + vm_compute. reflexivity.
    + simpl. lia.
  - assert (Forall (fun '(px, py, c) =>
                      0 <= px <= 49 /\ 0 <= py <= 49 /\ 0 <= c <= 255
                      /\ c ∈ [255; 1])
              [(10, 10, 255); (10, 11, 1)]) as Hups.
    { repeat constructor; lia. }
    assert (NoDup [255; 1]) as Hnd.
    { apply (bool_decide_unpack _). vm_compute. exact I. }
    specialize (Hupdated Hnd ltac:(simpl; lia) ltac:(constructor)
                  ltac:(apply (bool_decide_unpack _); vm_compute; exact I)
                  Hups).
    destruct (updated [] [(10, 10, 255); (10, 11, 1)]) as [grid table].
    destruct (CostMatrix.pack grid table) as [[packed m] table'] eqn:Hpack.
    by apply (Hupdated packed m table').
Defined.

(** The scan writes one entry for each cell that is not 0. *)
Lemma pack_loop_nothing (rest : list Z) (i : Z) (costMap O O' : list Z) :
  CostMatrix.pack_loop rest i costMap O = (costMap, O') ->
  forall j X, CostMatrix.pack_loop rest j [] X = ([], X).
Proof.
  revert i costMap O. induction rest as [|c rest IH]; intros i costMap O H j X;
    simpl in *; [done|].
  destruct (decide (c = 0)); [by eapply IH|].
  destruct (CostMatrix.offset_of O c) as [offset O1].
  exfalso.
  assert (forall r k cm o cm' o',
    CostMatrix.pack_loop r k cm o = (cm', o') ->
    (length cm <= length cm')%nat) as Hgrow.
  { clear. induction r as [|c r IH]; intros k cm o cm' o' H; simpl in H.
    - by injection H as <- _.
    - destruct (decide (c = 0)); [by eapply IH|].
      destruct (CostMatrix.offset_of o c) as [off o1].
      apply IH in H. rewrite length_app in H. lia. }
  apply Hgrow in H. rewrite length_app in H. cbn in H. lia.
Qed.

(** X9. [pack] can be repeated: a second call on the instance returns the
    same string and leaves the instance and [OFFSETS] as the first call
    left them. *)
Theorem pack_again (m : CostMatrix) (offsets : list Z) :
  let '(packed, m1, offsets1) := CostMatrix.pack m offsets in
  CostMatrix.pack m1 offsets1 = (packed, m1, offsets1).
Proof.
  unfold CostMatrix.pack.
  destruct (decide (0 < Z.of_nat (length (_costMap m)))) as [Hfilled|Hempty].
  - by rewrite decide_True.
  - destruct (_costMap m) as [|v cm] eqn:Hcm; [|cbn in Hempty; lia].
    destruct (CostMatrix.pack_loop (_bits m) 0 [] offsets) as [costMap o1]
      eqn:Hloop.
    cbn [_costMap _bits]. destruct costMap as [|v costMap].
    + rewrite decide_False by (cbn; lia).
      by rewrite (pack_loop_nothing _ _ _ _ _ Hloop 0 o1).
    + by rewrite decide_True by (cbn; lia).
Qed.

(** X10. [update] keeps two values of a cost: the grid takes the cost cut
    to 0..255, the table the cost as given.  So the cell of a new
    instance written by [update] holds the cut cost, while the cell
    [unpack] gives back for the packed instance holds the cost modulo
    256: for a cost outside 0..255 the two differ in general. *)
Theorem update_packs_raw_cost (px py c : Z) (offsets : list Z) :
  0 <= px <= 49 -> 0 <= py <= 49 -> (length offsets < 22)%nat ->
  let '(m, o) := CostMatrix.update CostMatrix.new px py c offsets in
  let '(packed, m1, o1) := CostMatrix.pack m o in
  o1 = o /\ c ∈ o
  /\ CostMatrix.get m1 px py = Some (Z.min (Z.max 0 c) 255)
  /\ CostMatrix.get (CostMatrix.unpack packed o1) px py = Some (c mod 256).
Proof.
  intros Hpx Hpy Hlen. unfold CostMatrix.update.
  destruct (CostMatrix.offset_of offsets c) as [offset o] eqn:Ho.
  destruct (offset_of_spec _ _ _ _ Ho) as (Hrange & Hlook & Hcase).
  assert (0 <= offset < 22) as Hoff.
  { destruct Hcase as [[_ ->]|[_ ->]]; [lia|].
    rewrite length_app in Hrange. cbn in Hrange. lia. }
  cbn [_costMap CostMatrix.new app]. unfold CostMatrix.pack. cbn [_costMap].
  rewrite decide_True by (cbn; lia).
  assert (Forall (fun v => 0 <= v < 55000) [(px * 50 + py) * SPACER + offset])
    as Hsmall.
  { constructor; [|done]. unfold SPACER. lia. }
  rewrite fromCharCode_small by done. split_and!; try done.
  - by apply list_elem_of_lookup_2 in Hlook.
  - unfold CostMatrix.get, CostMatrix.new. cbn [_bits].
    unfold JS.typed_set, JS.ToUint8. rewrite !decide_True by lia.
    rewrite list_lookup_insert_eq by (rewrite length_replicate; lia).
    f_equal. apply Z.mod_small. lia.
  - rewrite unpack_plain by done. unfold CostMatrix.get. cbn [_bits].
    rewrite decide_True by lia. unfold CostMatrix.unpack_loop. cbn [foldl].
    unfold SPACER.
    replace (Z.quot ((px * 50 + py) * 22 + offset) 22) with (px * 50 + py)
      by (rewrite Z.quot_div_nonneg by lia;
          rewrite Z.div_add_l by lia; rewrite Z.div_small by lia; lia).
    replace (Z.rem ((px * 50 + py) * 22 + offset) 22) with offset
      by (rewrite Z.rem_mod_nonneg by lia;
          rewrite Z.add_comm, Z.mod_add by lia; by rewrite Z.mod_small by lia).
    unfold JS.element_or_0. rewrite decide_True by lia.
    rewrite list_lookup_fmap, Hlook. change (Some <$> Some c) with (Some (Some c)).
    cbv beta iota. unfold JS.typed_set, JS.ToUint8. rewrite decide_True by lia.
    by rewrite list_lookup_insert_eq by (rewrite length_replicate; lia).
Qed.

Lemma update_packs_raw_cost_witness :
  let '(m, o) := CostMatrix.update CostMatrix.new 0 0 300 [] in
  let '(packed, m1, o1) := CostMatrix.pack m o in
  CostMatrix.get m1 0 0 = Some 255
  /\ CostMatrix.get (CostMatrix.unpack packed o1) 0 0 = Some 44.
Proof.
  pose proof (update_packs_raw_cost 0 0 300 []) as H.
  destruct (CostMatrix.update CostMatrix.new 0 0 300 []) as [m o].
  destruct (CostMatrix.pack m o) as [[packed m1] o1].
  destruct H as (_ & _ & Hm & Hu); [lia|lia|simpl; lia|].
  split; [exact Hm|exact Hu].
Defined.

Lemma pretty_two_digits (n : nat) :
  (10 <= n <= 99)%nat ->
  JS.str (pretty.pretty (Z.of_nat n))
  = [48 + Z.of_nat n `div` 10; 48 + Z.of_nat n `mod` 10].
Proof.
  intros Hn.
  assert (Forall (fun n : nat =>
                    JS.str (pretty.pretty (Z.of_nat n))
                    = [48 + Z.of_nat n `div` 10; 48 + Z.of_nat n `mod` 10])
            (seq 10 90)) as Hall.
  { apply (bool_decide_unpack _). vm_compute. exact I. }
  apply (proj1 (Forall_forall _ _) Hall). apply elem_of_seq. lia.
Qed.

(** X11. The header of a frozen string holds the length of [OFFSETS] in
    decimal, and [_deserializeOffset] reads one character of it.  With
    ten to ninety-nine entries in [OFFSETS], the table [unpack] decodes
    against is not the frozen one: it has as many entries as the tens
    digit says, the first of them the code of the units digit, and then
    the first entries of [OFFSETS], each one place late. *)
Theorem frozen_header_is_read_by_one_digit (m : CostMatrix)
  (OFFSETS : list Z) :
  (10 <= length OFFSETS <= 99)%nat ->
  Forall (fun c => 0 <= c < 65536) OFFSETS ->
  let tens := (length OFFSETS / 10)%nat in
  let units := Z.of_nat (length OFFSETS) `mod` 10 in
  Packed._deserializeOffset (Packed.pack true m OFFSETS).1.1
  = Some <$> (48 + units :: take (tens - 1) OFFSETS).
Proof.
  intros Hlen Hsmall. cbv zeta.
  assert (JS.fromCharCode OFFSETS = OFFSETS) as Hcodes.
  { clear Hlen. unfold JS.fromCharCode.
    induction Hsmall as [|c T Hc _ IH]; [done|].
    cbn. rewrite IH. f_equal. unfold JS.ToUint16. apply Z.mod_small. lia. }
  assert (exists data,
    (Packed.pack true m OFFSETS).1.1
    = TRIGGER :: JS.str (pretty.pretty (Z.of_nat (length OFFSETS)))
              ++ OFFSETS ++ data) as [data ->].
  { unfold Packed.pack. rewrite Hcodes. destruct (decide _).
    - eexists. cbn [fst]. by rewrite <- app_comm_cons, <- app_assoc.
    - destruct (CostMatrix.pack_loop _ _ _ _) as [costMap offsets].
      eexists. cbn [fst]. by rewrite <- app_comm_cons, <- app_assoc. }
  rewrite pretty_two_digits by done.
  unfold Packed._deserializeOffset. cbn [lookup list_lookup app].
  unfold JS.parseInt_char.
  pose proof (Z.div_pos (Z.of_nat (length OFFSETS)) 10 ltac:(lia) ltac:(lia)).
  assert (Z.of_nat (length OFFSETS) `div` 10 <= 9)
    by (apply Z.lt_succ_r, Z.div_lt_upper_bound; lia).
  assert (1 <= Z.of_nat (length OFFSETS) `div` 10)
    by (apply Z.div_le_lower_bound; lia).
  rewrite decide_True by lia.
  replace (Z.to_nat (48 + Z.of_nat (length OFFSETS) `div` 10 - 48))
    with (length OFFSETS / 10)%nat
    by (rewrite <- (Nat2Z.id (length OFFSETS / 10));
        rewrite Nat2Z.inj_div; f_equal; lia).
  assert (1 <= length OFFSETS / 10)%nat as Htens.
  { apply Nat.div_le_lower_bound; lia. }
  assert (length OFFSETS / 10 <= length OFFSETS)%nat as Hshort.
  { apply Nat.Div0.div_le_upper_bound. lia. }
  destruct (length OFFSETS / 10)%nat as [|tens] eqn:Ht; [lia|].
  cbn [seq]. rewrite !fmap_cons. unfold JS.charCodeAt at 1.
  cbn [lookup list_lookup]. f_equal.
  replace (S tens - 1)%nat with tens by lia.
  apply list_eq. intros i. rewrite !list_lookup_fmap.
  destruct (decide (i < tens)%nat) as [Hi|Hi].
  - rewrite lookup_seq_lt by done. cbn [fmap option_fmap option_map].
    unfold JS.charCodeAt.
    change (Some ((?a :: ?b :: ?c :: ?l) !! (3 + i)%nat)) with (Some (l !! i)).
    rewrite lookup_app_l by lia. rewrite lookup_take_lt by done.
    by destruct (lookup_lt_is_Some_2 OFFSETS i ltac:(lia)) as [c ->].
  - rewrite lookup_seq_ge by lia. rewrite lookup_take_ge by lia. done.
Qed.

Lemma frozen_header_is_read_by_one_digit_witness :
  Packed._deserializeOffset
    (Packed.pack true CostMatrix.new (seqZ 1 11)).1.1
  = Some <$> (48 + Z.of_nat (length (seqZ 1 11)) `mod` 10
              :: take (length (seqZ 1 11) / 10 - 1) (seqZ 1 11)).
Proof.
  apply (frozen_header_is_read_by_one_digit CostMatrix.new (seqZ 1 11)).
  - vm_compute. lia.
  - apply (bool_decide_unpack _). vm_compute. exact I.
Defined.

(** *** Terrain and areas *)

Section Terrain.

Implicit Types (G : Game) (terrains : gmap (list Z) (Z -> Z -> Z))
  (room : list Z) (tiles : list (Z * Z)).

Lemma isWallAt_cached G (tx ty : Z) room terrains :
  Atlas.isWallAt G tx ty room terrains
  = (bool_decide (terrain_of G terrains room tx ty = TERRAIN_MASK_WALL),
     cached G terrains room).
Proof.
  unfold Atlas.isWallAt, terrain_of, cached.
  destruct (terrains !! room) as [t|] eqn:Ht.
  - by rewrite Ht.
  - by rewrite lookup_insert_eq.
Qed.

Lemma terrain_of_cached G terrains room :
  terrain_of G (cached G terrains room) room = terrain_of G terrains room.
Proof.
  unfold terrain_of, cached. destruct (terrains !! room) as [t|] eqn:Ht.
  - by rewrite Ht.
  - by rewrite lookup_insert_eq.
Qed.

Lemma cached_cached G terrains room :
  cached G (cached G terrains room) room = cached G terrains room.
Proof.
  unfold cached. destruct (terrains !! room) as [t|] eqn:Ht.
  - by rewrite Ht.
  - by rewrite lookup_insert_eq.
Qed.

(** The inner loop of [getWalkableArea], over the tiles of one column. *)
Lemma column_loop G room (tx : Z) (ys : list Z) tiles terrains :
  foldl (fun '(tiles, terrains) ty =>
           let '(wall, terrains) := Atlas.isWallAt G tx ty room terrains in
           if wall then (tiles, terrains) else (tiles ++ [(tx, ty)], terrains))
        (tiles, terrains) ys
  = (tiles ++ filter (fun t => terrain_of G terrains room t.1 t.2
                               <> TERRAIN_MASK_WALL) ((fun ty => (tx, ty)) <$> ys),
     if ys is [] then terrains else cached G terrains room).
Proof.
  revert tiles terrains. induction ys as [|ty ys IH]; intros tiles terrains.
  - cbn. by rewrite app_nil_r.
  - cbn [foldl fmap list_fmap]. rewrite isWallAt_cached.
    rewrite filter_cons. cbn [fst snd].
    destruct (decide (terrain_of G terrains room tx ty <> TERRAIN_MASK_WALL))
      as [Hfree|Hwall].
    + rewrite bool_decide_eq_false_2 by done. rewrite IH.
      rewrite terrain_of_cached, cached_cached, <- app_assoc. cbn.
      by destruct ys.
    + apply dec_stable in Hwall. rewrite bool_decide_eq_true_2 by done.
      rewrite IH. rewrite terrain_of_cached, cached_cached.
      by destruct ys.
Qed.

Lemma area_loop G room (xs ys : list Z) tiles terrains :
  foldl (fun '(tiles, terrains) tx =>
           foldl (fun '(tiles, terrains) ty =>
                    let '(wall, terrains) :=
                      Atlas.isWallAt G tx ty room terrains in
                    if wall then (tiles, terrains)
                    else (tiles ++ [(tx, ty)], terrains))
                 (tiles, terrains) ys)
        (tiles, terrains) xs
  = (tiles ++ filter (fun t => terrain_of G terrains room t.1 t.2
                               <> TERRAIN_MASK_WALL)
                (tx ← xs; (fun ty => (tx, ty)) <$> ys),
     if xs is [] then terrains
     else if ys is [] then terrains else cached G terrains room).
Proof.
  revert tiles terrains. induction xs as [|tx xs IH]; intros tiles terrains.
  - cbn. by rewrite app_nil_r.
  - cbn [foldl]. rewrite column_loop, IH. cbn [mbind list_bind].
    rewrite filter_app, <- app_assoc. destruct ys as [|ty ys].
    + by destruct xs.
    + rewrite terrain_of_cached, cached_cached. by destruct xs.
Qed.

End Terrain.

(** What [getWalkableArea] answers and leaves. *)
Lemma walkable_area_spec (G : Game) (pos : RoomPosition) (size : Z)
  (terrains : gmap (list Z) (Z -> Z -> Z)) :
  let '(tiles, terrains') := Atlas.getWalkableArea G pos size terrains in
  (forall tx ty,
     (tx, ty) ∈ tiles
     <-> Z.max 0 (x pos - size) <= tx <= Z.min 49 (x pos + size)
         /\ Z.max 0 (y pos - size) <= ty <= Z.min 49 (y pos + size)
         /\ terrain_of G terrains (roomName pos) tx ty <> TERRAIN_MASK_WALL)
  /\ NoDup tiles
  /\ (forall room, room <> roomName pos -> terrains' !! room = terrains !! room)
  /\ (is_Some (terrains !! roomName pos) -> terrains' = terrains)
  /\ terrain_of G terrains' (roomName pos) = terrain_of G terrains (roomName pos).
Proof.
  unfold Atlas.getWalkableArea. cbv zeta. rewrite area_loop. cbn [app].
  set (left := Z.max 0 (x pos - size)). set (right := Z.min 49 (x pos + size)).
  set (top := Z.max 0 (y pos - size)). set (bottom := Z.min 49 (y pos + size)).
  assert (forall room,
    (if seqZ left (right - left + 1) is [] then terrains
     else if seqZ top (bottom - top + 1) is [] then terrains
          else cached G terrains (roomName pos)) !! room
    = if decide (room = roomName pos)
      then (if seqZ left (right - left + 1) is [] then terrains
            else if seqZ top (bottom - top + 1) is [] then terrains
                 else cached G terrains (roomName pos)) !! room
      else terrains !! room) as Hother.
  { intros room. destruct (decide _) as [|Hne]; [done|].
    destruct (seqZ left _); [done|]. destruct (seqZ top _); [done|].
    unfold cached. destruct (terrains !! roomName pos); [done|].
    by rewrite lookup_insert_ne. }
  split_and!.
  - intros tx ty. rewrite list_elem_of_filter, list_elem_of_bind. cbn [fst snd].
    split.
    + intros (Hfree & tx' & Hy & Hx). apply list_elem_of_fmap in Hy as (ty' & [= -> ->] & Hy).
      apply elem_of_seqZ in Hx, Hy. split_and!; try done; lia.
    + intros (Hx & Hy & Hfree). split; [done|]. exists tx. split.
      * apply list_elem_of_fmap. exists ty. split; [done|].
        apply elem_of_seqZ. lia.
      * apply elem_of_seqZ. lia.
  - apply NoDup_filter. apply NoDup_bind.
    + intros tx tx' t _ _ (ty & -> & _)%list_elem_of_fmap
        (ty' & [= -> _] & _)%list_elem_of_fmap. done.
    + intros tx _. apply NoDup_fmap; [|apply NoDup_seqZ]. by intros ty ty' [=].
    + apply NoDup_seqZ.
  - intros room Hne. rewrite Hother. by rewrite decide_False.
  - intros [t Ht]. destruct (seqZ left _); [done|]. destruct (seqZ top _); [done|].
    unfold cached. by rewrite Ht.
  - destruct (seqZ left _); [done|]. destruct (seqZ top _); [done|].
    apply terrain_of_cached.
Qed.

(** X12. [getWalkableArea] answers, once each, the tiles of the square of
    the given size around the position, cut to the room, that the
    terrain does not give as walls.  The terrain is the one [TERRAIN]
    holds for the room when it holds one, and [TERRAIN] is then left as
    it was; the entries of the other rooms are never touched. *)
Theorem getWalkableArea_tiles (G : Game) (pos : RoomPosition) (size : Z)
  (terrains : gmap (list Z) (Z -> Z -> Z)) :
  let '(tiles, terrains') := Atlas.getWalkableArea G pos size terrains in
  (forall tx ty,
     (tx, ty) ∈ tiles
     <-> Z.max 0 (x pos - size) <= tx <= Z.min 49 (x pos + size)
         /\ Z.max 0 (y pos - size) <= ty <= Z.min 49 (y pos + size)
         /\ terrain_of G terrains (roomName pos) tx ty <> TERRAIN_MASK_WALL)
  /\ NoDup tiles
  /\ (forall room, room <> roomName pos -> terrains' !! room = terrains !! room)
  /\ (is_Some (terrains !! roomName pos) -> terrains' = terrains)
  /\ terrain_of G terrains' (roomName pos) = terrain_of G terrains (roomName pos).
Proof. apply walkable_area_spec. Qed.

(** *** Cells *)

Section Cells.

Implicit Types (m : CostMatrix) (px py cx cy c : Z).

Lemma get_typed_set (bits : list Z) px py cx cy c :
  length bits = 2500%nat ->
  0 <= px <= 49 -> 0 <= py <= 49 -> 0 <= cx <= 49 -> 0 <= cy <= 49 ->
  0 <= c <= 255 ->
  (if decide (0 <= cx * 50 + cy)
   then JS.typed_set bits (px * 50 + py) c !! Z.to_nat (cx * 50 + cy)
   else None)
  = if decide (cx = px /\ cy = py) then Some c
    else if decide (0 <= cx * 50 + cy) then bits !! Z.to_nat (cx * 50 + cy)
         else None.
Proof.
  intros Hlen Hpx Hpy Hcx Hcy Hc. unfold JS.typed_set, JS.ToUint8.
  rewrite (decide_True (P := 0 <= cx * 50 + cy)) by lia.
  rewrite (decide_True (P := 0 <= px * 50 + py)) by lia.
  rewrite Z.mod_small by lia.
  destruct (decide (cx = px /\ cy = py)) as [[-> ->]|Hne].
  - apply list_lookup_insert_eq. lia.
  - destruct (decide (0 <= cx * 50 + cy)); [|lia].
    apply list_lookup_insert_ne. lia.
Qed.

Lemma get_update m px py cx cy c (offsets : list Z) :
  length (_bits m) = 2500%nat ->
  0 <= px <= 49 -> 0 <= py <= 49 -> 0 <= cx <= 49 -> 0 <= cy <= 49 ->
  CostMatrix.get (CostMatrix.update m px py c offsets).1 cx cy
  = if decide (cx = px /\ cy = py) then Some (Z.min (Z.max 0 c) 255)
    else CostMatrix.get m cx cy.
Proof.
  intros Hlen Hpx Hpy Hcx Hcy. unfold CostMatrix.update, CostMatrix.get.
  destruct (CostMatrix.offset_of offsets c) as [offset o']. cbn [fst _bits].
  by rewrite get_typed_set by lia.
Qed.

Lemma get_set m px py cx cy c :
  length (_bits m) = 2500%nat ->
  0 <= px <= 49 -> 0 <= py <= 49 -> 0 <= cx <= 49 -> 0 <= cy <= 49 ->
  CostMatrix.get (CostMatrix.set m px py c) cx cy
  = if decide (cx = px /\ cy = py) then Some (Z.min (Z.max 0 c) 255)
    else CostMatrix.get m cx cy.
Proof.
  intros Hlen Hpx Hpy Hcx Hcy. unfold CostMatrix.set, CostMatrix.get.
  cbn [_bits]. by rewrite get_typed_set by lia.
Qed.

Lemma length_update m px py c (offsets : list Z) :
  length (_bits (CostMatrix.update m px py c offsets).1) = length (_bits m).
Proof.
  unfold CostMatrix.update.
  destruct (CostMatrix.offset_of offsets c) as [offset o']. cbn [fst _bits].
  unfold JS.typed_set. destruct (decide _); [|done]. apply length_insert.
Qed.

Lemma length_set m px py c :
  length (_bits (CostMatrix.set m px py c)) = length (_bits m).
Proof.
  unfold CostMatrix.set. cbn [_bits].
  unfold JS.typed_set. destruct (decide _); [|done]. apply length_insert.
Qed.

Lemma get_is_Some m cx cy :
  length (_bits m) = 2500%nat -> 0 <= cx <= 49 -> 0 <= cy <= 49 ->
  is_Some (CostMatrix.get m cx cy).
Proof.
  intros Hlen Hcx Hcy. unfold CostMatrix.get. rewrite decide_True by lia.
  apply lookup_lt_is_Some_2. lia.
Qed.

Lemma bytes_typed_set (bits : list Z) (index v : Z) :
  Forall (fun c => 0 <= c <= 255) bits ->
  Forall (fun c => 0 <= c <= 255) (JS.typed_set bits index v).
Proof.
  intros Hb. unfold JS.typed_set, JS.ToUint8. destruct (decide _); [|done].
  apply Forall_insert; [done|].
  pose proof (Z.mod_pos_bound v 256 ltac:(lia)). lia.
Qed.

Lemma bytes_update m px py c (offsets : list Z) :
  Forall (fun c => 0 <= c <= 255) (_bits m) ->
  Forall (fun c => 0 <= c <= 255)
    (_bits (CostMatrix.update m px py c offsets).1).
Proof.
  intros Hb. unfold CostMatrix.update.
  destruct (CostMatrix.offset_of offsets c) as [offset o']. cbn [fst _bits].
  by apply bytes_typed_set.
Qed.

Lemma get_byte m cx cy v :
  Forall (fun c => 0 <= c <= 255) (_bits m) ->
  CostMatrix.get m cx cy = Some v -> 0 <= v <= 255.
Proof.
  intros Hb. unfold CostMatrix.get. destruct (decide _); [|done].
  intros Hv. by apply (Forall_lookup_1 _ _ _ _ Hb Hv).
Qed.

Lemma structure_cost_values (obj : Structure) :
  Atlas.structure_cost obj = 0 \/ Atlas.structure_cost obj = 1
  \/ Atlas.structure_cost obj = 5 \/ Atlas.structure_cost obj = 255.
Proof.
  unfold Atlas.structure_cost. repeat destruct (decide _); try lia.
  destruct (s_my obj || isPublic obj); lia.
Qed.

End Cells.

(** *** Structures *)

Lemma charted_objects (G : Game) (room : Room) (obj : Structure) :
  charted G room obj
  <-> obj ∈ FIND_STRUCTURES room
            ++ (if decide (constructionSites G = 0%nat) then []
                else filter (fun s => structureType s ∈ OBSTACLE_OBJECT_TYPES G)
                       (FIND_MY_CONSTRUCTION_SITES room)).
Proof.
  unfold charted. rewrite elem_of_app. destruct (decide _) as [Hz|Hnz].
  - split; [intros [?|[? _]]; [by left|done]|].
    intros [?|[]%elem_of_nil]. by left.
  - rewrite list_elem_of_filter. split.
    + intros [?|(_ & ? & ?)]; [by left|by right].
    + intros [?|[? ?]]; [by left|by right].
Qed.

(** The loop of [_addStructures] over a list of objects. *)
Lemma structures_loop (objects : list Structure) (m : CostMatrix)
  (offsets : list Z) :
  length (_bits m) = 2500%nat ->
  Forall (fun c => 0 <= c <= 255) (_bits m) ->
  Forall (fun obj => in_room (s_pos obj)) objects ->
  let '(m', offsets') :=
    foldl (fun '(matrix, offsets) obj =>
             let cost := Atlas.structure_cost obj in
             match CostMatrix.get matrix (x (s_pos obj)) (y (s_pos obj)) with
             | Some old =>
                 if decide (cost > old)
                 then CostMatrix.update matrix (x (s_pos obj)) (y (s_pos obj))
                        cost offsets
                 else (matrix, offsets)
             | None => (matrix, offsets)
             end)
          (m, offsets) objects in
  length (_bits m') = 2500%nat
  /\ Forall (fun c => 0 <= c <= 255) (_bits m')
  /\ offsets `prefix_of` offsets'
  /\ (forall c, c ∈ offsets' -> c ∈ offsets \/ c = 1 \/ c = 5 \/ c = 255)
  /\ forall cx cy v,
       0 <= cx <= 49 -> 0 <= cy <= 49 -> CostMatrix.get m cx cy = Some v ->
       exists v',
         CostMatrix.get m' cx cy = Some v' /\ v <= v'
         /\ (forall obj, obj ∈ objects ->
               x (s_pos obj) = cx -> y (s_pos obj) = cy ->
               Atlas.structure_cost obj <= v')
         /\ (v' = v
             \/ exists obj, obj ∈ objects /\ x (s_pos obj) = cx
                            /\ y (s_pos obj) = cy /\ Atlas.structure_cost obj = v').
Proof.
  intros Hlen Hbytes Hin. revert m offsets Hlen Hbytes.
  induction Hin as [|obj objects [Hox Hoy] _ IH]; intros m offsets Hlen Hbytes.
  - cbn. split_and!; try done; [by left|].
    intros cx cy v _ _ Hv. exists v. split_and!; try done; [|by left].
    intros obj []%elem_of_nil.
  - cbn [foldl].
    destruct (get_is_Some m (x (s_pos obj)) (y (s_pos obj)) Hlen Hox Hoy)
      as [old Hold].
    rewrite Hold.
    set (step := if decide (Atlas.structure_cost obj > old)
                 then CostMatrix.update m (x (s_pos obj)) (y (s_pos obj))
                        (Atlas.structure_cost obj) offsets
                 else (m, offsets)).
    pose proof (get_byte _ _ _ _ Hbytes Hold) as Hob.
    assert (length (_bits step.1) = 2500%nat) as Hlen1.
    { subst step. destruct (decide _); [|done]. by rewrite length_update. }
    assert (Forall (fun c => 0 <= c <= 255) (_bits step.1)) as Hbytes1.
    { subst step. destruct (decide _); [|done]. by apply bytes_update. }
    assert (offsets `prefix_of` step.2
            /\ forall c, c ∈ step.2 -> c ∈ offsets \/ c = 1 \/ c = 5 \/ c = 255)
      as [Hpre1 Htab1].
    { subst step. destruct (decide _) as [Hgt|]; [|split; [done|by left]].
      unfold CostMatrix.update.
      destruct (CostMatrix.offset_of offsets (Atlas.structure_cost obj))
        as [offset o1] eqn:Ho. cbn [snd]. split.
      - by eapply offset_of_prefix.
      - intros c Hc. apply offset_of_spec in Ho as (_ & _ & [[_ ->]|[_ ->]]);
          [by left|].
        apply elem_of_app in Hc as [?|Hc]; [by left|].
        apply list_elem_of_singleton in Hc as ->. right.
        destruct (structure_cost_values obj) as [?|?]; lia. }
    assert (forall cx cy v, 0 <= cx <= 49 -> 0 <= cy <= 49 ->
      CostMatrix.get m cx cy = Some v ->
      CostMatrix.get step.1 cx cy
      = Some (if decide (cx = x (s_pos obj) /\ cy = y (s_pos obj))
              then Z.max v (Atlas.structure_cost obj) else v)) as Hstep.
    { intros cx cy v Hcx Hcy Hv. subst step.
      destruct (decide (Atlas.structure_cost obj > old)) as [Hgt|Hle].
      - rewrite get_update by done.
        destruct (decide (cx = _ /\ cy = _)) as [[-> ->]|]; [|done].
        rewrite Hold in Hv. injection Hv as <-.
        f_equal. destruct (structure_cost_values obj); lia.
      - cbn [fst]. destruct (decide (cx = _ /\ cy = _)) as [[-> ->]|]; [|done].
        rewrite Hv. rewrite Hold in Hv. injection Hv as <-. f_equal. lia. }
    destruct step as [m1 o1]. cbn [fst snd] in *.
    specialize (IH m1 o1 Hlen1 Hbytes1).
    destruct (foldl _ (m1, o1) objects) as [m' offsets'].
    destruct IH as (Hlen' & Hbytes' & Hpre' & Htab' & Hcells).
    split_and!; try done.
    + by etrans.
    + intros c Hc. destruct (Htab' c Hc) as [Hc1|?]; [|by right].
      by apply Htab1.
    + intros cx cy v Hcx Hcy Hv.
      destruct (Hcells cx cy _ Hcx Hcy (Hstep cx cy v Hcx Hcy Hv))
        as (v' & Hv' & Hge & Hall & Hwho).
      exists v'. split; [done|].
      destruct (decide (cx = x (s_pos obj) /\ cy = y (s_pos obj)))
        as [[-> ->]|Hne].
      * split_and!.
        -- lia.
        -- intros obj' [->|Hin']%elem_of_cons Hx Hy; [lia|by apply Hall].
        -- destruct Hwho as [->|(obj' & Hin' & ? & ? & ?)].
           ++ destruct (decide (v <= Atlas.structure_cost obj)).
              ** right. exists obj. split_and!; try done; [by left|lia].
              ** left. lia.
           ++ right. exists obj'. split_and!; try done. by right.
      * split_and!.
        -- done.
        -- intros obj' [->|Hin']%elem_of_cons Hx Hy.
           ++ destruct Hne. by split.
           ++ by apply Hall.
        -- destruct Hwho as [->|(obj' & Hin' & ? & ? & ?)]; [by left|].
           right. exists obj'. split_and!; try done. by right.
Qed.

(** X13. [_addStructures] leaves in every cell the highest of the cost the
    cell had and the costs of the objects that stand on it (1 for a
    road, 5 for a container, 0 for a rampart of one's own or public, 255
    for anything else), whatever the order of the objects; it pushes no
    cost but 1, 5 and 255 to [OFFSETS]. *)
Theorem addStructures_highest_cost (G : Game) (room : Room) (m : CostMatrix)
  (offsets : list Z) :
  length (_bits m) = 2500%nat ->
  Forall (fun c => 0 <= c <= 255) (_bits m) ->
  (forall obj, charted G room obj -> in_room (s_pos obj)) ->
  let '(m', offsets') := Atlas._addStructures G room m offsets in
  length (_bits m') = 2500%nat
  /\ Forall (fun c => 0 <= c <= 255) (_bits m')
  /\ offsets `prefix_of` offsets'
  /\ (forall c, c ∈ offsets' -> c ∈ offsets \/ c = 1 \/ c = 5 \/ c = 255)
  /\ forall cx cy v,
       0 <= cx <= 49 -> 0 <= cy <= 49 -> CostMatrix.get m cx cy = Some v ->
       exists v',
         CostMatrix.get m' cx cy = Some v' /\ v <= v'
         /\ (forall obj, charted G room obj ->
               x (s_pos obj) = cx -> y (s_pos obj) = cy ->
               Atlas.structure_cost obj <= v')
         /\ (v' = v
             \/ exists obj, charted G room obj /\ x (s_pos obj) = cx
                            /\ y (s_pos obj) = cy /\ Atlas.structure_cost obj = v').
Proof.
  intros Hlen Hbytes Hin. unfold Atlas._addStructures. cbv zeta.
  set (objects := FIND_STRUCTURES room ++ _).
  assert (Forall (fun obj => in_room (s_pos obj)) objects) as Hall.
  { apply Forall_forall. intros obj Hobj. by apply Hin, charted_objects. }
  pose proof (structures_loop objects m offsets Hlen Hbytes Hall) as H.
  destruct (foldl _ (m, offsets) objects) as [m' offsets'].
  destruct H as (Hlen' & Hbytes' & Hpre & Htab & Hcells). split_and!; try done.
  intros cx cy v Hcx Hcy Hv.
  destruct (Hcells cx cy v Hcx Hcy Hv) as (v' & Hv' & Hge & Hmax & Hwho).
  exists v'. split_and!; try done.
  - intros obj Hobj. by apply Hmax, charted_objects.
  - destruct Hwho as [?|(obj & Hobj & ?)]; [by left|].
    right. exists obj. split; [by apply charted_objects|done].
Qed.

Lemma addStructures_highest_cost_witness :
  let G := Sample.game 1 true (Sample.search_nothing true) None in
  let '(m', offsets') :=
    Atlas._addStructures G Sample.room CostMatrix.new [] in
  length (_bits m') = 2500%nat
  /\ exists v', CostMatrix.get m' 10 10 = Some v' /\ 255 <= v'.
Proof.
  intros G.
  pose proof (addStructures_highest_cost G Sample.room CostMatrix.new []
                eq_refl) as H.
  destruct (Atlas._addStructures G Sample.room CostMatrix.new [])
    as [m' offsets'].
  destruct H as (Hlen & _ & _ & _ & Hcells).
  { apply Forall_forall. intros c Hc.
    apply elem_of_replicate in Hc as [-> _]. lia. }
  { intros obj [Hobj|(Hn & _)]; [|done].
    apply elem_of_cons in Hobj as [->|Hobj]; [cbn; unfold in_room; cbn; lia|].
    apply list_elem_of_singleton in Hobj as ->. unfold in_room; cbn; lia. }
  split; [exact Hlen|].
  destruct (Hcells 10 10 0 ltac:(lia) ltac:(lia) eq_refl)
    as (v' & Hv' & _ & Hmax & _).
  exists v'. split; [exact Hv'|].
  apply (Hmax Sample.wall); [|reflexivity|reflexivity].
  left. by left.
Defined.

(** *** Grids filled by [update] *)

Section Updated.

Implicit Types (S offsets : list Z) (ups : list (Z * Z * Z)).

Lemma valid_update_Forall S ups :
  Forall (valid_update S) ups
  <-> Forall (fun '(px, py, c) =>
                0 <= px <= 49 /\ 0 <= py <= 49 /\ 0 <= c <= 255 /\ c ∈ S) ups.
Proof. apply Forall_proper; [|done]. by intros [[px py] c]. Qed.

Lemma updated_snoc offsets ups (px py c : Z) :
  updated offsets (ups ++ [(px, py, c)])
  = CostMatrix.update (updated offsets ups).1 px py c (updated offsets ups).2.
Proof.
  unfold updated. rewrite foldl_app. cbn [foldl].
  by destruct (foldl _ (CostMatrix.new, offsets) ups).
Qed.

Lemma updated_bytes offsets ups :
  length (_bits (updated offsets ups).1) = 2500%nat
  /\ Forall (fun c => 0 <= c <= 255) (_bits (updated offsets ups).1).
Proof.
  induction ups as [|[[px py] c] ups [IHl IHb]] using rev_ind.
  - split; [done|]. apply Forall_replicate. lia.
  - rewrite updated_snoc. split.
    + by rewrite length_update.
    + by apply bytes_update.
Qed.

(** A loop whose steps are [update] calls, or nothing, leaves a grid
    filled by [update] calls. *)
Lemma stepwise_updated {A} S (g : CostMatrix * list Z -> A -> CostMatrix * list Z)
  (items : list A) :
  (forall m o a, a ∈ items ->
     length (_bits m) = 2500%nat -> Forall (fun c => 0 <= c <= 255) (_bits m) ->
     g (m, o) a = (m, o)
     \/ exists px py c, valid_update S (px, py, c)
                        /\ g (m, o) a = CostMatrix.update m px py c o) ->
  forall offsets ups,
    exists ups', Forall (valid_update S) ups'
      /\ foldl g (updated offsets ups) items = updated offsets (ups ++ ups').
Proof.
  induction items as [|a items IH]; intros Hg offsets ups.
  - exists []. split; [done|]. by rewrite app_nil_r.
  - cbn [foldl]. destruct (updated_bytes offsets ups) as [Hl Hb].
    destruct (updated offsets ups) as [m o] eqn:Hu. cbn [fst] in Hl, Hb.
    destruct (Hg m o a ltac:(by left) Hl Hb)
      as [->|(px & py & c & Hvalid & ->)].
    + rewrite <- Hu. apply IH. intros m' o' a' Ha'. apply Hg. by right.
    + assert (CostMatrix.update m px py c o
              = updated offsets (ups ++ [(px, py, c)])) as ->.
      { by rewrite updated_snoc, Hu. }
      destruct (IH ltac:(intros m' o' a' Ha'; apply Hg; by right) offsets
                  (ups ++ [(px, py, c)])) as (ups' & Hv' & ->).
      exists ((px, py, c) :: ups'). split; [by constructor|].
      by rewrite <- app_assoc.
Qed.

End Updated.

Lemma pack_loop_zeros (n : nat) (i : Z) (costMap offsets : list Z) :
  CostMatrix.pack_loop (replicate n 0) i costMap offsets = (costMap, offsets).
Proof.
  revert i. induction n as [|n IH]; intros i; cbn; [done|]. apply IH.
Qed.

Lemma pack_loop_nothing_zero (offsets : list Z) :
  CostMatrix.pack_loop (replicate 2500 0) 0 [] offsets = ([], offsets).
Proof. apply pack_loop_zeros. Qed.

Section Built.

Implicit Types (G : Game) (S offsets : list Z) (ups : list (Z * Z * Z))
  (terrains : gmap (list Z) (Z -> Z -> Z)).

Lemma addStructures_updated G (room : Room) S offsets ups :
  (forall obj, charted G room obj -> in_room (s_pos obj)) ->
  1 ∈ S -> 5 ∈ S -> 255 ∈ S ->
  exists ups', Forall (valid_update S) ups'
    /\ Atlas._addStructures G room (updated offsets ups).1
         (updated offsets ups).2
       = updated offsets (ups ++ ups').
Proof.
  intros Hin H1 H5 H255. unfold Atlas._addStructures. cbv zeta.
  set (objects := FIND_STRUCTURES room ++ _).
  rewrite <- surjective_pairing. apply stepwise_updated.
  intros m o obj Hobj Hl Hb.
  destruct (Hin obj) as [Hx Hy]; [by apply charted_objects|].
  destruct (get_is_Some m _ _ Hl Hx Hy) as [old Hold]. rewrite Hold.
  pose proof (get_byte _ _ _ _ Hb Hold) as Hob.
  destruct (decide (Atlas.structure_cost obj > old)) as [Hgt|]; [|by left].
  right. exists (x (s_pos obj)), (y (s_pos obj)), (Atlas.structure_cost obj).
  split; [|done]. unfold valid_update.
  destruct (structure_cost_values obj) as [E|[E|[E|E]]]; rewrite E in *;
    split_and!; try done; lia.
Qed.

(** The tiles of the areas around the objects of a goal are tiles of the
    room. *)
Lemma grid_loop G (objects : list RoomPosition) (size : Z)
  (grid : list (Z * Z)) terrains :
  Forall (fun t => 0 <= t.1 <= 49 /\ 0 <= t.2 <= 49) grid ->
  Forall (fun t => 0 <= t.1 <= 49 /\ 0 <= t.2 <= 49)
    (foldl (fun '(grid, terrains) obj =>
              let '(tiles, terrains) :=
                Atlas.getWalkableArea G obj size terrains in
              (grid ++ tiles, terrains))
           (grid, terrains) objects).1.
Proof.
  revert grid terrains. induction objects as [|obj objects IH];
    intros grid terrains Hgrid; cbn [foldl]; [done|].
  pose proof (walkable_area_spec G obj size terrains) as Hw.
  destruct (Atlas.getWalkableArea G obj size terrains) as [tiles terrains'].
  destruct Hw as (Htiles & _). apply IH. apply Forall_app. split; [done|].
  apply Forall_forall. intros [tx ty] Ht. apply Htiles in Ht. cbn. lia.
Qed.

Lemma addArea_updated G (id : list Z) (goals : list AreaGoal) S offsets ups
  terrains :
  Forall (fun goal => 0 <= ag_cost goal <= 255 /\ ag_cost goal ∈ S) goals ->
  exists ups' terrains', Forall (valid_update S) ups'
    /\ Atlas._addArea G id (updated offsets ups).1 goals terrains
         (updated offsets ups).2
       = ((updated offsets (ups ++ ups')).1, terrains',
          (updated offsets (ups ++ ups')).2).
Proof.
  intros Hgoals. unfold Atlas._addArea. revert ups terrains.
  induction Hgoals as [|goal goals [Hbyte HS] _ IH]; intros ups terrains.
  - exists [], terrains. split; [done|]. by rewrite app_nil_r.
  - cbn [foldl].
    pose proof (grid_loop G (ag_objects goal) (ag_size goal) [] terrains
                  ltac:(done)) as Hgrid.
    destruct (foldl _ ([], terrains) (ag_objects goal)) as [grid terrains1].
    cbn [fst] in Hgrid.
    destruct (stepwise_updated S
                (fun '(matrix, offsets) '(x, y) =>
                   match CostMatrix.get matrix x y with
                   | Some old =>
                       if decide (old < (if decide (ag_replace goal = Some false)
                                         then 1 else 255))
                       then CostMatrix.update matrix x y (ag_cost goal) offsets
                       else (matrix, offsets)
                   | None => (matrix, offsets)
                   end) grid) with (offsets := offsets) (ups := ups)
      as (ups1 & Hv1 & Hpaint).
    { intros m o [tx ty] Ht Hl Hb.
      destruct (CostMatrix.get m tx ty) as [old|]; [|by left].
      destruct (decide _); [|by left].
      right. exists tx, ty, (ag_cost goal). split; [|done].
      apply (proj1 (Forall_forall _ _) Hgrid) in Ht. cbn in Ht.
      unfold valid_update. split_and!; try done; lia. }
    rewrite <- surjective_pairing, Hpaint.
    destruct (updated offsets (ups ++ ups1)) as [m1 o1] eqn:Hu.
    destruct (IH (ups ++ ups1) terrains1) as (ups2 & terrains2 & Hv2 & Hrest).
    rewrite Hu in Hrest. cbn [fst snd] in Hrest.
    exists (ups1 ++ ups2), terrains2. split; [by apply Forall_app|].
    by rewrite Hrest, app_assoc.
Qed.

(** The string [pack] makes of a grid filled by [update] calls unpacks
    to its cells against every table that extends the one it leaves. *)
Lemma updated_pack_outlives S offsets ups (more : list Z) :
  NoDup S -> (length S <= 22)%nat -> NoDup offsets -> offsets ⊆ S ->
  Forall (valid_update S) ups ->
  forall packed m offsets',
    CostMatrix.pack (updated offsets ups).1 (updated offsets ups).2
    = (packed, m, offsets') ->
    _bits (CostMatrix.unpack packed (offsets' ++ more))
    = _bits (updated offsets ups).1
    /\ _bits m = _bits (updated offsets ups).1
    /\ NoDup offsets' /\ offsets' ⊆ S /\ offsets `prefix_of` offsets'.
Proof.
  intros HS HS22 Hnd Hsub Hups. apply valid_update_Forall in Hups.
  destruct (updated_decode S offsets ups HS HS22 Hnd Hsub Hups)
    as (Hnd' & Hsub' & Hlen & Hsmall & Hfilled & Hdec).
  assert (offsets `prefix_of` (updated offsets ups).2) as Hpre.
  { clear. induction ups as [|[[px py] c] ups IH] using rev_ind; [done|].
    rewrite updated_snoc. etrans; [exact IH|]. unfold CostMatrix.update.
    destruct (CostMatrix.offset_of _ c) as [offset o'] eqn:Ho. cbn [snd].
    by eapply offset_of_prefix. }
  destruct ups as [|u ups].
  - cbn. intros packed m offsets' Hpack.
    change CostMatrix.new with (mkCostMatrix (replicate 2500 0) []) in Hpack.
    rewrite pack_scans in Hpack.
    destruct (CostMatrix.pack_loop (replicate 2500 0) 0 [] offsets)
      as [costMap o'] eqn:Hloop.
    injection Hpack as <- <- <-.
    destruct (pack_loop_alphabet S _ _ _ _ _ _ Hloop Hnd Hsub)
      as [Hnd1 Hsub1].
    { intros c [-> _]%elem_of_replicate. done. }
    pose proof (pack_loop_nothing_zero offsets) as Hz.
    rewrite Hz in Hloop. injection Hloop as <- <-.
    split_and!; try done.
  - destruct (updated offsets (u :: ups)) as [grid table].
    cbn [fst snd] in *. intros packed m offsets'.
    unfold CostMatrix.pack. rewrite decide_True; last first.
    { destruct (_costMap grid); [by destruct Hfilled|]. cbn. lia. }
    intros [= <- <- <-]. rewrite fromCharCode_small by done.
    rewrite unpack_plain by done. cbn [_bits]. split_and!; try done.
    apply Hdec. by apply prefix_app_r.
Qed.

End Built.

(** What [refresh] leaves for a visible room: a grid and a string that
    unpacks to it. *)
Lemma refresh_built (G : Game) (id : list Z) (opts : Opts) (st : State)
  (S : list Z) (room : Room) :
  rooms G !! id = Some room ->
  (forall obj, charted G room obj -> in_room (s_pos obj)) ->
  NoDup S -> (length S <= 22)%nat -> NoDup (OFFSETS st) -> OFFSETS st ⊆ S ->
  1 ∈ S -> 5 ∈ S -> 255 ∈ S ->
  (forall goals, addArea opts = Some goals ->
     Forall (fun goal => 0 <= ag_cost goal <= 255 /\ ag_cost goal ∈ S) goals) ->
  let st' := Atlas.refresh G id opts st in
  exists packed m,
    PACKED_COSTS st' !! id = Some packed
    /\ COSTS_ROOM st' !! id = Some (length (store st))
    /\ store st' = store st ++ [m]
    /\ (forall more,
          _bits (CostMatrix.unpack packed (OFFSETS st' ++ more)) = _bits m)
    /\ NoDup (OFFSETS st') /\ OFFSETS st' ⊆ S
    /\ OFFSETS st `prefix_of` OFFSETS st'.
Proof.
  intros Hroom Hin HS HS22 Hnd Hsub H1 H5 H255 Hgoals. cbv zeta.
  unfold Atlas.refresh. rewrite Hroom.
  destruct (addStructures_updated G room S (OFFSETS st) [] Hin H1 H5 H255)
    as (ups1 & Hv1 & Hs).
  change (updated (OFFSETS st) []).1 with CostMatrix.new in Hs.
  change (updated (OFFSETS st) []).2 with (OFFSETS st) in Hs.
  rewrite Hs. cbn [app].
  destruct (updated (OFFSETS st) ups1) as [m1 o1] eqn:Hu.
  assert (exists ups terrains,
    Forall (valid_update S) ups
    /\ match addArea opts with
       | Some goals => Atlas._addArea G id m1 goals (TERRAIN st) o1
       | None => (m1, TERRAIN st, o1)
       end
       = ((updated (OFFSETS st) ups).1, terrains, (updated (OFFSETS st) ups).2))
    as (ups & terrains & Hv & ->).
  { destruct (addArea opts) as [goals|] eqn:Hg.
    - destruct (addArea_updated G id goals S (OFFSETS st) ups1 (TERRAIN st)
                  (Hgoals goals eq_refl)) as (ups2 & terrains & Hv2 & Ha).
      exists (ups1 ++ ups2), terrains. split; [by apply Forall_app|].
      rewrite <- Ha. by rewrite Hu.
    - exists ups1, (TERRAIN st). split; [done|]. by rewrite Hu. }
  destruct (CostMatrix.pack (updated (OFFSETS st) ups).1
              (updated (OFFSETS st) ups).2) as [[packed m] offsets'] eqn:Hp.
  exists packed, m. cbn. rewrite !lookup_insert_eq. split_and!; try done.
  - intros more.
    destruct (updated_pack_outlives S (OFFSETS st) ups more HS HS22 Hnd Hsub Hv
                packed m offsets' Hp) as (Hdec & Hm & _).
    by rewrite Hdec, Hm.
  - by destruct (updated_pack_outlives S (OFFSETS st) ups [] HS HS22 Hnd Hsub
                   Hv packed m offsets' Hp) as (_ & _ & ? & _).
  - by destruct (updated_pack_outlives S (OFFSETS st) ups [] HS HS22 Hnd Hsub
                   Hv packed m offsets' Hp) as (_ & _ & _ & ? & _).
  - by destruct (updated_pack_outlives S (OFFSETS st) ups [] HS HS22 Hnd Hsub
                   Hv packed m offsets' Hp) as (_ & _ & _ & _ & ?).
Qed.

(** X14. [refresh] of a room in sight, with every structure inside the
    room and the costs of the areas bytes of the alphabet: the string it
    stores under the room decodes to the grid of the instance it stores
    under the room, now and under every later growth of [OFFSETS]; the
    instance is a new one; and [OFFSETS] stays without duplicates inside
    the alphabet. *)
Theorem refresh_packs_what_it_builds (G : Game) (id : list Z) (opts : Opts)
  (st : State) (S : list Z) (room : Room) :
  rooms G !! id = Some room ->
  (forall obj, charted G room obj -> in_room (s_pos obj)) ->
  NoDup S -> (length S <= 22)%nat -> NoDup (OFFSETS st) -> OFFSETS st ⊆ S ->
  1 ∈ S -> 5 ∈ S -> 255 ∈ S ->
  (forall goals, addArea opts = Some goals ->
     Forall (fun goal => 0 <= ag_cost goal <= 255 /\ ag_cost goal ∈ S) goals) ->
  let st' := Atlas.refresh G id opts st in
  exists packed m,
    PACKED_COSTS st' !! id = Some packed
    /\ COSTS_ROOM st' !! id = Some (length (store st))
    /\ store st' = store st ++ [m]
    /\ (forall more,
          _bits (CostMatrix.unpack packed (OFFSETS st' ++ more)) = _bits m)
    /\ NoDup (OFFSETS st') /\ OFFSETS st' ⊆ S
    /\ OFFSETS st `prefix_of` OFFSETS st'.
Proof. apply refresh_built. Qed.

Lemma refresh_packs_what_it_builds_witness :
  let G := Sample.game 1 true (Sample.search_nothing true) None in
  let st' := Atlas.refresh G Sample.W1N1 no_opts (initial 1) in
  exists packed m,
    PACKED_COSTS st' !! Sample.W1N1 = Some packed
    /\ store st' = [m]
    /\ _bits (CostMatrix.unpack packed (OFFSETS st')) = _bits m.
Proof.
  intros G st'.
  destruct (refresh_packs_what_it_builds G Sample.W1N1 no_opts (initial 1)
              [1; 5; 255] Sample.room)
    as (packed & m & Hp & _ & Hs & Hu & _).
  - reflexivity.
  - intros obj [Hobj|(Hn & _)]; [|done].
    apply elem_of_cons in Hobj as [->|Hobj]; [cbn; unfold in_room; cbn; lia|].
    apply list_elem_of_singleton in Hobj as ->. unfold in_room; cbn; lia.
  - apply (bool_decide_unpack _). vm_compute. exact I.
  - simpl. lia.
  - constructor.
  - apply (bool_decide_unpack _). vm_compute. exact I.
  - apply (bool_decide_unpack _). vm_compute. exact I.
  - apply (bool_decide_unpack _). vm_compute. exact I.
  - apply (bool_decide_unpack _). vm_compute. exact I.
  - intros goals [=].
  - exists packed, m. split; [exact Hp|]. split; [exact Hs|].
    specialize (Hu []). rewrite app_nil_r in Hu. exact Hu.
Defined.

(** *** What the calls never undo *)

Section Grows.

Implicit Types (G : Game) (st : State) (id : list Z) (opts : Opts)
  (terrains : gmap (list Z) (Z -> Z -> Z)) (offsets : list Z).

Lemma update_grows (m : CostMatrix) (px py c : Z) offsets :
  offsets `prefix_of` (CostMatrix.update m px py c offsets).2.
Proof.
  unfold CostMatrix.update.
  destruct (CostMatrix.offset_of offsets c) as [offset o'] eqn:Ho. cbn [snd].
  by eapply offset_of_prefix.
Qed.

Lemma foldl_grows {A} (g : CostMatrix * list Z -> A -> CostMatrix * list Z)
  (items : list A) (m : CostMatrix) offsets :
  (forall m o a, o `prefix_of` (g (m, o) a).2) ->
  offsets `prefix_of` (foldl g (m, offsets) items).2.
Proof.
  intros Hg. revert m offsets. induction items as [|a items IH];
    intros m offsets; cbn [foldl]; [done|].
  specialize (Hg m offsets a). destruct (g (m, offsets) a) as [m1 o1].
  etrans; [exact Hg|apply IH].
Qed.

Lemma addStructures_grows G (room : Room) (m : CostMatrix) offsets :
  offsets `prefix_of` (Atlas._addStructures G room m offsets).2.
Proof.
  unfold Atlas._addStructures. cbv zeta. apply foldl_grows.
  intros m' o obj. destruct (CostMatrix.get m' _ _); [|done].
  destruct (decide _); [apply update_grows|done].
Qed.

Lemma cached_grows G terrains (room : list Z) :
  terrains ⊆ cached G terrains room.
Proof.
  unfold cached. destruct (terrains !! room) eqn:Ht; [done|].
  by apply insert_subseteq.
Qed.

Lemma getWalkableArea_grows G (pos : RoomPosition) (size : Z) terrains :
  terrains ⊆ (Atlas.getWalkableArea G pos size terrains).2.
Proof.
  unfold Atlas.getWalkableArea. cbv zeta. rewrite area_loop. cbn [snd].
  destruct (seqZ _ _); [done|]. destruct (seqZ _ _); [done|].
  apply cached_grows.
Qed.

Lemma addArea_grows G id (m : CostMatrix) (goals : list AreaGoal) terrains
  offsets :
  offsets `prefix_of` (Atlas._addArea G id m goals terrains offsets).2
  /\ terrains ⊆ (Atlas._addArea G id m goals terrains offsets).1.2.
Proof.
  unfold Atlas._addArea. revert m terrains offsets.
  induction goals as [|goal goals IH]; intros m terrains offsets;
    cbn [foldl]; [done|].
  assert (terrains ⊆ (foldl (fun '(grid, terrains) obj =>
                               let '(tiles, terrains) :=
                                 Atlas.getWalkableArea G obj (ag_size goal)
                                   terrains in
                               (grid ++ tiles, terrains))
                            ([], terrains) (ag_objects goal)).2) as Ht.
  { generalize (@nil (Z * Z)) as grid. revert terrains.
    induction (ag_objects goal) as [|obj objects IHo]; intros terrains grid;
      cbn [foldl]; [done|].
    pose proof (getWalkableArea_grows G obj (ag_size goal) terrains) as Hw.
    destruct (Atlas.getWalkableArea G obj (ag_size goal) terrains)
      as [tiles t1]. cbn [snd] in Hw. etrans; [exact Hw|apply IHo]. }
  destruct (foldl _ ([], terrains) (ag_objects goal)) as [grid terrains1].
  cbn [snd] in Ht.
  pose proof (foldl_grows
                (fun '(matrix, offsets) '(x, y) =>
                   match CostMatrix.get matrix x y with
                   | Some old =>
                       if decide (old < (if decide (ag_replace goal = Some false)
                                         then 1 else 255))
                       then CostMatrix.update matrix x y (ag_cost goal) offsets
                       else (matrix, offsets)
                   | None => (matrix, offsets)
                   end) grid m offsets) as Hp.
  destruct (foldl _ (m, offsets) grid) as [m1 o1]. cbn [snd] in Hp.
  destruct (IH m1 terrains1 o1) as [Ho' Ht']. split.
  - etrans; [|exact Ho']. apply Hp. intros m' o [tx ty].
    destruct (CostMatrix.get m' tx ty); [|done].
    destruct (decide (ag_replace goal = Some false));
      (destruct (decide _); [apply update_grows|done]).
  - by etrans.
Qed.

Lemma refresh_grows G id opts st :
  OFFSETS st `prefix_of` OFFSETS (Atlas.refresh G id opts st)
  /\ TERRAIN st ⊆ TERRAIN (Atlas.refresh G id opts st).
Proof.
  unfold Atlas.refresh. destruct (rooms G !! id) as [room|]; [|done].
  pose proof (addStructures_grows G room CostMatrix.new (OFFSETS st)) as Hs.
  destruct (Atlas._addStructures _ _ _ _) as [m1 o1]. cbn [snd] in Hs.
  assert (o1 `prefix_of`
            (match addArea opts with
             | Some goals => Atlas._addArea G id m1 goals (TERRAIN st) o1
             | None => (m1, TERRAIN st, o1)
             end).2
          /\ TERRAIN st ⊆
            (match addArea opts with
             | Some goals => Atlas._addArea G id m1 goals (TERRAIN st) o1
             | None => (m1, TERRAIN st, o1)
             end).1.2) as [Ho Ht].
  { destruct (addArea opts) as [goals|]; [apply addArea_grows|done]. }
  destruct (match addArea opts with
            | Some goals => Atlas._addArea G id m1 goals (TERRAIN st) o1
            | None => (m1, TERRAIN st, o1)
            end) as [[m2 t2] o2]. cbn [fst snd] in Ho, Ht.
  pose proof (encode_prefix o2 (EncPack m2)) as Hp. cbn [encode] in Hp.
  destruct (CostMatrix.pack m2 o2) as [[packed m3] o3]. cbn [snd] in Hp.
  cbn. split; [|done]. etrans; [exact Hs|]. by etrans.
Qed.

Lemma getCosts_grows G id opts st :
  wf st ->
  let st' := (Atlas.getCosts G id opts st).2 in
  wf st'
  /\ OFFSETS st `prefix_of` OFFSETS st'
  /\ TERRAIN st ⊆ TERRAIN st'
  /\ store st `prefix_of` store st'
  /\ lastReset st' = Z.max (lastReset st) (time G).
Proof.
  intros Hwf. cbv zeta.
  destruct (getCosts_spec G id opts st Hwf)
    as (ref & st' & Hg & Hwf' & _ & _ & Hl' & Hpre' & _ & Hret).
  destruct (per_step_spec G id opts st Hwf) as (_ & _ & _ & _ & _ & Hpre3).
  assert (OFFSETS st `prefix_of` OFFSETS (per_step G id opts st)
          /\ TERRAIN st ⊆ TERRAIN (per_step G id opts st)
          /\ lastReset (per_step G id opts st) = Z.max (lastReset st) (time G))
    as (Ho3 & Ht3 & Hl3).
  { unfold per_step.
    set (st1 := if decide (lastReset st < time G) then Atlas._reset G st else st).
    assert (OFFSETS st1 = OFFSETS st /\ TERRAIN st1 = TERRAIN st
            /\ lastReset st1 = Z.max (lastReset st) (time G)) as (Ho1 & Ht1 & Hl1).
    { subst st1. destruct (decide _).
      - destruct (reset_spec G st) as (-> & -> & _ & -> & _).
        split_and!; try done; lia.
      - split_and!; try done; lia. }
    clearbody st1.
    set (st2 := if decide (PACKED_COSTS st1 !! id = None
                           \/ refreshMatrix opts = true)
                then Atlas.refresh G id opts st1 else st1).
    assert (OFFSETS st1 `prefix_of` OFFSETS st2 /\ TERRAIN st1 ⊆ TERRAIN st2
            /\ lastReset st2 = lastReset st1) as (Ho2 & Ht2 & Hl2).
    { subst st2. destruct (decide _); [|done].
      destruct (refresh_grows G id opts st1) as [? ?].
      by destruct (refresh_spec G id opts st1) as (_ & _ & -> & _). }
    clearbody st2. rewrite <- Ho1, <- Ht1, <- Hl1, <- Hl2.
    destruct (COSTS_ROOM st2 !! id); [done|].
    by destruct (PACKED_COSTS st2 !! id). }
  rewrite Hg. cbn [snd].
  assert (OFFSETS st' = OFFSETS (per_step G id opts st)
          /\ TERRAIN st' = TERRAIN (per_step G id opts st)) as [-> ->].
  { rewrite getCosts_per_step in Hg. cbv zeta in Hg.
    destruct (negb _); [by injection Hg as _ <-|].
    destruct (COSTS_CREEP (per_step G id opts st) !! id);
      [by injection Hg as _ <-|].
    unfold Atlas._addCreeps in Hg.
    destruct (COSTS_ROOM (per_step G id opts st) !! id);
      [|by injection Hg as _ <-].
    destruct (rooms G !! id); [|by injection Hg as _ <-].
    destruct (store (per_step G id opts st) !! _);
      by injection Hg as _ <-. }
  split_and!; try done.
  - by etrans.
  - by rewrite Hl'.
Qed.

Lemma run_grows (calls : list AtlasCall) st :
  wf st ->
  let st' := foldl call_atlas st calls in
  wf st'
  /\ OFFSETS st `prefix_of` OFFSETS st'
  /\ TERRAIN st ⊆ TERRAIN st'
  /\ store st `prefix_of` store st'
  /\ lastReset st <= lastReset st'.
Proof.
  revert st. induction calls as [|c calls IH]; intros st Hwf; cbn [foldl].
  - by split_and!.
  - assert (wf (call_atlas st c)
            /\ OFFSETS st `prefix_of` OFFSETS (call_atlas st c)
            /\ TERRAIN st ⊆ TERRAIN (call_atlas st c)
            /\ store st `prefix_of` store (call_atlas st c)
            /\ lastReset st <= lastReset (call_atlas st c))
      as (Hwf1 & Ho1 & Ht1 & Hs1 & Hl1).
    { destruct c as [G id opts|G id opts]; cbn [call_atlas].
      - destruct (getCosts_grows G id opts st Hwf) as (? & ? & ? & ? & Hl).
        split_and!; try done. lia.
      - destruct (refresh_grows G id opts st) as [? ?].
        destruct (refresh_spec G id opts st)
          as (_ & _ & Hl & (m & Hs & _) & _).
        split_and!; try done.
        + by apply wf_refresh.
        + rewrite Hs. by apply prefix_app_r.
        + lia. }
    destruct (IH _ Hwf1) as (Hwf' & Ho' & Ht' & Hs' & Hl').
    split_and!; try done; [by etrans..|lia].
Qed.

End Grows.

(** X15. From a well formed state (the state of a freshly loaded module
    is one), every run of [getCosts] and [refresh] calls, whatever the
    games, rooms and options, leaves a well formed state; it only ever
    appends to [OFFSETS] and to the stored instances, only adds to
    [TERRAIN], and never sets [lastReset] back; and [getCosts] then
    answers an instance, not [undefined]. *)
Theorem atlas_run_invariants (calls : list AtlasCall) (st : State)
  (G : Game) (id : list Z) (opts : Opts) :
  wf st ->
  let st' := foldl call_atlas st calls in
  wf st'
  /\ OFFSETS st `prefix_of` OFFSETS st'
  /\ TERRAIN st ⊆ TERRAIN st'
  /\ store st `prefix_of` store st'
  /\ lastReset st <= lastReset st'
  /\ is_Some (cells (Atlas.getCosts G id opts st').2
                (Atlas.getCosts G id opts st').1).
Proof.
  intros Hwf. cbv zeta.
  destruct (run_grows calls st Hwf) as (Hwf' & Ho & Ht & Hs & Hl).
  split_and!; try done.
  destruct (getCosts_spec G id opts _ Hwf')
    as (ref & st2 & -> & _ & _ & _ & _ & _ & Hlt & _).
  cbn. by apply fmap_is_Some, lookup_lt_is_Some_2.
Qed.

Lemma atlas_run_invariants_witness :
  let G := Sample.game 1 true (Sample.search_nothing true) None in
  let st' :=
    foldl call_atlas (initial 0)
      [CallGetCosts G Sample.W1N1 Sample.track;
       CallRefresh G Sample.W6N1 no_opts] in
  wf st'
  /\ is_Some (cells (Atlas.getCosts G Sample.W1N1 no_opts st').2
                (Atlas.getCosts G Sample.W1N1 no_opts st').1).
Proof.
  intros G st'.
  destruct (atlas_run_invariants
              [CallGetCosts G Sample.W1N1 Sample.track;
               CallRefresh G Sample.W6N1 no_opts]
              (initial 0) G Sample.W1N1 no_opts (wf_initial 0))
    as (Hwf & _ & _ & _ & _ & Hsome).
  split; [exact Hwf|exact Hsome].
Defined.

(** *** The packed grid, served later *)

(** On a later tick, a room with a packed grid that the purge leaves in
    place is served the grid unpacked from it. *)
Lemma served_from_packed (G : Game) (id : list Z) (opts : Opts) (st : State)
  (packed : list Z) :
  PACKED_COSTS st !! id = Some packed ->
  lastReset st < time G -> refreshMatrix opts = false ->
  ~ (Z.rem (time G) RESET_FREQUENCY = 0 /\ is_Some (rooms G !! id)) ->
  trackCreeps opts = false \/ rooms G !! id = None ->
  cells (Atlas.getCosts G id opts st).2 (Atlas.getCosts G id opts st).1
  = Some (_bits (CostMatrix.unpack packed (OFFSETS st))).
Proof.
  intros Hp Hstale Hkeep Hpurge Hbase. rewrite getCosts_per_step. cbv zeta.
  assert (negb (trackCreeps opts && bool_decide (is_Some (rooms G !! id)))
          = true) as ->.
  { destruct Hbase as [->| ->]; [done|].
    rewrite bool_decide_eq_false_2 by (by intros [? ?]).
    by rewrite andb_false_r. }
  cbn [fst snd]. unfold per_step.
  rewrite (decide_True (P := lastReset st < time G)) by done.
  destruct (reset_spec G st) as (_ & Ho & Hs & _ & Hr & _ & Hpk).
  specialize (Hpk id). rewrite decide_False, Hp in Hpk by done.
  rewrite (decide_False (P := _ \/ _)); last first.
  { intros [Hn|Hr']; [by rewrite Hpk in Hn|by rewrite Hkeep in Hr']. }
  rewrite Hr, lookup_empty, Hpk. cbn [fst snd COSTS_ROOM store].
  rewrite lookup_insert_eq. unfold cells. cbn.
  rewrite lookup_app_r, Nat.sub_diag by done. cbn. by rewrite Ho.
Qed.

(** X16. The grid [refresh] builds for a visible room is the grid later
    ticks are served.  After any run of further calls that leaves the
    packed grid of the room in place, however [OFFSETS] has grown, a
    [getCosts] call of a later tick that does not ask for a refresh,
    comes before or outside the purge and returns the per-step grid,
    returns the cells [refresh] had built.  The costs in circulation at
    the time of [refresh] belong to one alphabet of at most 22 values. *)
Theorem built_grid_served_later (G G' : Game) (id : list Z)
  (opts opts' : Opts) (st : State) (S : list Z) (room : Room)
  (calls : list AtlasCall) :
  wf st -> rooms G !! id = Some room ->
  (forall obj, charted G room obj -> in_room (s_pos obj)) ->
  NoDup S -> (length S <= 22)%nat -> NoDup (OFFSETS st) -> OFFSETS st ⊆ S ->
  1 ∈ S -> 5 ∈ S -> 255 ∈ S ->
  (forall goals, addArea opts = Some goals ->
     Forall (fun goal => 0 <= ag_cost goal <= 255 /\ ag_cost goal ∈ S) goals) ->
  let st1 := Atlas.refresh G id opts st in
  let st2 := foldl call_atlas st1 calls in
  PACKED_COSTS st2 !! id = PACKED_COSTS st1 !! id ->
  lastReset st2 < time G' -> refreshMatrix opts' = false ->
  ~ (Z.rem (time G') RESET_FREQUENCY = 0 /\ is_Some (rooms G' !! id)) ->
  trackCreeps opts' = false \/ rooms G' !! id = None ->
  cells (Atlas.getCosts G' id opts' st2).2 (Atlas.getCosts G' id opts' st2).1
  = cells st1 (COSTS_ROOM st1 !! id)
  /\ is_Some (cells st1 (COSTS_ROOM st1 !! id)).
Proof.
  intros Hwf Hroom Hin HS HS22 Hnd Hsub H1 H5 H255 Hgoals st1 st2 Hsame
    Hstale Hkeep Hpurge Hbase.
  destruct (refresh_built G id opts st S room Hroom Hin HS HS22 Hnd Hsub
              H1 H5 H255 Hgoals)
    as (packed & m & Hp & Hr & Hs & Hdec & _).
  fold st1 in Hp, Hr, Hs, Hdec.
  destruct (run_grows calls st1 (wf_refresh G id opts st Hwf))
    as (_ & [more Ho] & _).
  fold st2 in Ho.
  rewrite (served_from_packed G' id opts' st2 packed)
    by (done || by rewrite Hsame).
  rewrite Ho, Hdec, Hr. unfold cells. cbn. rewrite Hs.
  rewrite lookup_app_r, Nat.sub_diag by done. by split; [|eexists].
Qed.

Lemma built_grid_served_later_witness :
  let G := Sample.game 1 true (Sample.search_nothing true) None in
  let G' := Sample.game 2 false (Sample.search_nothing true) None in
  let st1 := Atlas.refresh G Sample.W1N1 no_opts (initial 1) in
  let st2 := foldl call_atlas st1 [CallGetCosts G Sample.W6N1 no_opts] in
  cells (Atlas.getCosts G' Sample.W1N1 no_opts st2).2
    (Atlas.getCosts G' Sample.W1N1 no_opts st2).1
  = cells st1 (COSTS_ROOM st1 !! Sample.W1N1)
  /\ is_Some (cells st1 (COSTS_ROOM st1 !! Sample.W1N1)).
Proof.
  intros G G' st1 st2.
  apply (built_grid_served_later G G' Sample.W1N1 no_opts no_opts (initial 1)
           [1; 5; 255] Sample.room [CallGetCosts G Sample.W6N1 no_opts]).
  - apply wf_initial.
  - reflexivity.
  - intros obj [Hobj|(Hn & _)]; [|done].
    apply elem_of_cons in Hobj as [->|Hobj]; [cbn; unfold in_room; cbn; lia|].
    apply list_elem_of_singleton in Hobj as ->. unfold in_room; cbn; lia.
  - apply (bool_decide_unpack _). vm_compute. exact I.
  - simpl. lia.
  - constructor.
  - apply (bool_decide_unpack _). vm_compute. exact I.
  - apply (bool_decide_unpack _). vm_compute. exact I.
  - apply (bool_decide_unpack _). vm_compute. exact I.
  - apply (bool_decide_unpack _). vm_compute. exact I.
  - intros goals [=].
  - vm_compute. reflexivity.
  - vm_compute. reflexivity.
  - reflexivity.
  - intros [Hrem _]. vm_compute in Hrem. discriminate Hrem.
  - by left.
Defined.

(** *** Areas *)

Section Areas.

Implicit Types (G : Game) (terrains : gmap (list Z) (Z -> Z -> Z))
  (m : CostMatrix) (offsets : list Z).

Lemma getWalkableArea_terrain G (pos : RoomPosition) (size : Z) terrains
  (room : list Z) :
  terrain_of G (Atlas.getWalkableArea G pos size terrains).2 room
  = terrain_of G terrains room.
Proof.
  pose proof (walkable_area_spec G pos size terrains) as H.
  destruct (Atlas.getWalkableArea G pos size terrains) as [tiles terrains'].
  destruct H as (_ & _ & Hother & _ & Hsame). cbn [snd].
  destruct (decide (room = roomName pos)) as [->|Hne]; [done|].
  unfold terrain_of. by rewrite Hother.
Qed.

(** The tiles a goal gathers. *)
Lemma goal_grid G (objects : list RoomPosition) (size : Z)
  (grid : list (Z * Z)) terrains :
  let '(grid', terrains') :=
    foldl (fun '(grid, terrains) obj =>
             let '(tiles, terrains) :=
               Atlas.getWalkableArea G obj size terrains in
             (grid ++ tiles, terrains))
          (grid, terrains) objects in
  (forall room, terrain_of G terrains' room = terrain_of G terrains room)
  /\ forall tx ty, (tx, ty) ∈ grid' ->
       (tx, ty) ∈ grid
       \/ exists obj, obj ∈ objects
            /\ 0 <= tx <= 49 /\ 0 <= ty <= 49
            /\ Z.abs (tx - x obj) <= size /\ Z.abs (ty - y obj) <= size
            /\ terrain_of G terrains (roomName obj) tx ty <> TERRAIN_MASK_WALL.
Proof.
  revert grid terrains. induction objects as [|obj objects IH];
    intros grid terrains; cbn [foldl].
  - split; [done|]. intros tx ty Ht. by left.
  - pose proof (walkable_area_spec G obj size terrains) as Hw.
    pose proof (getWalkableArea_terrain G obj size terrains) as Hsame.
    destruct (Atlas.getWalkableArea G obj size terrains) as [tiles terrains1].
    cbn [snd] in Hsame. destruct Hw as (Htiles & _).
    specialize (IH (grid ++ tiles) terrains1).
    destruct (foldl _ (grid ++ tiles, terrains1) objects) as [grid' terrains'].
    destruct IH as [Ht IH]. split.
    + intros room. by rewrite Ht, Hsame.
    + intros tx ty Hin. destruct (IH tx ty Hin) as [Hg|(obj' & Ho & Hrest)].
      * apply elem_of_app in Hg as [?|Hg]; [by left|]. right.
        apply Htiles in Hg. exists obj. split; [by left|].
        split_and!; first [lia | by destruct Hg as (_ & _ & ?)].
      * right. exists obj'. split; [by right|]. by rewrite <- Hsame.
Qed.

(** The loop that writes the cost of a goal over its tiles. *)
Lemma paint_loop (grid : list (Z * Z)) (threshold cost : Z) m offsets :
  length (_bits m) = 2500%nat ->
  Forall (fun c => 0 <= c <= 255) (_bits m) ->
  Forall (fun t => 0 <= t.1 <= 49 /\ 0 <= t.2 <= 49) grid ->
  let '(m', offsets') :=
    foldl (fun '(matrix, offsets) '(x, y) =>
             match CostMatrix.get matrix x y with
             | Some old =>
                 if decide (old < threshold)
                 then CostMatrix.update matrix x y cost offsets
                 else (matrix, offsets)
             | None => (matrix, offsets)
             end)
          (m, offsets) grid in
  length (_bits m') = 2500%nat
  /\ Forall (fun c => 0 <= c <= 255) (_bits m')
  /\ forall cx cy v,
       0 <= cx <= 49 -> 0 <= cy <= 49 -> CostMatrix.get m cx cy = Some v ->
       exists v',
         CostMatrix.get m' cx cy = Some v'
         /\ (threshold <= v -> v' = v)
         /\ (v' <> v -> (cx, cy) ∈ grid /\ v' = Z.min (Z.max 0 cost) 255).
Proof.
  intros Hlen Hbytes Hgrid. revert m offsets Hlen Hbytes.
  induction Hgrid as [|[tx ty] grid [Htx Hty] _ IH];
    intros m offsets Hlen Hbytes; cbn [foldl].
  - split_and!; try done. intros cx cy v _ _ Hv. exists v. by split_and!.
  - cbn [fst snd] in Htx, Hty.
    destruct (get_is_Some m tx ty Hlen Htx Hty) as [old Hold]. rewrite Hold.
    set (step := if decide (old < threshold)
                 then CostMatrix.update m tx ty cost offsets else (m, offsets)).
    assert (length (_bits step.1) = 2500%nat) as Hlen1.
    { subst step. destruct (decide _); [|done]. by rewrite length_update. }
    assert (Forall (fun c => 0 <= c <= 255) (_bits step.1)) as Hbytes1.
    { subst step. destruct (decide _); [|done]. by apply bytes_update. }
    assert (forall cx cy v, 0 <= cx <= 49 -> 0 <= cy <= 49 ->
      CostMatrix.get m cx cy = Some v ->
      CostMatrix.get step.1 cx cy
      = Some (if decide ((cx = tx /\ cy = ty) /\ v < threshold)
              then Z.min (Z.max 0 cost) 255 else v)) as Hstep.
    { intros cx cy v Hcx Hcy Hv. subst step.
      destruct (decide (old < threshold)) as [Hlt|Hge].
      - rewrite get_update by done.
        destruct (decide (cx = tx /\ cy = ty)) as [[-> ->]|Hne].
        + rewrite Hold in Hv. injection Hv as <-.
          by rewrite decide_True.
        + rewrite Hv. by rewrite decide_False by (by intros [? _]).
      - cbn [fst]. rewrite Hv. f_equal. rewrite decide_False; [done|].
        intros [[-> ->] Hlt]. rewrite Hold in Hv. injection Hv as <-. lia. }
    destruct step as [m1 o1]. cbn [fst snd] in *.
    specialize (IH m1 o1 Hlen1 Hbytes1).
    destruct (foldl _ (m1, o1) grid) as [m' offsets'].
    destruct IH as (Hlen' & Hbytes' & Hcells). split_and!; try done.
    intros cx cy v Hcx Hcy Hv.
    destruct (Hcells cx cy _ Hcx Hcy (Hstep cx cy v Hcx Hcy Hv))
      as (v' & Hv' & Hkeep & Hwhy).
    exists v'. split; [done|].
    destruct (decide ((cx = tx /\ cy = ty) /\ v < threshold))
      as [[[-> ->] Hlt]|Hno].
    + split; [lia|]. intros Hne. split; [by left|].
      destruct (decide (v' = Z.min (Z.max 0 cost) 255)) as [|Hne']; [done|].
      by destruct (Hwhy Hne').
    + split; [done|]. intros Hne. destruct (Hwhy Hne) as [Hin ->].
      split; [by right|done].
Qed.

End Areas.

(** X17. [_addArea] never changes a cell that holds 255, and changes no
    cell that is not 0 when every goal has [replace] at [false].  A cell
    it changes holds the cost of a goal, cut to a byte, lies within the
    size of that goal from one of its objects, and is not a wall of the
    terrain of that object's room. *)
Theorem addArea_keeps_obstacles (G : Game) (id : list Z)
  (goals : list AreaGoal) (m : CostMatrix)
  (terrains : gmap (list Z) (Z -> Z -> Z)) (offsets : list Z) :
  length (_bits m) = 2500%nat ->
  Forall (fun c => 0 <= c <= 255) (_bits m) ->
  let '(m', terrains', offsets') :=
    Atlas._addArea G id m goals terrains offsets in
  length (_bits m') = 2500%nat
  /\ Forall (fun c => 0 <= c <= 255) (_bits m')
  /\ forall cx cy v,
       0 <= cx <= 49 -> 0 <= cy <= 49 -> CostMatrix.get m cx cy = Some v ->
       exists v',
         CostMatrix.get m' cx cy = Some v'
         /\ (v = 255 -> v' = 255)
         /\ ((forall goal, goal ∈ goals -> ag_replace goal = Some false) ->
             v <> 0 -> v' = v)
         /\ (v' <> v ->
             exists goal obj,
               goal ∈ goals /\ obj ∈ ag_objects goal
               /\ v' = Z.min (Z.max 0 (ag_cost goal)) 255
               /\ Z.abs (cx - x obj) <= ag_size goal
               /\ Z.abs (cy - y obj) <= ag_size goal
               /\ terrain_of G terrains (roomName obj) cx cy
                  <> TERRAIN_MASK_WALL).
Proof.
  unfold Atlas._addArea. revert m terrains offsets.
  induction goals as [|goal goals IH]; intros m terrains offsets Hlen Hbytes;
    cbn [foldl].
  - split_and!; try done. intros cx cy v _ _ Hv. exists v. by split_and!.
  - pose proof (goal_grid G (ag_objects goal) (ag_size goal) [] terrains) as Hg.
    pose proof (grid_loop G (ag_objects goal) (ag_size goal) [] terrains
                  ltac:(done)) as Hin.
    destruct (foldl _ ([], terrains) (ag_objects goal)) as [grid terrains1].
    destruct Hg as [Hterrain Hgrid]. cbn [fst] in Hin.
    pose proof (paint_loop grid
                  (if decide (ag_replace goal = Some false) then 1 else 255)
                  (ag_cost goal) m offsets Hlen Hbytes Hin) as Hp.
    destruct (foldl _ (m, offsets) grid) as [m1 o1].
    destruct Hp as (Hlen1 & Hbytes1 & Hpaint).
    specialize (IH m1 terrains1 o1 Hlen1 Hbytes1).
    destruct (foldl _ (m1, terrains1, o1) goals) as [[m' terrains'] offsets'].
    destruct IH as (Hlen' & Hbytes' & Hcells). split_and!; try done.
    intros cx cy v Hcx Hcy Hv.
    destruct (Hpaint cx cy v Hcx Hcy Hv) as (v1 & Hv1 & Hkeep1 & Hwhy1).
    destruct (Hcells cx cy v1 Hcx Hcy Hv1) as (v' & Hv' & H255 & Hfalse & Hwhy).
    pose proof (get_byte _ _ _ _ Hbytes Hv) as Hvb.
    exists v'. split_and!; try done.
    + intros ->. apply H255, Hkeep1. destruct (decide _); lia.
    + intros Hall Hne.
      assert (v1 = v) as ->.
      { apply Hkeep1. rewrite decide_True by (apply Hall; by left). lia. }
      apply Hfalse; [|done]. intros goal' Hgoal'. apply Hall. by right.
    + intros Hne. destruct (decide (v' = v1)) as [->|Hne'].
      * destruct (Hwhy1 Hne) as [Ht ->].
        destruct (Hgrid cx cy Ht) as [[]%elem_of_nil|(obj & Ho & Hrest)].
        destruct Hrest as (_ & _ & ? & ? & ?).
        exists goal, obj. split; [by left|]. by split_and!.
      * destruct (Hwhy Hne') as (goal' & obj & Hg' & Ho & -> & ? & ? & ?).
        exists goal', obj. split; [by right|]. split_and!; try done.
        by rewrite <- Hterrain.
Qed.


Lemma addArea_keeps_obstacles_witness :
  let G := Sample.game 1 true (Sample.search_nothing true) None in
  let goal := mkAreaGoal [mkPos 10 10 Sample.W1N1] 1 7 (Some false) in
  let '(m', terrains', offsets') :=
    Atlas._addArea G Sample.W1N1 CostMatrix.new [goal] ∅ [] in
  length (_bits m') = 2500%nat
  /\ exists v', CostMatrix.get m' 10 10 = Some v'
       /\ (v' <> 0 -> v' = Z.min (Z.max 0 7) 255).
Proof.
  intros G goal.
  pose proof (addArea_keeps_obstacles G Sample.W1N1 [goal] CostMatrix.new ∅ []
                eq_refl) as H.
  destruct (Atlas._addArea G Sample.W1N1 CostMatrix.new [goal] ∅ [])
    as [[m' terrains'] offsets'].
  destruct H as (Hlen & _ & Hcells).
  { apply Forall_forall. intros c Hc.
    apply elem_of_replicate in Hc as [-> _]. lia. }
  split; [exact Hlen|].
  destruct (Hcells 10 10 0 ltac:(lia) ltac:(lia) eq_refl)
    as (v' & Hv' & _ & _ & Hwhy).
  exists v'. split; [exact Hv'|].
  intros Hne. destruct (Hwhy Hne) as (g & obj & Hg & _ & -> & _).
  apply list_elem_of_singleton in Hg as ->. reflexivity.
Defined.

(** *** The purge *)

(** X18. On a tick that is a multiple of 500 and has passed [lastReset],
    [getCosts] without [trackCreeps] for a room in sight does not serve
    what was packed: it returns the instance [refresh] builds from the
    game of that tick, after [_reset], and stores its packed form. *)
Theorem purge_tick_rebuilds_rooms_in_sight (G : Game) (id : list Z)
  (opts : Opts) (st : State) :
  lastReset st < time G -> Z.rem (time G) RESET_FREQUENCY = 0 ->
  is_Some (rooms G !! id) -> trackCreeps opts = false ->
  let st1 := Atlas.refresh G id opts (Atlas._reset G st) in
  Atlas.getCosts G id opts st = (Some (length (store st)), st1)
  /\ is_Some (PACKED_COSTS st1 !! id).
Proof.
  intros Hlast Hrem [room Hroom] Htrack. cbv zeta.
  destruct (reset_spec G st) as (_ & _ & Hstore & _ & _ & _ & Hpacked).
  specialize (Hpacked id). rewrite decide_True in Hpacked by eauto.
  unfold Atlas.getCosts.
  rewrite (decide_True (P := lastReset st < time G)) by done.
  rewrite (decide_True (P := _ \/ _)) by (by left).
  assert (COSTS_ROOM (Atlas.refresh G id opts (Atlas._reset G st)) !! id
          = Some (length (store st))
          /\ is_Some (PACKED_COSTS
                        (Atlas.refresh G id opts (Atlas._reset G st)) !! id))
    as [Hr Hp].
  { unfold Atlas.refresh. rewrite Hroom, Hstore.
    destruct (Atlas._addStructures _ _ _ _) as [m1 o1].
    destruct (match addArea opts with Some _ => _ | None => _ end)
      as [[m2 t2] o2].
    destruct (CostMatrix.pack m2 o2) as [[packed m3] o3]. cbn.
    rewrite !lookup_insert_eq. eauto. }
  rewrite Hr, Htrack. cbn. by rewrite Hr.
Qed.

Lemma purge_tick_rebuilds_rooms_in_sight_witness :
  let G := Sample.game 500 true (Sample.search_nothing true) None in
  let st := Atlas.refresh G Sample.W1N1 no_opts (initial 1) in
  Atlas.getCosts G Sample.W1N1 no_opts st
  = (Some 1%nat, Atlas.refresh G Sample.W1N1 no_opts (Atlas._reset G st)).
Proof.
  intros G st.
  apply (purge_tick_rebuilds_rooms_in_sight G Sample.W1N1 no_opts st).
  - vm_compute. reflexivity.
  - vm_compute. reflexivity.
  - vm_compute. eauto.
  - reflexivity.
Defined.

(** *** Creeps *)

Lemma creeps_loop (creeps : list Creep) (m : CostMatrix) :
  length (_bits m) = 2500%nat ->
  Forall (fun creep => in_room (c_pos creep)) creeps ->
  let m' :=
    foldl (fun matrix creep =>
             CostMatrix.set matrix (x (c_pos creep)) (y (c_pos creep)) 255)
          m creeps in
  length (_bits m') = 2500%nat
  /\ forall cx cy, 0 <= cx <= 49 -> 0 <= cy <= 49 ->
       CostMatrix.get m' cx cy
       = if decide (Exists (fun creep => x (c_pos creep) = cx
                                         /\ y (c_pos creep) = cy) creeps)
         then Some 255 else CostMatrix.get m cx cy.
Proof.
  intros Hlen Hall. revert m Hlen.
  induction Hall as [|creep creeps [Hx Hy] _ IH]; intros m Hlen; cbn [foldl].
  - split; [done|]. intros cx cy _ _. rewrite decide_False; [done|].
    by intros ?%Exists_nil.
  - destruct (IH (CostMatrix.set m (x (c_pos creep)) (y (c_pos creep)) 255))
      as [Hlen' Hcells]; [by rewrite length_set|].
    split; [done|]. intros cx cy Hcx Hcy. rewrite Hcells by done.
    rewrite get_set by done.
    destruct (decide (Exists _ creeps)) as [He|Hne].
    + rewrite decide_True; [done|]. by apply Exists_cons_tl.
    + destruct (decide (cx = x (c_pos creep) /\ cy = y (c_pos creep)))
        as [[-> ->]|Hno].
      * rewrite decide_True; [done|]. by apply Exists_cons_hd.
      * rewrite decide_False; [done|].
        intros [[? ?]|?]%Exists_cons; [|done]. apply Hno. by split.
Qed.

(** X19. [_addCreeps] for a room in sight with a per-step grid: the
    overlay it stores and returns is a new instance that holds 255 at
    every cell a creep of the room stands on and the cell of the
    per-step grid everywhere else; the per-step grid is left as it
    was. *)
Theorem addCreeps_overlay_cells (G : Game) (id : list Z) (st : State)
  (base : nat) (room : Room) (m : CostMatrix) :
  COSTS_ROOM st !! id = Some base -> rooms G !! id = Some room ->
  store st !! base = Some m -> length (_bits m) = 2500%nat ->
  (forall creep, creep ∈ FIND_CREEPS room -> in_room (c_pos creep)) ->
  let '(r, st') := Atlas._addCreeps G id st in
  r = Some (length (store st)) /\ COSTS_CREEP st' !! id = r
  /\ COSTS_ROOM st' = COSTS_ROOM st /\ store st' !! base = Some m
  /\ exists overlay,
       store st' !! length (store st) = Some overlay
       /\ forall cx cy, 0 <= cx <= 49 -> 0 <= cy <= 49 ->
            CostMatrix.get overlay cx cy
            = if decide (Exists (fun creep => x (c_pos creep) = cx
                                              /\ y (c_pos creep) = cy)
                           (FIND_CREEPS room))
              then Some 255 else CostMatrix.get m cx cy.
Proof.
  intros Hbase Hroom Hm Hlen Hin. unfold Atlas._addCreeps.
  rewrite Hbase, Hroom, Hm. cbn.
  destruct (creeps_loop (FIND_CREEPS room) (CostMatrix.clone m) Hlen)
    as [_ Hcells]; [by apply Forall_forall|].
  split_and!; try done.
  - by rewrite lookup_insert_eq.
  - rewrite lookup_app_l; [done|]. by apply lookup_lt_Some in Hm.
  - eexists. split; [by apply list_lookup_middle|]. apply Hcells.
Qed.

Lemma addCreeps_overlay_cells_witness :
  let G := Sample.game 1 true (Sample.search_nothing true) None in
  let st := Atlas.refresh G Sample.W1N1 no_opts (initial 1) in
  let '(r, st') := Atlas._addCreeps G Sample.W1N1 st in
  r = Some 1%nat /\ COSTS_ROOM st' = COSTS_ROOM st.
Proof.
  intros G st.
  pose proof (addCreeps_overlay_cells G Sample.W1N1 st 0%nat Sample.room
                (CostMatrix.pack (Atlas._addStructures G Sample.room
                                    CostMatrix.new []).1 []).1.2) as H.
  destruct (Atlas._addCreeps G Sample.W1N1 st) as [r st'].
  destruct H as (Hr & _ & Hc & _).
  - vm_compute. reflexivity.
  - reflexivity.
  - vm_compute. reflexivity.
  - vm_compute. reflexivity.
  - intros creep Hc. cbn in Hc. by apply elem_of_nil in Hc.
  - split; [exact Hr|exact Hc].
Defined.

(** *** The callback without Atlas *)

Lemma generic_loop (objects : list Structure) (m1 m2 : CostMatrix)
  (offsets : list Z) :
  _bits m1 = _bits m2 ->
  _bits (foldl (fun matrix obj =>
                  let cost := Atlas.structure_cost obj in
                  match CostMatrix.get matrix (x (s_pos obj)) (y (s_pos obj)) with
                  | Some old =>
                      if decide (cost > old)
                      then CostMatrix.set matrix (x (s_pos obj))
                             (y (s_pos obj)) cost
                      else matrix
                  | None => matrix
                  end) m1 objects)
  = _bits (foldl (fun '(matrix, offsets) obj =>
                    let cost := Atlas.structure_cost obj in
                    match CostMatrix.get matrix (x (s_pos obj)) (y (s_pos obj)) with
                    | Some old =>
                        if decide (cost > old)
                        then CostMatrix.update matrix (x (s_pos obj))
                               (y (s_pos obj)) cost offsets
                        else (matrix, offsets)
                    | None => (matrix, offsets)
                    end) (m2, offsets) objects).1.
Proof.
  revert m1 m2 offsets.
  induction objects as [|obj objects IH]; intros m1 m2 offsets Hb;
    cbn [foldl]; [done|].
  assert (CostMatrix.get m1 (x (s_pos obj)) (y (s_pos obj))
          = CostMatrix.get m2 (x (s_pos obj)) (y (s_pos obj))) as ->.
  { unfold CostMatrix.get. by rewrite Hb. }
  cbv zeta.
  destruct (CostMatrix.get m2 _ _) as [old|]; [|by apply IH].
  destruct (decide _); [|by apply IH].
  destruct (CostMatrix.update m2 (x (s_pos obj)) (y (s_pos obj))
              (Atlas.structure_cost obj) offsets) as [m2' o2'] eqn:Hu.
  apply IH. unfold CostMatrix.update in Hu.
  destruct (CostMatrix.offset_of offsets _) as [offset o'].
  injection Hu as <- _. unfold CostMatrix.set. cbn [_bits]. by rewrite Hb.
Qed.

(** X20. The callback Cartographer.js falls back on without Atlas.js gives
    no grid for a room out of sight, and for a room in sight a grid
    with the cells [Atlas._addStructures] writes on a new instance when
    no construction site counts; its [costMap] is empty, so that [pack]
    would scan it. *)
Theorem generic_callback_matches_atlas (G : Game) (id : list Z)
  (offsets : list Z) :
  match rooms G !! id with
  | None => genericCostCallback G id = None
  | Some room =>
      constructionSites G = 0%nat ->
      exists m,
        genericCostCallback G id = Some m /\ _costMap m = []
        /\ _bits m
           = _bits (Atlas._addStructures G room CostMatrix.new offsets).1
  end.
Proof.
  unfold genericCostCallback. destruct (rooms G !! id) as [room|]; [|done].
  intros Hsites. eexists. split; [done|]. split.
  - generalize (FIND_STRUCTURES room). intros objects.
    assert (_costMap CostMatrix.new = []) as Hnew by done.
    revert Hnew. generalize CostMatrix.new.
    induction objects as [|obj objects IH]; intros m Hm; cbn [foldl]; [done|].
    cbv zeta. destruct (CostMatrix.get m _ _) as [old|]; [|by apply IH].
    destruct (decide _); [|by apply IH]. by apply IH.
  - unfold Atlas._addStructures. rewrite decide_True by done.
    rewrite app_nil_r. by apply generic_loop.
Qed.

Lemma generic_callback_matches_atlas_witness :
  let G := Sample.game 1 true (Sample.search_nothing true) None in
  exists m,
    genericCostCallback G Sample.W1N1 = Some m
    /\ _bits m
       = _bits (Atlas._addStructures G Sample.room CostMatrix.new []).1.
Proof.
  intros G.
  pose proof (generic_callback_matches_atlas G Sample.W1N1 []) as H.
  change (rooms G !! Sample.W1N1) with (Some Sample.room) in H.
  destruct (H eq_refl) as (m & Hm & _ & Hb).
  exists m. split; [exact Hm|exact Hb].
Defined.

(** *** Moves *)

Section Moves.

Implicit Types (G : Game) (creep : Creep) (cache : NavCache) (k : Z).

(** The eight directions and their steps. *)
Lemma direction_of_step k ox oy :
  1 <= k <= 8 ->
  offsetsX !! Z.to_nat (k - 1) = Some ox ->
  offsetsY !! Z.to_nat (k - 1) = Some oy ->
  Lidar.getDirection (Num ox) (Num oy) = Some (Num k)
  /\ (exists c, COMPLIMENTS !! Z.to_nat (k - 1) = Some c
        /\ Lidar.getDirection (Num (- ox)) (Num (- oy)) = Some (Num c))
  /\ (ox <> 0 \/ oy <> 0) /\ -1 <= ox <= 1 /\ -1 <= oy <= 1.
Proof.
  intros Hk Hox Hoy.
  assert (k = 1 \/ k = 2 \/ k = 3 \/ k = 4 \/ k = 5 \/ k = 6 \/ k = 7
          \/ k = 8) as Hks by lia.
  destruct Hks as [->|[->|[->|[->|[->|[->|[->| ->]]]]]]];
    cbn in Hox, Hoy; injection Hox as <-; injection Hoy as <-;
    (split; [reflexivity|]; split; [eexists; split; reflexivity|]; lia).
Qed.

Lemma step_of_direction dx dy :
  Z.max (Z.abs dx) (Z.abs dy) = 1 ->
  exists k, 1 <= k <= 8
    /\ offsetsX !! Z.to_nat (k - 1) = Some dx
    /\ offsetsY !! Z.to_nat (k - 1) = Some dy.
Proof.
  intros Hstep.
  assert (dx = -1 \/ dx = 0 \/ dx = 1) as [->|[->| ->]] by lia;
    assert (dy = -1 \/ dy = 0 \/ dy = 1) as [->|[->| ->]] by lia;
    try (cbn in Hstep; lia).
  - by exists 8.
  - by exists 7.
  - by exists 6.
  - by exists 1.
  - by exists 5.
  - by exists 2.
  - by exists 3.
  - by exists 4.
Qed.

Lemma plus_first_digit k (rest : list Z) :
  1 <= k <= 8 -> JS.plus_first (48 + k :: rest) = Num k.
Proof.
  intros Hk. unfold JS.plus_first. rewrite decide_True by lia. f_equal. lia.
Qed.

(** [isAtExpected] for a creep one step from where it was, the step the
    first move of its path names. *)
Lemma arrived G creep cache (run : Run) k (rest : list Z) (p2 : RoomPosition) :
  1 <= k <= 8 -> in_room p2 ->
  nav_path cache = Some (PStr (48 + k :: rest)) ->
  last cache = Some (positionToId p2) ->
  step_to p2 k = Some (c_pos creep) ->
  x (c_pos creep) <> 0 -> x p2 <> 0 -> y (c_pos creep) <> 49 -> y p2 <> 49 ->
  as_lidar G (c_pos creep) p2 ->
  Navigator.isAtExpected G creep cache run
  = (Ok true, mkNav (nav_path cache) (target cache) (last cache) (Num 0), run).
Proof.
  intros Hk [Hx2 Hy2] Hpath Hlast Hstep Hx1 Hx2' Hy1 Hy2' Hl.
  unfold step_to in Hstep.
  destruct (offsetsX !! Z.to_nat (k - 1)) as [ox|] eqn:Hox; [|done].
  destruct (offsetsY !! Z.to_nat (k - 1)) as [oy|] eqn:Hoy; [|done].
  cbn in Hstep. injection Hstep as Hp1.
  destruct (direction_of_step k ox oy Hk Hox Hoy)
    as (_ & (c & Hc & Hback) & Hmoved & Hbx & Hby).
  unfold as_lidar, Lidar.getDirectionTo in Hl. rewrite <- Hp1 in Hl.
  cbn [roomName x y] in Hl. rewrite decide_True in Hl by done.
  replace (x p2 - (x p2 + ox)) with (- ox) in Hl by lia.
  replace (y p2 - (y p2 + oy)) with (- oy) in Hl by lia.
  rewrite Hback in Hl. injection Hl as Hl.
  unfold Navigator.isAtExpected. rewrite Hlast.
  rewrite positionFromId_inverse by done.
  cbn [fmap option_fmap option_map]. unfold Navigator.coord_is.
  rewrite <- Hp1. cbn [x y].
  rewrite (bool_decide_eq_false_2 (x p2 + ox = 0))
    by (rewrite <- Hp1 in Hx1; cbn in Hx1; lia).
  rewrite (bool_decide_eq_false_2 (x p2 = 0)) by done.
  rewrite (bool_decide_eq_false_2 (y p2 + oy = 49))
    by (rewrite <- Hp1 in Hy1; cbn in Hy1; lia).
  rewrite (bool_decide_eq_false_2 (y p2 = 49)) by done.
  cbn [orb].
  replace (bool_decide (x p2 = x p2 + ox) && bool_decide (y p2 = y p2 + oy))
    with false
    by (symmetry; apply andb_false_iff;
        destruct (decide (ox = 0));
        [right; apply bool_decide_eq_false_2; lia
        |left; apply bool_decide_eq_false_2; lia]).
  cbn [nav_path Navigator.first_move]. rewrite Hpath.
  cbn [Navigator.first_move]. rewrite plus_first_digit by done.
  cbn [JS.minus JS.at_number]. rewrite decide_True by lia. rewrite Hc, <- Hl.
  cbn [JS.strict_eq]. by rewrite bool_decide_eq_true_2.
Qed.

End Moves.

(** X21. A creep that stands one step from the tile its cache recorded,
    in the direction of the first move of its cached path, with the goal
    unchanged, neither tile at [x = 0] or [y = 49], and the game
    answering directions as LidarOverloaded.js: [getNextMove] takes that
    move off the path, sets the counter to 0, records the tile of the
    creep and answers the move that follows, without a search. *)
Theorem arrival_consumes_move (G : Game) (creep : Creep) (goal : RoomPosition)
  (opts : Opts) (random : Z) (cache : NavCache) (run : Run) (k : Z)
  (rest : list Z) (p2 : RoomPosition) :
  1 <= k <= 8 -> in_room p2 ->
  nav_path cache = Some (PStr (48 + k :: rest)) ->
  target cache = Some (positionToId goal) ->
  last cache = Some (positionToId p2) ->
  step_to p2 k = Some (c_pos creep) ->
  x (c_pos creep) <> 0 -> x p2 <> 0 -> y (c_pos creep) <> 49 -> y p2 <> 49 ->
  as_lidar G (c_pos creep) p2 ->
  Navigator.getNextMove G creep goal opts random cache run
  = (Ok (JS.plus_first rest),
     mkNav (Some (PStr rest)) (Some (positionToId goal))
       (Some (positionToId (c_pos creep))) (Num 0),
     opts, run).
Proof.
  intros Hk Hin Hpath Htarget Hlast Hstep Hx1 Hx2 Hy1 Hy2 Hl.
  unfold Navigator.getNextMove.
  rewrite Hpath at 1. cbn [Navigator.truthy].
  rewrite bool_decide_eq_true_2 by done. cbn [andb negb].
  rewrite (arrived G creep cache run k rest p2) by done.
  cbn [nav_path]. rewrite Hpath. cbn [target last stuck nav_path].
  rewrite Htarget. reflexivity.
Qed.

Lemma arrival_consumes_move_witness :
  let G := Sample.game 1 true (Sample.search_nothing false) None in
  let cache :=
    mkNav (Some (PStr (JS.str "73"))) (Some (positionToId Sample.near))
      (Some (positionToId (mkPos 26 25 Sample.W1N1))) (Num 1) in
  Navigator.getNextMove G Sample.creep Sample.near no_opts 0 cache
    (mkRun (initial 1) [])
  = (Ok (Num 3),
     mkNav (Some (PStr (JS.str "3"))) (Some (positionToId Sample.near))
       (Some (positionToId (c_pos Sample.creep))) (Num 0),
     no_opts, mkRun (initial 1) []).
Proof.
  intros G cache.
  apply (arrival_consumes_move G Sample.creep Sample.near no_opts 0 cache
           (mkRun (initial 1) []) 7 (JS.str "3") (mkPos 26 25 Sample.W1N1)).
  - lia.
  - unfold in_room. simpl. lia.
  - reflexivity.
  - reflexivity.
  - reflexivity.
  - reflexivity.
  - simpl. lia.
  - simpl. lia.
  - simpl. lia.
  - simpl. lia.
  - reflexivity.
Defined.

(** X22. A creep on a tile with [x = 0] or [y = 49] is never seen to have
    arrived: with a cached path, the goal unchanged and a recorded tile,
    whatever that tile and whatever the game answers, [getNextMove]
    leaves the path whole, raises the counter by one and answers the
    first move again (the counter below the obstruction threshold). *)
Theorem border_tile_never_arrives (G : Game) (creep : Creep)
  (goal : RoomPosition) (opts : Opts) (random n : Z) (cache : NavCache)
  (run : Run) :
  x (c_pos creep) = 0 \/ y (c_pos creep) = 49 ->
  Navigator.truthy (nav_path cache) = true ->
  target cache = Some (positionToId goal) ->
  is_Some (last cache) ->
  stuck cache = Num n -> n + 1 <= 2 ->
  exists run',
    Navigator.getNextMove G creep goal opts random cache run
    = (Navigator.first_move (nav_path cache),
       mkNav (nav_path cache) (target cache)
         (Some (positionToId (c_pos creep))) (Num (n + 1)),
       opts, run')
    /\ mods run' = mods run
    /\ calls run'
       = calls run ++ (if decide (n + 1 > 1)
                       then [EvSay (c_name creep) (n + 1)] else []).
Proof.
  intros Hborder Htruthy Htarget [id Hlast] Hstuck Hn.
  unfold Navigator.getNextMove.
  rewrite Htruthy, bool_decide_eq_true_2 by done. cbn [andb negb].
  unfold Navigator.isAtExpected. rewrite Hlast.
  replace (bool_decide (x (c_pos creep) = 0)
           || Navigator.coord_is (x <$> positionFromId id) 0
           || bool_decide (y (c_pos creep) = 49)
           || Navigator.coord_is (y <$> positionFromId id) 49) with true.
  2:{ symmetry. destruct Hborder as [H|H].
      - by rewrite (bool_decide_eq_true_2 _ H).
      - rewrite (bool_decide_eq_true_2 _ H). by rewrite orb_true_r. }
  cbn [orb]. rewrite Hstuck. cbn [JS.incr nav_path target last stuck].
  replace (JS.gt (Num (n + 1)) 2) with false
    by (symmetry; apply bool_decide_eq_false_2; lia).
  cbn [andb]. eexists. split; [reflexivity|].
  unfold JS.gt. destruct (decide (n + 1 > 1)).
  - rewrite bool_decide_eq_true_2 by done. done.
  - rewrite bool_decide_eq_false_2 by done. by rewrite app_nil_r.
Qed.

Lemma border_tile_never_arrives_witness :
  let G := Sample.game 1 true (Sample.search_nothing false) None in
  let creep := mkCreep (JS.str "scout") (mkPos 0 25 Sample.W1N1) true 0 false in
  let cache :=
    mkNav (Some (PStr (JS.str "73"))) (Some (positionToId Sample.near))
      (Some (positionToId (mkPos 1 25 Sample.W1N1))) (Num 0) in
  exists run',
    Navigator.getNextMove G creep Sample.near no_opts 0 cache
      (mkRun (initial 1) [])
    = (Ok (Num 7),
       mkNav (Some (PStr (JS.str "73"))) (Some (positionToId Sample.near))
         (Some (positionToId (c_pos creep))) (Num 1),
       no_opts, run').
Proof.
  intros G creep cache.
  destruct (border_tile_never_arrives G creep Sample.near no_opts 0 0 cache
              (mkRun (initial 1) [])) as (run' & Hrun & _).
  - left. reflexivity.
  - reflexivity.
  - reflexivity.
  - eexists. reflexivity.
  - reflexivity.
  - lia.
  - exists run'. exact Hrun.
Defined.

(** *** What a call records *)

Section Records.

Implicit Types (G : Game) (creep : Creep) (cache : NavCache).

Lemma isAtExpected_cache G creep cache (run : Run) :
  let '(r, cache', run') := Navigator.isAtExpected G creep cache run in
  nav_path cache' = nav_path cache /\ target cache' = target cache
  /\ last cache' = last cache /\ mods run' = mods run.
Proof.
  unfold Navigator.isAtExpected.
  destruct (last cache) as [id|] eqn:Hlast; [|done].
  destruct (_ || _).
  - split_and!; try done. destruct (JS.gt _ _); [|done].
    by destruct (JS.incr (stuck cache)).
  - cbn [nav_path]. by destruct (Navigator.first_move (nav_path cache)).
Qed.

Lemma getNewPath_cache G creep (goal : RoomPosition) cache (opts : Opts)
  (run : Run) :
  (Navigator.getNewPath G creep goal cache opts run).1.1.2
  = mkNav (nav_path cache) (Some (positionToId goal)) (last cache) (Num 0).
Proof.
  unfold Navigator.getNewPath.
  destruct (if stealth opts then _ else _) as [[o|e] run1]; [|done].
  by destruct (Cartographer.findPath _ _ _ _ _) as [path run2].
Qed.

Lemma truthy_is_Some (p : option PathVal) :
  Navigator.truthy p = true -> is_Some p.
Proof. destruct p; [eauto|done]. Qed.

(** The first statement of [getNextMove], when it asks for no search. *)
Lemma getNextMove_kept G creep (goal : RoomPosition) (opts : Opts)
  (random : Z) cache (run : Run) cache1 opts1 run1 :
  (if negb (Navigator.truthy (nav_path cache)
            && bool_decide (target cache = Some (positionToId goal)))
   then (Ok true, cache, opts, run)
   else
     match Navigator.isAtExpected G creep cache run with
     | (Throw e, cache, run) => (Throw e, cache, opts, run)
     | (Ok true, cache, run) =>
         match nav_path cache with
         | Some (PStr s) =>
             (Ok false,
              mkNav (Some (PStr (JS.substring s 1))) (target cache)
                (last cache) (stuck cache),
              opts, run)
         | _ => (Throw TypeError, cache, opts, run)
         end
     | (Ok false, cache, run) =>
         if JS.gt (stuck cache) 2
            && match stuck cache with
               | Num n => bool_decide (50 > random - n)
               | NaN => false
               end
         then
           if trackCreeps opts then (Ok true, cache, opts, run)
           else
             let '(moved, opts, run) :=
               Navigator.moveObstruction G creep cache opts run in
             (moved, cache, opts, run)
         else (Ok false, cache, opts, run)
     end) = (Ok false, cache1, opts1, run1) ->
  target cache1 = Some (positionToId goal) /\ is_Some (nav_path cache1).
Proof.
  destruct (Navigator.truthy (nav_path cache)) eqn:Ht; cbn [andb negb];
    [|done].
  case_bool_decide as Htarget; cbn [negb]; [|done].
  pose proof (isAtExpected_cache G creep cache run) as Hc.
  destruct (Navigator.isAtExpected G creep cache run)
    as [[[[|]|e] cache2] run2]; [| |done];
    destruct Hc as (Hp & Htg & _ & _).
  - destruct (nav_path cache2) as [[s|l]|]; try done.
    intros [= <- _ _]. cbn. rewrite Htg. eauto.
  - assert (target cache2 = Some (positionToId goal)
            /\ is_Some (nav_path cache2)) as Hkept.
    { rewrite Htg, Hp. split; [done|]. by apply truthy_is_Some. }
    destruct (_ && _).
    + destruct (trackCreeps opts); [done|].
      destruct (Navigator.moveObstruction G creep cache2 opts run2)
        as [[moved opts2] run3].
      by intros [= _ <- _ _].
    + by intros [= <- _ _].
Qed.

End Records.

(** X23. Whenever [getNextMove] answers, the cache it leaves holds a path,
    the identifier of the goal as its target and the identifier of the
    tile of the creep as its last position, which for a creep inside a
    room [positionFromId] decodes to that tile. *)
Theorem getNextMove_records_goal_and_tile (G : Game) (creep : Creep)
  (goal : RoomPosition) (opts : Opts) (random : Z) (cache : NavCache)
  (run : Run) :
  let '(r, cache', opts', run') :=
    Navigator.getNextMove G creep goal opts random cache run in
  forall move, r = Ok move ->
    target cache' = Some (positionToId goal)
    /\ last cache' = Some (positionToId (c_pos creep))
    /\ is_Some (nav_path cache')
    /\ (in_room (c_pos creep) ->
        last cache' ≫= positionFromId = Some (c_pos creep)).
Proof.
  assert (in_room (c_pos creep) ->
    Some (positionToId (c_pos creep)) ≫= positionFromId = Some (c_pos creep))
    as Hdecode.
  { intros [Hx Hy]. by apply positionFromId_inverse. }
  unfold Navigator.getNextMove.
  pose proof (getNextMove_kept G creep goal opts random cache run) as Hkept.
  destruct (if negb _ then _ else _) as [[[[pathError|e] cache1] opts1] run1];
    [|done].
  destruct pathError.
  - clear Hkept.
    pose proof (getNewPath_cache G creep goal
                  (mkNav (nav_path cache1) (target cache1)
                     (Some (positionToId (c_pos creep))) (stuck cache1))
                  opts1 run1) as Hnew.
    destruct (Navigator.getNewPath _ _ _ _ _ _)
      as [[[[path|e] cache2] opts2] run2]; [|done].
    cbn [fst snd] in Hnew. subst cache2. cbn [nav_path target last stuck].
    intros move _. split_and!; [done|done|eauto|done].
  - destruct (Hkept cache1 opts1 run1 eq_refl) as [Htarget Hpath].
    cbn [nav_path target last stuck]. intros move _.
    split_and!; [done|done|done|done].
Qed.

Lemma getNextMove_records_goal_and_tile_witness :
  let G := Sample.game 1 true (Sample.search_nothing false) None in
  let '(r, cache', _, _) :=
    Navigator.getNextMove G Sample.creep Sample.near no_opts 0 empty_nav
      (mkRun (initial 1) []) in
  r = Ok NaN
  /\ target cache' = Some (positionToId Sample.near)
  /\ last cache' ≫= positionFromId = Some (c_pos Sample.creep).
Proof.
  intros G.
  pose proof (getNextMove_records_goal_and_tile G Sample.creep Sample.near
                no_opts 0 empty_nav (mkRun (initial 1) [])) as H.
  destruct (Navigator.getNextMove G Sample.creep Sample.near no_opts 0
              empty_nav (mkRun (initial 1) []))
    as [[[r cache'] opts'] run'] eqn:E.
  vm_compute in E. injection E as <- <- <- <-.
  destruct (H NaN eq_refl) as (Ht & _ & _ & Hd).
  split; [reflexivity|]. split; [exact Ht|].
  apply Hd. unfold in_room. simpl. lia.
Defined.

(** *** The creep in the way *)

(** X24. [moveObstruction] with the game answering directions as
    LidarOverloaded.js: for a creep whose first cached move is the
    direction [k], the tile ahead inside the room, and a creep of the
    player standing there, neither tired nor spawning, that creep is
    told to move in the direction [COMPLIMENTS] gives for [k], that is
    onto the tile of the first, and is marked as scheduled for the swap;
    the options are left as they are and the answer is [true]. *)
Theorem moveObstruction_swaps (G : Game) (creep other : Creep)
  (cache : NavCache) (opts : Opts) (run : Run) (k c : Z) (rest : list Z)
  (ahead : RoomPosition) (others : list Creep) :
  1 <= k <= 8 ->
  nav_path cache = Some (PStr (48 + k :: rest)) ->
  step_to (c_pos creep) k = Some ahead -> in_room ahead ->
  lookForAt_creeps G (roomName (c_pos creep)) (Num (x ahead)) (Num (y ahead))
  = other :: others ->
  c_pos other = ahead ->
  c_my other = true -> fatigue other = 0 -> spawning other = false ->
  as_lidar G (c_pos other) (c_pos creep) ->
  COMPLIMENTS !! Z.to_nat (k - 1) = Some c ->
  Navigator.moveObstruction G creep cache opts run
  = (Ok true, opts,
     mkRun (mods run)
       (calls run ++ [EvMove (c_name other) (Num c);
                      EvSwapScheduled (c_name other) (time G)])).
Proof.
  intros Hk Hpath Hstep [Hax Hay] Hlook Hpos Hmy Hfat Hspawn Hl Hc.
  unfold step_to in Hstep.
  destruct (offsetsX !! Z.to_nat (k - 1)) as [ox|] eqn:Hox; [|done].
  destruct (offsetsY !! Z.to_nat (k - 1)) as [oy|] eqn:Hoy; [|done].
  cbn in Hstep. injection Hstep as Hahead.
  destruct (direction_of_step k ox oy Hk Hox Hoy)
    as (_ & (c' & Hc' & Hback) & _).
  rewrite Hc in Hc'. injection Hc' as <-.
  unfold as_lidar, Lidar.getDirectionTo in Hl. rewrite Hpos, <- Hahead in Hl.
  cbn [roomName x y] in Hl. rewrite decide_True in Hl by done.
  replace (x (c_pos creep) - (x (c_pos creep) + ox)) with (- ox) in Hl by lia.
  replace (y (c_pos creep) - (y (c_pos creep) + oy)) with (- oy) in Hl by lia.
  rewrite Hback in Hl. injection Hl as Hl.
  unfold Navigator.moveObstruction. rewrite Hpath.
  cbn [Navigator.first_move]. rewrite plus_first_digit by done.
  cbn [JS.minus JS.at_number]. rewrite !(decide_True (P := 0 <= k - 1)) by lia.
  fold offsetsX offsetsY. rewrite Hox, Hoy. cbv beta iota zeta.
  rewrite <- Hahead in Hax, Hay, Hlook. cbn [x y] in Hax, Hay, Hlook.
  rewrite (Z.add_comm ox), (Z.add_comm oy).
  unfold JS.lt, JS.gt.
  rewrite !bool_decide_eq_false_2 by lia. cbn [orb].
  rewrite Hlook. cbn [head]. rewrite Hmy, Hfat, Hspawn.
  rewrite bool_decide_eq_true_2 by done. cbn [andb negb orb].
  rewrite Hpos, <- Hahead, <- Hl. unfold emit. cbn [mods calls].
  by rewrite <- app_assoc.
Qed.

Lemma moveObstruction_swaps_witness :
  let other := mkCreep (JS.str "hauler") (mkPos 24 25 Sample.W1N1) true 0 false in
  let G :=
    mkGame 1 {[ Sample.W1N1 := Sample.room ]} 0 [] (fun _ _ _ => 0)
      (fun _ _ => 0) (fun _ => []) (fun _ => []) (fun _ _ _ => [other])
      (fun _ _ => Num RIGHT) (fun _ _ => None) (fun _ _ => NaN)
      (Sample.search_nothing false) None None None in
  Navigator.moveObstruction G Sample.creep
    (mkNav (Some (PStr (JS.str "7"))) None None (Num 3)) no_opts
    (mkRun (initial 1) [])
  = (Ok true, no_opts,
     mkRun (initial 1)
       [EvMove (JS.str "hauler") (Num RIGHT);
        EvSwapScheduled (JS.str "hauler") 1]).
Proof.
  intros other G.
  apply (moveObstruction_swaps G Sample.creep other
           (mkNav (Some (PStr (JS.str "7"))) None None (Num 3)) no_opts
           (mkRun (initial 1) []) 7 RIGHT [] (mkPos 24 25 Sample.W1N1) []).
  - lia.
  - reflexivity.
  - reflexivity.
  - unfold in_room. simpl. lia.
  - reflexivity.
  - reflexivity.
  - reflexivity.
  - reflexivity.
  - reflexivity.
  - reflexivity.
  - reflexivity.
Defined.

(** *** The stealth map *)

Section Stealth.

Implicit Types (G : Game) (room : Room) (st : State).

Lemma least_loop (walkable : list (RoomPosition * number)) (init : option Z) :
  match foldl (fun least '(_, range) =>
                 match range, least with
                 | Num r, Some l => Some (Z.min r l)
                 | Num r, None => Some r
                 | NaN, _ => least
                 end) init walkable with
  | None => init = None /\ forall p n, (p, n) ∈ walkable -> n = NaN
  | Some l =>
      (init = Some l \/ exists p, (p, Num l) ∈ walkable)
      /\ (forall i, init = Some i -> l <= i)
      /\ forall p r, (p, Num r) ∈ walkable -> l <= r
  end.
Proof.
  revert init. induction walkable as [|[q n] walkable IH]; intros init;
    cbn [foldl].
  - destruct init as [l|].
    + split_and!; [by left|by intros i [= <-]|by intros p r ?%elem_of_nil].
    + split; [done|]. by intros p n ?%elem_of_nil.
  - set (next := match n, init with
                 | Num r, Some l => Some (Z.min r l)
                 | Num r, None => Some r
                 | NaN, _ => init
                 end).
    specialize (IH next). destruct (foldl _ next walkable) as [l|].
    + destruct IH as (Hwhere & Hle & Hall). split_and!.
      * destruct Hwhere as [Hnext|[p Hp]]; [|right; exists p; by right].
        subst next. destruct n as [r|]; [|by left].
        destruct init as [i|].
        -- injection Hnext as <-.
           destruct (decide (r <= i)).
           ++ right. exists q. rewrite Z.min_l by done. by left.
           ++ left. f_equal. lia.
        -- injection Hnext as <-. right. exists q. by left.
      * intros i ->. subst next. destruct n as [r|].
        -- specialize (Hle _ eq_refl). lia.
        -- by apply Hle.
      * intros p r [[= -> <-]|Hin]%elem_of_cons; [|by eapply Hall].
        subst next. destruct init as [i|]; specialize (Hle _ eq_refl); lia.
    + destruct IH as [Hnext Hall]. subst next.
      destruct n as [r|]; [by destruct init|].
      split; [done|]. intros p n [[= -> ->]|Hin]%elem_of_cons; [done|].
      by eapply Hall.
Qed.

Lemma stealth_loop G room (goals : list RoomPosition)
  (tiles : list RoomPosition) st :
  let '(tiles', st') :=
    foldl (fun '(tiles, st) src =>
             let lair :=
               findClosestByRange G src (FIND_HOSTILE_STRUCTURES room) in
             let '(area, terrains) :=
               Atlas.getWalkableArea G src 1 (TERRAIN st) in
             let st := set_TERRAIN terrains st in
             let walkable :=
               (fun '(tx, ty) =>
                  let pos := mkPos tx ty (r_name room) in
                  (pos, getRangeTo G pos lair)) <$> area in
             let closest := Navigator.least_range walkable in
             (tiles ++ (filter (fun t => JS.strict_eq closest t.2 = true)
                          walkable).*1,
              st))
          (tiles, st) goals in
  st' = set_TERRAIN (TERRAIN st') st
  /\ TERRAIN st ⊆ TERRAIN st'
  /\ (forall name, terrain_of G (TERRAIN st') name
                   = terrain_of G (TERRAIN st) name)
  /\ forall t, t ∈ tiles' ->
       t ∈ tiles
       \/ exists src, src ∈ goals /\ kept_for G room (TERRAIN st) src t.
Proof.
  revert tiles st. induction goals as [|src goals IH]; intros tiles st;
    cbn [foldl].
  - split_and!; [by destruct st|done|done|]. intros t Ht. by left.
  - cbv zeta.
    pose proof (walkable_area_spec G src 1 (TERRAIN st)) as Hw.
    pose proof (getWalkableArea_terrain G src 1 (TERRAIN st)) as Hsame.
    pose proof (getWalkableArea_grows G src 1 (TERRAIN st)) as Hgrow.
    destruct (Atlas.getWalkableArea G src 1 (TERRAIN st)) as [area terrains].
    cbn [snd] in Hsame, Hgrow. destruct Hw as (Harea & _).
    set (lair := findClosestByRange G src (FIND_HOSTILE_STRUCTURES room)).
    set (walkable := (fun '(tx, ty) => _) <$> area).
    pose proof (least_loop walkable None) as Hleast.
    fold (Navigator.least_range walkable) in Hleast.
    specialize (IH (tiles ++ (filter (fun t => JS.strict_eq
                                (Navigator.least_range walkable) t.2 = true)
                                walkable).*1)
                  (set_TERRAIN terrains st)).
    destruct (foldl _ (_, set_TERRAIN terrains st) goals) as [tiles' st'].
    destruct IH as (Hst & Hsub & Hterrain & Htiles). split_and!.
    + by rewrite Hst.
    + etrans; [exact Hgrow|exact Hsub].
    + intros name. rewrite Hterrain. apply Hsame.
    + intros t Ht. destruct (Htiles t Ht) as [Hin|(src' & Hsrc' & Hkept)].
      * apply elem_of_app in Hin as [Hin|Hin]; [by left|]. right.
        exists src. split; [by left|].
        apply list_elem_of_fmap in Hin as ([t' n] & -> & Hin).
        apply list_elem_of_filter in Hin as [Heq Hin]. cbn [fst snd] in *.
        subst walkable.
        apply list_elem_of_fmap in Hin as ([tx ty] & [= -> ->] & Harea').
        apply Harea in Harea' as (Htx & Hty & Hwall).
        destruct (Navigator.least_range _) as [l|] eqn:Hl; [|done].
        destruct (getRangeTo G _ lair) as [r|] eqn:Hr; [|done].
        apply bool_decide_eq_true in Heq as ->.
        destruct Hleast as (_ & _ & Hmin).
        unfold kept_for, in_room. cbn [x y roomName].
        split_and!; try done; try lia.
        exists r. split; [done|].
        intros tx' ty' r' Hx' Hy' Hbx Hby Hwall' Hr'.
        apply (Hmin (mkPos tx' ty' (r_name room))).
        apply list_elem_of_fmap. exists (tx', ty').
        split; [cbn; subst lair; by rewrite Hr'|].
        apply Harea. split_and!; try done; lia.
      * right. exists src'. split; [by right|].
        unfold kept_for in *. cbn [TERRAIN set_TERRAIN] in Hkept.
        by rewrite <- !Hsame.
Qed.

End Stealth.

(** X25. [getStealthMap], with [getRoomType] bound, answers [null] for a
    room that is not of type [sourceKeeper], and otherwise one area of
    size 3 and cost 225 with no [replace].  Each of its tiles is a tile
    of the room within one step of a source or a mineral, not a wall,
    with a number for range to the lair closest to that source, and no
    tile around that source has a smaller one.  The call logs nothing
    and changes nothing of the state but what [TERRAIN] caches. *)
Theorem getStealthMap_tiles (G : Game) (room : Room) (run : Run)
  (type_of : list Z -> list Z) :
  getRoomType G = Some type_of ->
  exists area run',
    Navigator.getStealthMap G room run = (Ok area, run')
    /\ calls run' = calls run
    /\ mods run' = set_TERRAIN (TERRAIN (mods run')) (mods run)
    /\ TERRAIN (mods run) ⊆ TERRAIN (mods run')
    /\ match area with
       | None => type_of (r_name room) <> JS.str "sourceKeeper" /\ run' = run
       | Some goals =>
           type_of (r_name room) = JS.str "sourceKeeper"
           /\ exists tiles,
                goals = [mkAreaGoal tiles 3 225 None]
                /\ forall t, t ∈ tiles ->
                     exists src,
                       src ∈ FIND_SOURCES room ++ FIND_MINERALS room
                       /\ kept_for G room (TERRAIN (mods run)) src t
       end.
Proof.
  intros Htype. unfold Navigator.getStealthMap. rewrite Htype.
  destruct (decide (type_of (r_name room) <> JS.str "sourceKeeper"))
    as [Hother|Hkeeper].
  - exists None, run. split_and!; try done. by destruct run as [[] ?].
  - apply dec_stable in Hkeeper. unfold bind, lift.
    pose proof (stealth_loop G room
                  (FIND_SOURCES room ++ FIND_MINERALS room) [] (mods run))
      as Hloop.
    destruct (foldl _ ([], mods run) _) as [tiles st'].
    destruct Hloop as (Hst & Hsub & _ & Htiles).
    eexists _, _. split; [reflexivity|]. cbn [calls mods].
    split_and!; try done.
    exists tiles. split; [done|]. intros t Ht.
    by destruct (Htiles t Ht) as [?%elem_of_nil|?].
Qed.

Lemma getStealthMap_tiles_witness :
  let type_of (room : list Z) := JS.str "sourceKeeper" in
  let G :=
    mkGame 1 ∅ 0 [] (fun _ _ _ => 0) (fun _ _ => 0) (fun _ => [])
      (fun _ => []) (fun _ _ _ => []) (fun _ _ => Num RIGHT)
      (fun _ _ => None) (fun p _ => Num (x p)) (Sample.search_nothing false)
      None (Some type_of) None in
  let room :=
    mkRoom Sample.W1N1 [] [] [] [mkPos 10 10 Sample.W1N1] [] [] in
  exists tiles run',
    Navigator.getStealthMap G room (mkRun (initial 1) [])
    = (Ok (Some [mkAreaGoal tiles 3 225 None]), run')
    /\ Forall (fun t => x t = 9) tiles.
Proof.
  intros type_of G room.
  destruct (getStealthMap_tiles G room (mkRun (initial 1) []) type_of
              eq_refl) as (area & run' & Hmap & _ & _ & _ & Harea).
  destruct area as [goals|]; [|by destruct Harea].
  destruct Harea as (_ & tiles & -> & Htiles).
  exists tiles, run'. split; [exact Hmap|].
  apply Forall_forall. intros t Ht.
  destruct (Htiles t Ht) as (src & Hsrc & Hkept).
  apply list_elem_of_singleton in Hsrc as ->.
  destruct Hkept as (_ & _ & Hx & _ & _ & r & Hr & Hmin).
  cbn in Hr, Hx. injection Hr as <-.
  specialize (Hmin 9 10 9). cbn in Hmin.
  assert (x t <= 9); [|lia].
  apply Hmin; [lia|lia|lia|lia|vm_compute; intros [=]|reflexivity].
Defined.

(** *** The searches of one [findPath] *)

Section Searches.

Implicit Types (G : Game) (start goal : RoomPosition) (opts : Opts) (run : Run).

(** [findPath] with [findRoute] bound and [serialize] at [false]: the
    searches, the log, the cut. *)
Lemma findPath_array G start goal opts run :
  serialize opts = Some false ->
  forall method, findRoute G = Some method ->
  let r1 := roomName start in
  let r2 := roomName goal in
  let distance := getRoomLinearDistance G r1 r2 in
  let route := method r1 r2 opts in
  let first :=
    if decide (distance > 2)
    then Cartographer.callPathFinder G start goal opts (Some route)
           (emit (EvFindRoute r1 r2) run)
    else Cartographer.callPathFinder G start goal opts None run in
  let second :=
    Cartographer.callPathFinder G start goal opts (Some route)
      (emit (EvFindRoute r1 r2) first.2) in
  let final :=
    if incomplete first.1 && bool_decide (distance <= 2) then second
    else first in
  let logged :=
    if incomplete final.1 then emit (EvLog start goal) final.2 else final.2 in
  Cartographer.findPath G start goal opts run
  = match (if stealth opts
           then Cartographer.cut_at_sourceKeeper G (path final.1)
           else ret (path final.1)) logged with
    | (Ok kept, run') => (Ok (PArr kept), run')
    | (Throw e, run') => (Throw e, run')
    end.
Proof.
  intros Hserialize method Hmethod. cbv zeta.
  unfold Cartographer.findPath.
  destruct (decide (serialize opts = Some false)) as [_|]; [|done].
  destruct (decide (getRoomLinearDistance G (roomName start) (roomName goal) > 2))
    as [Hfar|Hnear].
  - unfold bind at 1 2.
    rewrite (call_findRoute_bound G _ _ opts method run Hmethod). cbn [ret].
    unfold bind at 1.
    destruct (Cartographer.callPathFinder G start goal opts _ _)
      as [result run1].
    rewrite !(bool_decide_eq_false_2 (_ <= 2)) by lia.
    rewrite !andb_false_r. cbn [fst snd]. unfold bind at 1. unfold ret at 1.
    unfold bind at 1.
    destruct (incomplete result); unfold tell, ret at 1; unfold bind;
      by destruct (if stealth opts then _ else _) as [[kept|e] run2].
  - unfold bind at 1. cbn [ret]. unfold bind at 1.
    destruct (Cartographer.callPathFinder G start goal opts None run)
      as [result run1].
    rewrite !(bool_decide_eq_true_2 (_ <= 2)) by lia.
    rewrite !andb_true_r. cbn [fst snd].
    destruct (incomplete result) eqn:Hinc.
    + unfold bind at 1 2.
      rewrite (call_findRoute_bound G _ _ opts method run1 Hmethod).
      destruct (Cartographer.callPathFinder G start goal opts _ _)
        as [result2 run2].
      cbn [fst snd]. unfold bind at 1.
      destruct (incomplete result2); unfold tell, ret at 1; unfold bind;
        by destruct (if stealth opts then _ else _) as [[kept|e] run3].
    + unfold bind at 1. unfold ret at 1. cbn [fst snd]. rewrite Hinc.
      unfold bind at 1. unfold ret at 1. unfold bind.
      by destruct (if stealth opts then _ else _) as [[kept|e] run3].
Qed.

(** The cut. *)
Lemma cut_spec G (path : list RoomPosition) run (type_of : list Z -> list Z) :
  getRoomType G = Some type_of ->
  exists kept,
    Cartographer.cut_at_sourceKeeper G path run = (Ok kept, run)
    /\ kept `prefix_of` path
    /\ Forall (fun p => type_of (roomName p) <> JS.str "sourceKeeper") kept
    /\ (Forall (fun p => type_of (roomName p) <> JS.str "sourceKeeper") path ->
        kept = path)
    /\ (forall p, path !! length kept = Some p ->
          type_of (roomName p) = JS.str "sourceKeeper").
Proof.
  intros Htype. unfold Cartographer.cut_at_sourceKeeper. rewrite Htype.
  destruct path as [|p0 path0] eqn:Hpath.
  { exists []. by split_and!. }
  rewrite <- Hpath. clear Hpath p0 path0.
  destruct (list_find _ path) as [[i p]|] eqn:Hfind.
  - apply list_find_Some in Hfind as (Hi & Hp & Hbefore).
    exists (take i path). unfold ret.
    assert (length (take i path) = i) as Hlen.
    { rewrite length_take. apply lookup_lt_Some in Hi. lia. }
    split_and!; try done.
    + apply prefix_take.
    + apply Forall_lookup. intros j q Hq.
      apply lookup_take_Some in Hq as [Hq Hj]. by apply (Hbefore j).
    + intros Hall. exfalso.
      by apply (Forall_lookup_1 _ _ _ _ Hall Hi).
    + intros q. rewrite Hlen, Hi. by intros [= <-].
  - apply list_find_None in Hfind.
    exists path. unfold ret. split_and!; try done.
    intros p Hp. apply lookup_lt_Some in Hp. lia.
Qed.

End Searches.

(** X26. With [findRoute] bound, no stealth and [serialize] at [false],
    [findPath] makes one search, or two: the second, after asking for
    the route, exactly when the rooms are at most two apart and the
    first search came back incomplete.  More than two rooms apart an
    incomplete search is not tried again.  The positions returned are
    those of the last search made, and the path is logged as incomplete
    exactly when that search was. *)
Theorem findPath_searches_once_or_twice (G : Game) (start goal : RoomPosition)
  (opts : Opts) (run : Run)
  (method : list Z -> list Z -> Opts -> list (list Z)) :
  stealth opts = false -> serialize opts = Some false ->
  findRoute G = Some method ->
  let r1 := roomName start in
  let r2 := roomName goal in
  let distance := getRoomLinearDistance G r1 r2 in
  let route := method r1 r2 opts in
  let first :=
    if decide (distance > 2)
    then Cartographer.callPathFinder G start goal opts (Some route)
           (emit (EvFindRoute r1 r2) run)
    else Cartographer.callPathFinder G start goal opts None run in
  let second :=
    Cartographer.callPathFinder G start goal opts (Some route)
      (emit (EvFindRoute r1 r2) first.2) in
  let retried := incomplete first.1 && bool_decide (distance <= 2) in
  let final := if retried then second else first in
  let limit (route : option (list (list Z))) :=
    Cartographer.or_default (maxRooms opts)
      (match route with
       | Some route => Z.of_nat (length route)
       | None => 16
       end) in
  let range (run : Run) := (Cartographer.getRange G goal opts (mods run)).1 in
  (Cartographer.findPath G start goal opts run).1 = Ok (PArr (path final.1))
  /\ calls (Cartographer.findPath G start goal opts run).2
     = calls run
       ++ (if decide (distance > 2)
           then [EvFindRoute r1 r2;
                 EvSearch start (range run) goal (Some route)
                   (limit (Some route))]
           else [EvSearch start (range run) goal None (limit None)])
       ++ (if retried
           then [EvFindRoute r1 r2;
                 EvSearch start (range first.2) goal (Some route)
                   (limit (Some route))]
           else [])
       ++ (if incomplete final.1 then [EvLog start goal] else []).
Proof.
  intros Hstealth Hserialize Hmethod. cbv zeta.
  rewrite (findPath_array G start goal opts run Hserialize method Hmethod).
  rewrite Hstealth. unfold ret at 1 2. cbn [fst snd].
  split; [done|].
  set (r1 := roomName start). set (r2 := roomName goal).
  set (route := method r1 r2 opts).
  destruct (decide (getRoomLinearDistance G r1 r2 > 2)) as [Hfar|Hnear].
  - rewrite (bool_decide_eq_false_2 (_ <= 2)) by lia.
    rewrite andb_false_r.
    pose proof (callPathFinder_calls G start goal opts (Some route)
                  (emit (EvFindRoute r1 r2) run)) as Hs.
    destruct (Cartographer.callPathFinder G start goal opts (Some route) _)
      as [result run1]. cbn [fst snd] in *.
    destruct (incomplete result); cbn [calls emit]; rewrite Hs;
      cbn [calls emit mods]; rewrite <- ?app_assoc; cbn [app];
      by rewrite ?app_nil_r.
  - rewrite (bool_decide_eq_true_2 (_ <= 2)) by lia.
    rewrite andb_true_r.
    pose proof (callPathFinder_calls G start goal opts None run) as Hs.
    destruct (Cartographer.callPathFinder G start goal opts None run)
      as [result run1]. cbn [fst snd] in *.
    destruct (incomplete result) eqn:Hinc.
    + pose proof (callPathFinder_calls G start goal opts (Some route)
                    (emit (EvFindRoute r1 r2) run1)) as Hs2.
      destruct (Cartographer.callPathFinder G start goal opts (Some route) _)
        as [result2 run2]. cbn [fst snd] in *.
      destruct (incomplete result2); cbn [calls emit]; rewrite Hs2;
        cbn [calls emit mods]; rewrite Hs; rewrite <- ?app_assoc; cbn [app];
        by rewrite ?app_nil_r.
    + cbn [fst snd]. rewrite Hinc, Hs. by rewrite !app_nil_r.
Qed.

Lemma findPath_searches_once_or_twice_witness :
  let G := Sample.game 1 true (Sample.search_nothing true)
             (Some Sample.six_rooms) in
  let opts :=
    mkOpts false false None None None false false (Some false) false None
      None None false None None None None in
  exists events,
    calls (Cartographer.findPath G (c_pos Sample.creep) Sample.near opts
             (mkRun (initial 1) [])).2 = events
    /\ length events = 4%nat.
Proof.
  intros G opts. eexists. split.
  - apply (findPath_searches_once_or_twice G (c_pos Sample.creep) Sample.near
             opts (mkRun (initial 1) []) Sample.six_rooms);
      reflexivity.
  - vm_compute. reflexivity.
Defined.

(** *** The cut before a source keeper room *)

(** X27. With [opts.stealth], [findRoute] and [getRoomType] bound and
    [serialize] at [false], [findPath] returns the start of the path of
    its last search up to, and without, the first position in a room of
    type [sourceKeeper]: no position returned is in such a room, and a
    path without one is returned whole. *)
Theorem stealth_path_stops_before_source_keepers (G : Game)
  (start goal : RoomPosition) (opts : Opts) (run : Run)
  (method : list Z -> list Z -> Opts -> list (list Z))
  (type_of : list Z -> list Z) :
  stealth opts = true -> serialize opts = Some false ->
  findRoute G = Some method -> getRoomType G = Some type_of ->
  let r1 := roomName start in
  let r2 := roomName goal in
  let distance := getRoomLinearDistance G r1 r2 in
  let route := method r1 r2 opts in
  let first :=
    if decide (distance > 2)
    then Cartographer.callPathFinder G start goal opts (Some route)
           (emit (EvFindRoute r1 r2) run)
    else Cartographer.callPathFinder G start goal opts None run in
  let second :=
    Cartographer.callPathFinder G start goal opts (Some route)
      (emit (EvFindRoute r1 r2) first.2) in
  let final :=
    if incomplete first.1 && bool_decide (distance <= 2) then second
    else first in
  let keeper (p : RoomPosition) :=
    type_of (roomName p) = JS.str "sourceKeeper" in
  exists kept,
    (Cartographer.findPath G start goal opts run).1 = Ok (PArr kept)
    /\ kept `prefix_of` path final.1
    /\ Forall (fun p => ~ keeper p) kept
    /\ (Forall (fun p => ~ keeper p) (path final.1) -> kept = path final.1)
    /\ (forall p, path final.1 !! length kept = Some p -> keeper p).
Proof.
  intros Hstealth Hserialize Hmethod Htype. cbv zeta.
  rewrite (findPath_array G start goal opts run Hserialize method Hmethod).
  rewrite Hstealth.
  match goal with
  | |- context [Cartographer.cut_at_sourceKeeper G ?p ?r] =>
      destruct (cut_spec G p r type_of Htype)
        as (kept & -> & Hpre & Hfree & Hwhole & Hnext)
  end.
  exists kept. by split_and!.
Qed.

Lemma stealth_path_stops_before_source_keepers_witness :
  let type_of (room : list Z) :=
    if decide (room = Sample.W6N1) then JS.str "sourceKeeper"
    else JS.str "basic" in
  let search (start : RoomPosition) (range : Z) (pos : RoomPosition)
        (o : SearchOpts) (st : State) :=
    (mkSearchResult [Sample.near; Sample.far; Sample.near] false, st) in
  let G :=
    mkGame 1 ∅ 0 [] (fun _ _ _ => 0) (fun _ _ => 0) (fun _ => [])
      (fun _ => []) (fun _ _ _ => []) (fun _ _ => Num RIGHT)
      (fun _ _ => None) (fun _ _ => NaN) search
      (Some Sample.six_rooms) (Some type_of) None in
  let opts :=
    mkOpts false false None None None false true (Some false) false None
      None None false None None None None in
  (Cartographer.findPath G (c_pos Sample.creep) Sample.far opts
     (mkRun (initial 1) [])).1 = Ok (PArr [Sample.near]).
Proof.
  intros type_of search G opts.
  destruct (stealth_path_stops_before_source_keepers G (c_pos Sample.creep)
              Sample.far opts (mkRun (initial 1) []) Sample.six_rooms type_of
              eq_refl eq_refl eq_refl eq_refl)
    as (kept & Hkept & _).
  rewrite Hkept. vm_compute in Hkept. exact (eq_sym Hkept).
Defined.

(** *** Serialized paths *)

Section Serialized.

Implicit Types (G : Game) (path : list RoomPosition) (p q : RoomPosition).

Lemma digit_string k : 1 <= k <= 8 ->
  Cartographer.number_to_string (Num k) = [48 + k].
Proof.
  intros Hk.
  assert (k = 1 \/ k = 2 \/ k = 3 \/ k = 4 \/ k = 5 \/ k = 6 \/ k = 7
          \/ k = 8) as Hks by lia.
  by destruct Hks as [->|[->|[->|[->|[->|[->|[->| ->]]]]]]].
Qed.

(** The direction the game answers for a step to a neighbouring tile of
    the room. *)
Lemma neighbour_direction G p q :
  roomName q = roomName p ->
  Z.max (Z.abs (x q - x p)) (Z.abs (y q - y p)) = 1 ->
  as_lidar G p q ->
  exists k, 1 <= k <= 8 /\ getDirectionTo G p (Some q) = Num k
    /\ step_to p k = Some q.
Proof.
  intros Hroom Hstep Hl.
  destruct (step_of_direction _ _ Hstep) as (k & Hk & Hox & Hoy).
  destruct (direction_of_step k _ _ Hk Hox Hoy) as (Hd & _).
  unfold as_lidar, Lidar.getDirectionTo in Hl.
  rewrite decide_True in Hl by done. rewrite Hd in Hl. injection Hl as Hl.
  exists k. split_and!; [lia|lia|done|].
  unfold step_to. rewrite Hox, Hoy. cbn. f_equal.
  destruct p as [px py pr], q as [qx qy qr]. cbn in *. subst qr.
  f_equal; lia.
Qed.

Lemma serialize_loop G path (start : RoomPosition) :
  forall (f : nat -> nat) (result : list Z) (current : RoomPosition)
    (last_ : nat),
  stepwise current path -> as_lidar_along G current path ->
  exists moves final,
    foldl (fun '(result, current, last) '(i, position) =>
             let '(result, last) :=
               if decide (roomName position = roomName current)
               then (result ++ Cartographer.number_to_string
                                 (getDirectionTo G current (Some position)),
                     last)
               else if decide (roomName current = roomName start)
               then (result, i)
               else (result, last) in
             (result, position, last))
          (result, current, last_) (imap (fun i p => (f i, p)) path)
    = (result ++ moves, final, last_)
    /\ walk current moves = Some path
    /\ length moves = length path.
Proof.
  induction path as [|q path IH]; intros f result current last_ Hs Hl.
  - exists [], current. by rewrite app_nil_r.
  - destruct Hs as (Hroom & Hstep & Hs). destruct Hl as [Hl Hls].
    destruct (neighbour_direction G current q Hroom Hstep Hl)
      as (k & Hk & Hd & Hq).
    cbn [imap foldl]. rewrite decide_True by done. rewrite Hd.
    rewrite digit_string by done.
    destruct (IH (f ∘ S) (result ++ [48 + k]) q last_ Hs Hls)
      as (moves & final & Hfold & Hwalk & Hlen).
    exists (48 + k :: moves), final. split_and!.
    + unfold compose in Hfold |- *. cbv beta in Hfold |- *.
      rewrite Hfold. by rewrite <- app_assoc.
    + cbn [walk]. rewrite decide_True by lia.
      replace (48 + k - 48) with k by lia. rewrite Hq. cbn. by rewrite Hwalk.
    + cbn. by rewrite Hlen.
Qed.

End Serialized.

(** X28. [serializePath] of a path that stays in the room of the start,
    each position a neighbouring tile of the one before, with the game
    answering directions as LidarOverloaded.js and no
    [visualizePathStyle]: the string has one digit from 1 to 8 for each
    position, and taking from the start the steps the digits name, by
    the offset tables of [moveObstruction], goes through the positions
    of the path in order. *)
Theorem serializePath_walks_the_path (G : Game) (path : list RoomPosition)
  (start : RoomPosition) (opts : Opts) (run : Run) :
  stepwise start path -> as_lidar_along G start path ->
  visualizePathStyle opts = false ->
  exists moves,
    Cartographer.serializePath G path start opts run = (Ok moves, run)
    /\ walk start moves = Some path
    /\ length moves = length path.
Proof.
  intros Hs Hl Hv. unfold Cartographer.serializePath.
  destruct (serialize_loop G path start (fun i => i) [] start (length path)
              Hs Hl) as (moves & final & Hfold & Hwalk & Hlen).
  rewrite Hfold, Hv. exists moves. by split_and!.
Qed.

Lemma serializePath_walks_the_path_witness :
  let G := Sample.game 1 true (Sample.search_nothing false) None in
  let path := [mkPos 26 25 Sample.W1N1; mkPos 27 25 Sample.W1N1] in
  exists moves,
    Cartographer.serializePath G path (c_pos Sample.creep) no_opts
      (mkRun (initial 1) []) = (Ok moves, mkRun (initial 1) [])
    /\ walk (c_pos Sample.creep) moves = Some path.
Proof.
  intros G path.
  destruct (serializePath_walks_the_path G path (c_pos Sample.creep) no_opts
              (mkRun (initial 1) []))
    as (moves & Hs & Hw & _).
  - cbn. repeat split; lia.
  - cbn. repeat split; reflexivity.
  - reflexivity.
  - exists moves. split; [exact Hs|exact Hw].
Defined.
